(** * Portfolio calculator server (src/server.js): a shallow embedding

    The server is a small Express application.  Its request handlers are
    embedded as functions in a state-and-exception monad over an explicit
    [World] (the remote price provider, the clock, the history file and
    the console), and the JavaScript values they manipulate are embedded
    as an inductive type of JSON-like values whose numbers are IEEE 754
    binary64 floats ([SpecFloat.spec_float] at precision 53).

    The file is organised as follows:
    - [Num]: Numbers, [toFixed(2)], [Number::toString], [parseFloat];
    - [Js]: values, truthiness, the conversions and string methods used;
    - [Json]: [JSON.stringify(v, null, 2)] and [JSON.parse];
    - [Server]: the world, the monad, and the functions and handlers of
      server.js, followed by the notions used to state their properties;
    - [Scenarios]: sample worlds and requests;
    - [Behaviour]: further notions used to describe the handlers;
    - [JsonFacts], [NumeralFacts]: the round trip through JSON text;
    - [ServerFacts], [BehaviourFacts]: the properties of the handlers.

    Strings are byte strings holding UTF-8: the text handled by the
    server (ticker symbols, decimal numbers, JSON punctuation) is ASCII,
    and bytes above 127 are carried through unchanged; the white space
    trimmed before a numeral is the white space of ECMAScript, in its
    UTF-8 encoding, and [toUpperCase] acts on the letters a to z.  The
    values of a request body or of a provider's answer come from JSON
    text, so that no property of theirs is a function.  One request is
    handled at a time. *)

From Stdlib Require Import ZArith List String Ascii Bool Lia.
From Stdlib Require Import Floats.SpecFloat.
From Stdlib Require Import DecimalString.
From Stdlib Require DecimalFacts DecimalPos.
Import ListNotations.

Local Open Scope string_scope.
Local Open Scope Z_scope.

(* ================================================================= *)
(** ** Numbers *)

Module Num.

Definition prec : Z := 53.
Definition emax : Z := 1024.

(** A JavaScript Number. *)
Definition number : Type := spec_float.

Definition NaN : number := S754_nan.
Definition zero : number := S754_zero false.
Definition Infinity : number := S754_infinity false.

(** [x * y] and [x + y] on Numbers. *)
Definition mul : number -> number -> number := SFmul prec emax.
Definition add : number -> number -> number := SFadd prec emax.

(** [x <= y]: false as soon as one side is NaN. *)
Definition leb (x y : number) : bool := SFleb x y.

Definition is_finite (x : number) : bool :=
  match x with
  | S754_zero _ | S754_finite _ _ _ => true
  | _ => false
  end.

(** The Number nearest to the integer [z]. *)
Definition of_Z (z : Z) : number := binary_normalize prec emax z 0 false.

(** The Number nearest (ties to even) to the rational [p / q], for
    [0 <= p] and [0 < q], with sign [neg].  The quotient is computed with
    at least ten guard bits below the rounding position and a sticky bit
    recording a non-zero remainder. *)
Definition of_ratio (neg : bool) (p q : Z) : number :=
  if p =? 0 then S754_zero neg
  else
    let sh := Z.max 1080 (64 + Z.log2 q - Z.log2 p) in
    let num := p * 2 ^ sh in
    let sticky := if num mod q =? 0 then 0 else 1 in
    binary_normalize prec emax (cond_Zopp neg (2 * (num / q) + sticky)) (- sh - 1) neg.

(** The Number nearest to [m * 10^e]. *)
Definition of_decimal (neg : bool) (m e : Z) : number :=
  if 0 <=? e then of_ratio neg (m * 10 ^ e) 1 else of_ratio neg m (10 ^ (- e)).

(* ----------------------------------------------------------------- *)
(** *** Decimal digits *)

Definition digit_char (d : Z) : ascii := ascii_of_nat (48 + Z.to_nat d).

(** Decimal numeral of a non-negative integer. *)
Definition Z_to_string (z : Z) : string :=
  NilZero.string_of_uint (N.to_uint (Z.to_N z)).

Fixpoint zeros (n : nat) : string :=
  match n with
  | O => ""
  | S n' => String "0" (zeros n')
  end.

Fixpoint take (n : nat) (s : string) : string :=
  match n, s with
  | S n', String c s' => String c (take n' s')
  | _, _ => ""
  end.

Fixpoint drop (n : nat) (s : string) : string :=
  match n, s with
  | S n', String _ s' => drop n' s'
  | _, _ => s
  end.

(** Number of decimal digits of a positive integer. *)
Definition ndigits (z : Z) : Z := Z.of_nat (String.length (Z_to_string z)).

(** The integer [n] with [10^(n-1) <= p/q < 10^n], for positive [p], [q]. *)
Definition dec_exponent (p q : Z) : Z :=
  let d := ndigits p - ndigits q in
  let ge := if 0 <=? d then q * 10 ^ d <=? p else q <=? p * 10 ^ (- d) in
  if ge then d + 1 else d.

(** [10^(n-1) <= p/q < 10^n]. *)
Definition in_decade (p q n : Z) : Prop :=
  (1 <= n -> q * 10 ^ (n - 1) <= p) /\
  (n <= 0 -> q <= p * 10 ^ (1 - n)) /\
  (0 <= n -> p < q * 10 ^ n) /\
  (n < 0 -> p * 10 ^ (- n) < q).

(* ----------------------------------------------------------------- *)
(** *** Number::toString (radix 10) *)

(** A finite non-zero magnitude [m * 2^e] as a fraction. *)
Definition ratio_of (m : positive) (e : Z) : Z * Z :=
  if 0 <=? e then (Zpos m * 2 ^ e, 1) else (Zpos m, 2 ^ (- e)).

(** Candidates with [k] digits for the magnitude [p/q] of decimal exponent
    [n]: the digit strings [s] (with their exponent) just below and just
    above [p/q / 10^(n-k)]. *)
Definition candidates (p q n k : Z) : list (Z * Z) :=
  let '(sp, sq) := if 0 <=? k - n then (p * 10 ^ (k - n), q) else (p, q * 10 ^ (n - k)) in
  let lo := sp / sq in
  let hi := lo + 1 in
  [(lo, n); if hi =? 10 ^ k then (10 ^ (k - 1), n + 1) else (hi, n)].

(** Distance of [s * 10^(n-k)] to [p/q], scaled by a common positive factor. *)
Definition cand_dist (p q k : Z) (c : Z * Z) : Z :=
  let '(s, n) := c in
  if 0 <=? n - k then Z.abs (s * 10 ^ (n - k) * q - p)
  else Z.abs (s * q - p * 10 ^ (k - n)).

Definition spec_float_eqb (x y : number) : bool :=
  match x, y with
  | S754_zero a, S754_zero b => Bool.eqb a b
  | S754_infinity a, S754_infinity b => Bool.eqb a b
  | S754_nan, S754_nan => true
  | S754_finite a m e, S754_finite b m' e' => Bool.eqb a b && Pos.eqb m m' && Z.eqb e e'
  | _, _ => false
  end.

(** Among the candidates with [k] digits, those whose Number value is
    [x]; the one closest to [x] wins, an even digit string on a tie. *)
Definition pick (x : number) (p q n k : Z) : option (Z * Z) :=
  let ok c := spec_float_eqb (of_decimal false (fst c) (snd c - k)) x in
  match filter ok (candidates p q n k) with
  | [] => None
  | [c] => Some c
  | c1 :: c2 :: _ =>
      let d1 := cand_dist p q k c1 in
      let d2 := cand_dist p q k c2 in
      if d1 <? d2 then Some c1
      else if d2 <? d1 then Some c2
      else if Z.even (fst c1) then Some c1 else Some c2
  end.

(** Shortest digit string: the least [k] in [k0 .. k0 + fuel] that has a
    candidate.  Seventeen digits identify every binary64 value. *)
Fixpoint shortest (x : number) (p q n k : Z) (fuel : nat) : Z * Z * Z :=
  match pick x p q n k with
  | Some (s, n') => (s, n', k)
  | None =>
      match fuel with
      | O => (fst (hd (0, n) (candidates p q n k)), n, k)
      | S fuel' => shortest x p q n (k + 1) fuel'
      end
  end.

Definition format_digits (ds : string) (n k : Z) : string :=
  if (k <=? n) && (n <=? 21) then ds ++ zeros (Z.to_nat (n - k))
  else if (0 <? n) && (n <=? 21) then take (Z.to_nat n) ds ++ "." ++ drop (Z.to_nat n) ds
  else if (-6 <? n) && (n <=? 0) then "0." ++ zeros (Z.to_nat (- n)) ++ ds
  else
    let e := n - 1 in
    let es := (if 0 <=? e then "+" else "-") ++ Z_to_string (Z.abs e) in
    if k =? 1 then ds ++ "e" ++ es
    else take 1 ds ++ "." ++ drop 1 ds ++ "e" ++ es.

Definition to_string (x : number) : string :=
  match x with
  | S754_nan => "NaN"
  | S754_zero _ => "0"
  | S754_infinity s => if s then "-Infinity" else "Infinity"
  | S754_finite s m e =>
      let '(p, q) := ratio_of m e in
      let '(d, n, k) := shortest (S754_finite false m e) p q (dec_exponent p q) 1 16 in
      (if s then "-" else "") ++ format_digits (Z_to_string d) n k
  end.

(* ----------------------------------------------------------------- *)
(** *** Number.prototype.toFixed(2) *)

(** The integer [n] for which [n / 100] is closest to [m * 2^e], the
    larger one on a tie. *)
Definition round_cents (m : positive) (e : Z) : Z :=
  let a := Zpos m * 100 in
  if 0 <=? e then a * 2 ^ e else (2 * a + 2 ^ (- e)) / 2 ^ (- e + 1).

(** [m * 2^e >= 10^21]. *)
Definition ge_1e21 (m : positive) (e : Z) : bool :=
  if 0 <=? e then 10 ^ 21 <=? Zpos m * 2 ^ e else 10 ^ 21 * 2 ^ (- e) <=? Zpos m.

Definition fixed2 (n : Z) : string :=
  Z_to_string (n / 100) ++ "."
    ++ String (digit_char ((n / 10) mod 10)) (String (digit_char (n mod 10)) "").

Definition toFixed2 (x : number) : string :=
  match x with
  | S754_finite s m e =>
      if ge_1e21 m e then to_string x
      else (if s then "-" else "") ++ fixed2 (round_cents m e)
  | S754_zero _ => "0.00"
  | _ => to_string x
  end.

(* ----------------------------------------------------------------- *)
(** *** Reading decimal literals *)

Definition is_digit (c : ascii) : bool :=
  let n := nat_of_ascii c in (48 <=? n)%nat && (n <=? 57)%nat.

Definition digit_val (c : ascii) : Z := Z.of_nat (nat_of_ascii c) - 48.

(** JavaScript white space and line terminators that are one byte long:
    TAB, LF, VT, FF, CR and SP. *)
Definition is_space (c : ascii) : bool :=
  let n := nat_of_ascii c in ((9 <=? n)%nat && (n <=? 13)%nat) || (n =? 32)%nat.

(** The two bytes of U+00A0 (no-break space). *)
Definition is_space2 (a b : ascii) : bool :=
  ((nat_of_ascii a =? 194) && (nat_of_ascii b =? 160))%nat.

(** The three bytes of the other white space and line terminator
    characters: U+1680, U+2000 to U+200A, U+2028, U+2029, U+202F, U+205F,
    U+3000 and U+FEFF. *)
Definition is_space3 (a b c : ascii) : bool :=
  let x := nat_of_ascii a in
  let y := nat_of_ascii b in
  let z := nat_of_ascii c in
  ((x =? 225) && (y =? 154) && (z =? 128)
   || (x =? 226) && (y =? 128)
      && ((128 <=? z) && (z <=? 138) || (z =? 168) || (z =? 169) || (z =? 175))
   || (x =? 226) && (y =? 129) && (z =? 159)
   || (x =? 227) && (y =? 128) && (z =? 128)
   || (x =? 239) && (y =? 187) && (z =? 191))%nat.

(** [s] without the white space and line terminators at its head. *)
Fixpoint trim_start (s : string) : string :=
  match s with
  | String a r =>
      if is_space a then trim_start r
      else
        match r with
        | String b r1 =>
            if is_space2 a b then trim_start r1
            else
              match r1 with
              | String c r2 => if is_space3 a b c then trim_start r2 else s
              | EmptyString => s
              end
        | EmptyString => s
        end
  | EmptyString => s
  end.

(** Longest run of digits at the head of [s]: the value accumulated on
    top of [acc], the number of digits read on top of [cnt], the rest. *)
Fixpoint scan_digits (s : string) (acc cnt : Z) : Z * Z * string :=
  match s with
  | String c s' =>
      if is_digit c then scan_digits s' (10 * acc + digit_val c) (cnt + 1)
      else (acc, cnt, s)
  | EmptyString => (acc, cnt, s)
  end.

(** Optional exponent part [e[+-]ddd]; absent when no digit follows. *)
Definition scan_exponent (s : string) : Z * string :=
  match s with
  | String c r =>
      if (Ascii.eqb c "e" || Ascii.eqb c "E")%bool then
        let '(neg, r') :=
          match r with
          | String "-" r' => (true, r')
          | String "+" r' => (false, r')
          | _ => (false, r)
          end in
        let '(v, cnt, rest) := scan_digits r' 0 0 in
        if cnt =? 0 then (0, s) else (if neg then - v else v, rest)
      else (0, s)
  | EmptyString => (0, s)
  end.

(** Longest prefix of [s] that is an unsigned decimal literal
    ([ddd], [ddd.], [ddd.ddd], [.ddd], each with an optional exponent):
    mantissa, power of ten, rest. *)
Definition scan_unsigned (s : string) : option (Z * Z * string) :=
  let '(ip, ni, r1) := scan_digits s 0 0 in
  let '(m, nf, r2) :=
    match r1 with
    | String "." r =>
        let '(m, nf, r2) := scan_digits r ip 0 in
        if (ni =? 0) && (nf =? 0) then (ip, 0, r1) else (m, nf, r2)
    | _ => (ip, 0, r1)
    end in
  if ni + nf =? 0 then None
  else let '(ex, r3) := scan_exponent r2 in Some (m, ex - nf, r3).

Definition split_sign (s : string) : bool * string :=
  match s with
  | String "-" r => (true, r)
  | String "+" r => (false, r)
  | _ => (false, s)
  end.

Fixpoint starts_with (p s : string) : option string :=
  match p, s with
  | EmptyString, _ => Some s
  | String a p', String b s' => if Ascii.eqb a b then starts_with p' s' else None
  | _, _ => None
  end.

(** The global [parseFloat] applied to a string. *)
Definition parseFloat (s : string) : number :=
  let '(neg, r) := split_sign (trim_start s) in
  match starts_with "Infinity" r with
  | Some _ => S754_infinity neg
  | None =>
      match scan_unsigned r with
      | Some (m, e, _) => of_decimal neg m e
      | None => NaN
      end
  end.

(** White space and line terminators only. *)
Definition all_space (s : string) : bool :=
  match trim_start s with
  | EmptyString => true
  | _ => false
  end.

Definition radix_digit (radix : Z) (c : ascii) : option Z :=
  let n := Z.of_nat (nat_of_ascii c) in
  let v := if (48 <=? n) && (n <=? 57) then n - 48
           else if (97 <=? n) && (n <=? 102) then n - 87
           else if (65 <=? n) && (n <=? 70) then n - 55
           else 16 in
  if v <? radix then Some v else None.

Fixpoint scan_radix (radix : Z) (s : string) (acc cnt : Z) : Z * Z * string :=
  match s with
  | String c s' =>
      match radix_digit radix c with
      | Some v => scan_radix radix s' (radix * acc + v) (cnt + 1)
      | None => (acc, cnt, s)
      end
  | EmptyString => (acc, cnt, s)
  end.

(** A [0x], [0o] or [0b] integer literal followed by white space only. *)
Definition radix_literal (s : string) : option number :=
  match s with
  | String "0" (String c r) =>
      let radix :=
        if (Ascii.eqb c "x" || Ascii.eqb c "X")%bool then 16
        else if (Ascii.eqb c "o" || Ascii.eqb c "O")%bool then 8
        else if (Ascii.eqb c "b" || Ascii.eqb c "B")%bool then 2
        else 0 in
      if radix =? 0 then None
      else
        let '(v, cnt, rest) := scan_radix radix r 0 0 in
        if (0 <? cnt) && all_space rest then Some (of_Z v) else Some NaN
  | _ => None
  end.

(** StringToNumber: the numeric value of a whole string, as used by
    [ToNumber] on strings. *)
Definition string_to_number (s : string) : number :=
  let t := trim_start s in
  match t with
  | EmptyString => zero
  | _ =>
      match radix_literal t with
      | Some x => x
      | None =>
          let '(neg, r) := split_sign t in
          match starts_with "Infinity" r with
          | Some rest => if all_space rest then S754_infinity neg else NaN
          | None =>
              match scan_unsigned r with
              | Some (m, e, rest) => if all_space rest then of_decimal neg m e else NaN
              | None => NaN
              end
          end
      end
  end.

End Num.

(* ================================================================= *)
(** ** Values *)

Module Js.

Import Num.

#[local] Set Warnings "-register-all".

(** The values that reach the server: what [JSON.parse] can build, plus
    [undefined].  An object is its list of own properties in property
    order. *)
Inductive value : Type :=
| VUndefined
| VNull
| VBool (b : bool)
| VNum (x : number)
| VStr (s : string)
| VArr (elts : list value)
| VObj (fields : list (string * value)).

(** ToBoolean. *)
Definition truthy (v : value) : bool :=
  match v with
  | VUndefined | VNull => false
  | VBool b => b
  | VNum (S754_zero _) | VNum S754_nan => false
  | VNum _ => true
  | VStr s => negb (String.eqb s "")
  | VArr _ | VObj _ => true
  end.

(** [a || b] and [a && b]. *)
Definition js_or (a b : value) : value := if truthy a then a else b.
Definition js_and (a b : value) : value := if truthy a then b else a.

Fixpoint lookup (k : string) (fs : list (string * value)) : value :=
  match fs with
  | [] => VUndefined
  | (k', v) :: fs' => if String.eqb k k' then v else lookup k fs'
  end.

(** [v.k] on a value that is neither [null] nor [undefined], for the
    property names the server reads ([stocks], [symbol], [quantity],
    [price]): none of them is defined on strings, numbers, booleans or
    arrays, nor inherited by plain objects. *)
Definition prop (v : value) (k : string) : value :=
  match v with
  | VObj fs => lookup k fs
  | _ => VUndefined
  end.

Definition is_nullish (v : value) : bool :=
  match v with
  | VUndefined | VNull => true
  | _ => false
  end.

Definition isArray (v : value) : bool :=
  match v with
  | VArr _ => true
  | _ => false
  end.

Fixpoint join (sep : string) (l : list string) : string :=
  match l with
  | [] => ""
  | [s] => s
  | s :: l' => s ++ sep ++ join sep l'
  end.

(** Does the object have an own property of this name? *)
Definition has_own (k : string) (fs : list (string * value)) : bool :=
  existsb (fun kv => String.eqb k (fst kv)) fs.

(** ToString; [None] stands for the TypeError of ToPrimitive.  An object
    is turned into a primitive by its [toString] method (its [valueOf],
    own or inherited, never yields a primitive here): an own property
    [toString] hides [Object.prototype.toString] and, holding a JSON
    value, is not callable, so that the conversion throws; otherwise the
    result is "[object Object]".  An array is joined by
    [Array.prototype.toString], which converts its elements in turn,
    [null] and [undefined] to the empty string. *)
Fixpoint to_js_string (v : value) : option string :=
  match v with
  | VUndefined => Some "undefined"
  | VNull => Some "null"
  | VBool b => Some (if b then "true" else "false")
  | VNum x => Some (to_string x)
  | VStr s => Some s
  | VArr l =>
      option_map (join ",")
        ((fix elts (l : list value) : option (list string) :=
            match l with
            | [] => Some []
            | v :: l' =>
                match (if is_nullish v then Some "" else to_js_string v), elts l' with
                | Some s, Some ss => Some (s :: ss)
                | _, _ => None
                end
            end) l)
  | VObj fs => if has_own "toString" fs then None else Some "[object Object]"
  end.

(** ToNumber; [None] stands for the TypeError of ToPrimitive. *)
Definition to_number (v : value) : option number :=
  match v with
  | VUndefined => Some NaN
  | VNull => Some zero
  | VBool b => Some (if b then of_Z 1 else zero)
  | VNum x => Some x
  | _ => option_map string_to_number (to_js_string v)
  end.

(** [parseFloat(v)]; [None] stands for the TypeError of ToString. *)
Definition parseFloat (v : value) : option number :=
  option_map Num.parseFloat (to_js_string v).

(** [v <= 0]; [None] stands for the TypeError of ToPrimitive. *)
Definition le_zero (v : value) : option bool :=
  option_map (fun x => leb x zero) (to_number v).

Definition upper_char (c : ascii) : ascii :=
  let n := nat_of_ascii c in
  if ((97 <=? n)%nat && (n <=? 122)%nat)%bool then ascii_of_nat (n - 32) else c.

(** [s.toUpperCase()] for the strings whose letters are the ASCII
    letters: the letters a to z are replaced, every other byte is kept. *)
Fixpoint toUpperCase (s : string) : string :=
  match s with
  | EmptyString => EmptyString
  | String c s' => String (upper_char c) (toUpperCase s')
  end.

(** Array indices come first among the properties of an object, in
    ascending order; the other keys follow in creation order. *)
Definition array_index (k : string) : option Z :=
  match k with
  | EmptyString => None
  | String c r =>
      let '(v, _, rest) := scan_digits k 0 0 in
      if negb (String.eqb rest "") then None
      else if Ascii.eqb c "0" && negb (String.eqb r "") then None
      else if v <? 2 ^ 32 - 1 then Some v else None
  end.

Definition comes_before (k k' : string) : bool :=
  match array_index k, array_index k' with
  | Some i, Some j => i <? j
  | Some _, None => true
  | None, _ => false
  end.

(** CreateDataProperty on an ordinary object: [o[k] = v]. *)
Fixpoint obj_set (k : string) (v : value) (fs : list (string * value)) : list (string * value) :=
  match fs with
  | [] => [(k, v)]
  | (k', v') :: fs' =>
      if String.eqb k k' then (k, v) :: fs'
      else if comes_before k k' then (k, v) :: fs
      else (k', v') :: obj_set k v fs'
  end.

(** Is [sub] a substring of [s]? *)
Fixpoint includes (s sub : string) : bool :=
  match starts_with sub s with
  | Some _ => true
  | None =>
      match s with
      | EmptyString => false
      | String _ s' => includes s' sub
      end
  end.

End Js.

(* ================================================================= *)
(** ** JSON text *)

Module Json.

Import Num Js.

Definition nl : string := String (ascii_of_nat 10) "".
Definition dquote : ascii := ascii_of_nat 34.

Definition hex_char (d : Z) : ascii :=
  if d <? 10 then ascii_of_nat (48 + Z.to_nat d) else ascii_of_nat (87 + Z.to_nat d).

(** QuoteJSONString, without the surrounding quotes. *)
Fixpoint escape (s : string) : string :=
  match s with
  | EmptyString => ""
  | String c s' =>
      let n := Z.of_nat (nat_of_ascii c) in
      (if n =? 8 then "\b"
       else if n =? 9 then "\t"
       else if n =? 10 then "\n"
       else if n =? 12 then "\f"
       else if n =? 13 then "\r"
       else if n =? 34 then String "\" (String c "")
       else if n =? 92 then "\\"
       else if n <? 32 then
         "\u00" ++ String (hex_char (n / 16)) (String (hex_char (n mod 16)) "")
       else String c "")
      ++ escape s'
  end.

Definition quote (s : string) : string :=
  String dquote (escape s ++ String dquote "").

Definition bracket (opening closing indent : string) (items : list string) : string :=
  match items with
  | [] => opening ++ closing
  | _ =>
      let inner := indent ++ "  " in
      opening ++ nl ++ inner ++ join ("," ++ nl ++ inner) items ++ nl ++ indent ++ closing
  end.

(** SerializeJSONProperty with a gap of two spaces, at the current
    indentation; [None] stands for [undefined] (nothing to write).  An
    [undefined] element of an array is written [null]; a member of an
    object whose value is [undefined] is left out. *)
Fixpoint serialize (indent : string) (v : value) : option string :=
  match v with
  | VUndefined => None
  | VNull => Some "null"
  | VBool b => Some (if b then "true" else "false")
  | VNum x => Some (if is_finite x then to_string x else "null")
  | VStr s => Some (quote s)
  | VArr l =>
      Some (bracket "[" "]" indent
              (map (fun v => match serialize (indent ++ "  ") v with
                             | Some s => s
                             | None => "null"
                             end) l))
  | VObj fs =>
      Some (bracket "{" "}" indent
              (flat_map (fun kv => match serialize (indent ++ "  ") (snd kv) with
                                   | Some s => [quote (fst kv) ++ ": " ++ s]
                                   | None => []
                                   end) fs))
  end.

(** [JSON.stringify(v, null, 2)]. *)
Definition stringify (v : value) : option string := serialize "" v.

(* ----------------------------------------------------------------- *)
(** *** JSON.parse *)

Definition is_ws (c : ascii) : bool :=
  let n := nat_of_ascii c in
  ((n =? 32) || (n =? 9) || (n =? 10) || (n =? 13))%nat.

Fixpoint skip_ws (s : string) : string :=
  match s with
  | String c s' => if is_ws c then skip_ws s' else s
  | EmptyString => s
  end.

Definition hex4 (a b c d : ascii) : option Z :=
  match radix_digit 16 a, radix_digit 16 b, radix_digit 16 c, radix_digit 16 d with
  | Some x, Some y, Some z, Some w => Some (((x * 16 + y) * 16 + z) * 16 + w)
  | _, _, _, _ => None
  end.

Definition byte (n : Z) : ascii := ascii_of_nat (Z.to_nat n).

(** UTF-8 encoding of a code point; a lone surrogate is written as
    U+FFFD, as the file system layer does. *)
Definition utf8 (cp : Z) : string :=
  if cp <? 128 then String (byte cp) ""
  else if cp <? 2048 then
    String (byte (192 + cp / 64)) (String (byte (128 + cp mod 64)) "")
  else if (55296 <=? cp) && (cp <? 57344) then
    String (byte 239) (String (byte 191) (String (byte 189) ""))
  else if cp <? 65536 then
    String (byte (224 + cp / 4096))
      (String (byte (128 + (cp / 64) mod 64)) (String (byte (128 + cp mod 64)) ""))
  else
    String (byte (240 + cp / 262144))
      (String (byte (128 + (cp / 4096) mod 64))
         (String (byte (128 + (cp / 64) mod 64)) (String (byte (128 + cp mod 64)) ""))).

Definition cons_str (p : string) (r : option (string * string)) : option (string * string) :=
  match r with
  | Some (s, rest) => Some (p ++ s, rest)
  | None => None
  end.

(** The characters of a JSON string up to its closing quote. *)
Fixpoint parse_chars (s : string) : option (string * string) :=
  match s with
  | EmptyString => None
  | String c r =>
      let n := nat_of_ascii c in
      if (n =? 34)%nat then Some ("", r)
      else if (n =? 92)%nat then
        match r with
        | String "u" (String h1 (String h2 (String h3 (String h4 r')))) =>
            match hex4 h1 h2 h3 h4 with
            | None => None
            | Some hi =>
                if (55296 <=? hi) && (hi <? 56320) then
                  match r' with
                  | String "\" (String "u" (String l1 (String l2 (String l3 (String l4 r''))))) =>
                      match hex4 l1 l2 l3 l4 with
                      | Some lo =>
                          if (56320 <=? lo) && (lo <? 57344) then
                            cons_str (utf8 (65536 + (hi - 55296) * 1024 + (lo - 56320)))
                              (parse_chars r'')
                          else cons_str (utf8 hi) (parse_chars r')
                      | None => None
                      end
                  | _ => cons_str (utf8 hi) (parse_chars r')
                  end
                else cons_str (utf8 hi) (parse_chars r')
            end
        | String e r' =>
            let m := nat_of_ascii e in
            let simple (x : nat) := cons_str (String (ascii_of_nat x) "") (parse_chars r') in
            if ((m =? 34) || (m =? 92) || (m =? 47))%nat then simple m
            else if (m =? 98)%nat then simple 8%nat
            else if (m =? 102)%nat then simple 12%nat
            else if (m =? 110)%nat then simple 10%nat
            else if (m =? 114)%nat then simple 13%nat
            else if (m =? 116)%nat then simple 9%nat
            else None
        | EmptyString => None
        end
      else if (n <? 32)%nat then None
      else cons_str (String c "") (parse_chars r)
  end.

(** A JSON number: an optional minus sign, an integer part without
    leading zero, an optional fraction and an optional exponent, each
    with at least one digit. *)
Definition number_sign (s : string) : bool * string :=
  match s with
  | String "-" r => (true, r)
  | _ => (false, s)
  end.

Definition int_part (r : string) : option (Z * string) :=
  match r with
  | String c r1 =>
      if is_digit c then
        if Ascii.eqb c "0" then Some (0, r1)
        else let '(v, _, r2) := scan_digits r 0 0 in Some (v, r2)
      else None
  | EmptyString => None
  end.

(** The fraction continues the digits of the integer part [ip]; the
    result counts the digits read after the point. *)
Definition frac_part (ip : Z) (r : string) : option (Z * Z * string) :=
  match r with
  | String c r3 =>
      if Ascii.eqb c "." then
        let '(m, nf, r4) := scan_digits r3 ip 0 in
        if nf =? 0 then None else Some (m, nf, r4)
      else Some (ip, 0, r)
  | EmptyString => Some (ip, 0, r)
  end.

Definition exp_part (r : string) : option (Z * string) :=
  match r with
  | String e r5 =>
      if (Ascii.eqb e "e" || Ascii.eqb e "E")%bool then
        let '(eneg, r6) := split_sign r5 in
        let '(ex, cnt, r7) := scan_digits r6 0 0 in
        if cnt =? 0 then None else Some (if eneg then - ex else ex, r7)
      else Some (0, r)
  | EmptyString => Some (0, r)
  end.

Definition parse_number (s : string) : option (number * string) :=
  let '(neg, r) := number_sign s in
  match int_part r with
  | None => None
  | Some (ip, r2) =>
      match frac_part ip r2 with
      | None => None
      | Some (m, nf, r4) =>
          match exp_part r4 with
          | None => None
          | Some (ex, r7) => Some (of_decimal neg m (ex - nf), r7)
          end
      end
  end.

Definition literal (word : string) (v : value) (s : string) : option (value * string) :=
  match starts_with word s with
  | Some rest => Some (v, rest)
  | None => None
  end.

(** One value, given the parsers of the elements of an array and of the
    members of an object. *)
Definition value_step
    (elements : list value -> string -> option (list value * string))
    (members : list (string * value) -> string -> option (list (string * value) * string))
    (s : string) : option (value * string) :=
  match skip_ws s with
  | String c r as s1 =>
      if Ascii.eqb c "n" then literal "null" VNull s1
      else if Ascii.eqb c "t" then literal "true" (VBool true) s1
      else if Ascii.eqb c "f" then literal "false" (VBool false) s1
      else if Ascii.eqb c dquote then
        match parse_chars r with
        | Some (str, rest) => Some (VStr str, rest)
        | None => None
        end
      else if Ascii.eqb c "[" then
        match starts_with "]" (skip_ws r) with
        | Some rest => Some (VArr [], rest)
        | None =>
            match elements [] (skip_ws r) with
            | Some (l, rest) => Some (VArr l, rest)
            | None => None
            end
        end
      else if Ascii.eqb c "{" then
        match starts_with "}" (skip_ws r) with
        | Some rest => Some (VObj [], rest)
        | None =>
            match members [] (skip_ws r) with
            | Some (fs, rest) => Some (VObj fs, rest)
            | None => None
            end
        end
      else
        match parse_number s1 with
        | Some (x, rest) => Some (VNum x, rest)
        | None => None
        end
  | EmptyString => None
  end.

(** One element of an array and what follows it: a comma and the other
    elements, or the closing bracket. *)
Definition elements_step
    (one : string -> option (value * string))
    (elements : list value -> string -> option (list value * string))
    (acc : list value) (s : string) : option (list value * string) :=
  match one s with
  | Some (v, r) =>
      match skip_ws r with
      | String c r' =>
          if Ascii.eqb c "," then elements (v :: acc) r'
          else if Ascii.eqb c "]" then Some (rev (v :: acc), r')
          else None
      | EmptyString => None
      end
  | None => None
  end.

(** One member of an object and what follows it. *)
Definition members_step
    (one : string -> option (value * string))
    (members : list (string * value) -> string -> option (list (string * value) * string))
    (acc : list (string * value)) (s : string) : option (list (string * value) * string) :=
  match skip_ws s with
  | String q r =>
      if Ascii.eqb q dquote then
        match parse_chars r with
        | Some (k, r1) =>
            match starts_with ":" (skip_ws r1) with
            | Some r2 =>
                match one r2 with
                | Some (v, r3) =>
                    match skip_ws r3 with
                    | String c r4 =>
                        if Ascii.eqb c "," then members (obj_set k v acc) r4
                        else if Ascii.eqb c "}" then Some (obj_set k v acc, r4)
                        else None
                    | EmptyString => None
                    end
                | None => None
                end
            | None => None
            end
        | None => None
        end
      else None
  | EmptyString => None
  end.

(** Recursive descent; every call consumes one unit of [fuel] and at
    least one character of text every second call. *)
Fixpoint parse_value (fuel : nat) (s : string) {struct fuel} : option (value * string) :=
  match fuel with
  | O => None
  | S fuel' => value_step (parse_elements fuel') (parse_members fuel') s
  end

with parse_elements (fuel : nat) (acc : list value) (s : string) {struct fuel}
  : option (list value * string) :=
  match fuel with
  | O => None
  | S fuel' => elements_step (parse_value fuel') (parse_elements fuel') acc s
  end

with parse_members (fuel : nat) (acc : list (string * value)) (s : string) {struct fuel}
  : option (list (string * value) * string) :=
  match fuel with
  | O => None
  | S fuel' => members_step (parse_value fuel') (parse_members fuel') acc s
  end.

(** [JSON.parse(text)]; [None] stands for a SyntaxError. *)
Definition parse (text : string) : option value :=
  match parse_value (2 * String.length text + 2) text with
  | Some (v, rest) =>
      match skip_ws rest with
      | EmptyString => Some v
      | _ => None
      end
  | None => None
  end.

(* ----------------------------------------------------------------- *)
(** *** Values that JSON text represents exactly *)

(** A number token ends where the text ends or goes on with something
    else than a digit, a point or an exponent mark. *)
Definition number_stop (rest : string) : bool :=
  match rest with
  | EmptyString => true
  | String c _ =>
      negb (is_digit c || Ascii.eqb c "." || Ascii.eqb c "e" || Ascii.eqb c "E")
  end.

(** A finite number that [JSON.parse] reads back from its numeral. *)
Definition exact_number (x : number) : bool :=
  is_finite x
  && match parse_number (to_string x) with
     | Some (y, EmptyString) => spec_float_eqb y x
     | _ => false
     end.

(** The keys of an object in property order: each key is new, and none
    of the keys before it comes after it (array indices come first). *)
Fixpoint property_order (seen ks : list string) : bool :=
  match ks with
  | [] => true
  | k :: ks' =>
      negb (existsb (String.eqb k) seen)
      && forallb (fun k' => negb (comes_before k k')) seen
      && property_order (seen ++ [k]) ks'
  end.

(** No [undefined], only exact numbers, and objects whose keys are in
    property order. *)
Fixpoint exact (v : value) : bool :=
  match v with
  | VUndefined => false
  | VNull | VBool _ | VStr _ => true
  | VNum x => exact_number x
  | VArr l => forallb exact l
  | VObj fs => property_order [] (map fst fs) && forallb (fun kv => exact (snd kv)) fs
  end.

(** *** What JSON text keeps of a value *)

(** No [undefined] anywhere. *)
Fixpoint defined (v : value) : bool :=
  match v with
  | VUndefined => false
  | VArr l => forallb defined l
  | VObj fs => forallb (fun kv => defined (snd kv)) fs
  | _ => true
  end.

(** The numeral of [x] is a JSON number. *)
Definition readable_numeral (x : number) : bool :=
  match parse_number (to_string x) with
  | Some (_, EmptyString) => true
  | _ => false
  end.

(** No [undefined], and finite numbers whose numerals are JSON numbers. *)
Fixpoint legible (v : value) : bool :=
  match v with
  | VUndefined => false
  | VNum x => negb (is_finite x) || readable_numeral x
  | VArr l => forallb legible l
  | VObj fs => forallb (fun kv => legible (snd kv)) fs
  | _ => true
  end.

(** What is read from the text of a number: [null] when it is not
    finite, the value of its numeral otherwise. *)
Definition reread_number (x : number) : value :=
  if is_finite x then
    match parse_number (to_string x) with
    | Some (y, _) => VNum y
    | None => VNull
    end
  else VNull.

(** The members read one after the other into an object. *)
Definition set_all (fs acc : list (string * value)) : list (string * value) :=
  fold_left (fun acc kv => obj_set (fst kv) (snd kv) acc) fs acc.

(** What [JSON.parse] reads from the text that [JSON.stringify] writes for
    a value without [undefined]. *)
Fixpoint reread (v : value) : value :=
  match v with
  | VUndefined => VNull
  | VNum x => reread_number x
  | VArr l => VArr (map reread l)
  | VObj fs => VObj (set_all (map (fun kv => (fst kv, reread (snd kv))) fs) [])
  | _ => v
  end.

(** Fuel that [parse_value] needs on the text of a value. *)
Fixpoint cost (v : value) : nat :=
  match v with
  | VArr l => S (list_sum (map (fun v => S (cost v)) l))
  | VObj fs => S (list_sum (map (fun kv => S (cost (snd kv))) fs))
  | _ => 1%nat
  end.

Fixpoint all_ws (s : string) : bool :=
  match s with
  | EmptyString => true
  | String c s' => is_ws c && all_ws s'
  end.

(** Spaces only. *)
Fixpoint blank (s : string) : bool :=
  match s with
  | EmptyString => true
  | String c s' => Ascii.eqb c " " && blank s'
  end.

(** The text of an element of an array. *)
Definition element_text (indent : string) (v : value) : string :=
  match serialize indent v with
  | Some s => s
  | None => "null"
  end.

(** The text of a member of an object. *)
Definition member_text (indent : string) (kv : string * value) : string :=
  quote (fst kv) ++ ": " ++ element_text indent (snd kv).

(** The first character of the text of a value: not white space, not a
    closing bracket. *)
Definition opens_value (s : string) : bool :=
  match s with
  | String c _ => negb (is_ws c) && negb (Ascii.eqb c "]") && negb (Ascii.eqb c "}")
  | EmptyString => false
  end.

(** Fuel for the elements of an array, or the members of an object. *)
Definition need (l : list value) : nat := list_sum (map (fun v => S (cost v)) l).

(** What follows the last element of an array or member of an object. *)
Definition closing (indent bracket rest : string) : string :=
  nl ++ indent ++ bracket ++ rest.

(** The text of [v] at any indentation, after any white space and before
    any text that cannot continue a number, is read as [reread v]. *)
Definition reads_back (v : value) : Prop :=
  forall (indent text pre rest : string) (fuel : nat),
    legible v = true ->
    blank indent = true ->
    all_ws pre = true ->
    serialize indent v = Some text ->
    number_stop rest = true ->
    (cost v <= fuel)%nat ->
    parse_value fuel (pre ++ text ++ rest) = Some (reread v, rest).

(** Twice the length of each text, plus two. *)
Definition text_weight (ts : list string) : nat :=
  list_sum (map (fun t => 2 * String.length t + 2)%nat ts).

(** The fuel needed by a value is covered by the fuel [parse] gives for
    its text. *)
Definition fuel_covered (v : value) : Prop :=
  forall indent text : string,
    defined v = true -> serialize indent v = Some text ->
    (cost v <= 2 * String.length text + 1)%nat.

End Json.

(* ================================================================= *)
(** ** The server *)

Module Server.

Import Num Js Json.

(** *** The world outside the process *)

(** Thrown values: [Error], [TypeError] and [SyntaxError] objects, with
    their [message]. *)
Inductive exn : Type :=
| Error (msg : string)
| TypeError (msg : string)
| SyntaxError (msg : string).

Definition message (e : exn) : string :=
  match e with
  | Error m | TypeError m | SyntaxError m => m
  end.

(** What [axios.get] does with a request: it rejects (network error,
    timeout, status outside 2xx) or resolves with a response whose
    [data] is the decoded body. *)
Inductive http_outcome : Type :=
| Rejected (msg : string)
| Resolved (data : value).

Inductive event : Type :=
| HttpGet (url symbol apikey : string) (timeout : Z)
| ConsoleError (text detail : string)
| ConsoleLog (text : string)
| FileRead
| FileWrite (text : string).

Record World : Type := mkWorld {
  provider : nat -> string -> http_outcome;
    (** outcome of the n-th request to the quote endpoint, by symbol *)
  requests : nat;                (** requests sent so far *)
  clock : nat -> Z;              (** epoch milliseconds at the n-th reading *)
  ticks : nat;                   (** clock readings so far *)
  file : option string;          (** text of the history file; [None]: it cannot be read *)
  write_error : option string;   (** [Some m]: writing the file fails with [m] *)
  trace : list event             (** effects performed, newest first *)
}.

Definition emit_in (e : event) (w : World) : World :=
  mkWorld (provider w) (requests w) (clock w) (ticks w) (file w) (write_error w)
    (e :: trace w).

(** *** Computations: state and exceptions *)

Inductive result (A : Type) : Type :=
| Ok (a : A)
| Throw (e : exn).
Arguments Ok {A} a.
Arguments Throw {A} e.

Definition M (A : Type) : Type := World -> result A * World.

Definition ret {A} (a : A) : M A := fun w => (Ok a, w).

Definition throw {A} (e : exn) : M A := fun w => (Throw e, w).

Definition bind {A B} (m : M A) (k : A -> M B) : M B :=
  fun w =>
    match m w with
    | (Ok a, w') => k a w'
    | (Throw e, w') => (Throw e, w')
    end.

(** [try { m } catch (error) { h error }]. *)
Definition try_catch {A} (m : M A) (h : exn -> M A) : M A :=
  fun w =>
    match m w with
    | (Ok a, w') => (Ok a, w')
    | (Throw e, w') => h e w'
    end.

Notation "x <- m ;; k" := (bind m (fun x => k))
  (at level 61, m at next level, right associativity).
Notation "m ;;; k" := (bind m (fun _ => k))
  (at level 61, right associativity).

Definition emit (e : event) : M unit := fun w => (Ok tt, emit_in e w).

Definition console_error (text detail : string) : M unit := emit (ConsoleError text detail).
Definition console_log (text : string) : M unit := emit (ConsoleLog text).

(** *** Configuration (lines 15-20) *)

Definition TWELVE_DATA_API_KEY : string := "f2f5684216754d3792cc416cf4f6ccdb".
Definition TWELVE_DATA_BASE_URL : string := "https://api.twelvedata.com".

(** [axios.get(url, { params: { symbol, apikey }, timeout })], resolving
    to [response.data]. *)
Definition axios_get (url symbol apikey : string) (timeout : Z) : M value :=
  fun w =>
    let w' :=
      mkWorld (provider w) (S (requests w)) (clock w) (ticks w) (file w) (write_error w)
        (HttpGet url symbol apikey timeout :: trace w) in
    match provider w (requests w) symbol with
    | Rejected m => (Throw (Error m), w')
    | Resolved data => (Ok data, w')
    end.

(** [fs.readFile(HISTORY_FILE, 'utf8')]. *)
Definition readFile : M string :=
  fun w =>
    match file w with
    | Some text => (Ok text, emit_in FileRead w)
    | None => (Throw (Error "ENOENT: no such file or directory"), emit_in FileRead w)
    end.

(** [fs.writeFile(HISTORY_FILE, text)]. *)
Definition writeFile (text : string) : M unit :=
  fun w =>
    match write_error w with
    | Some m => (Throw (Error m), emit_in (FileWrite text) w)
    | None =>
        (Ok tt,
         mkWorld (provider w) (requests w) (clock w) (ticks w) (Some text) None
           (FileWrite text :: trace w))
    end.

(** [Date.now()]. *)
Definition Date_now : M Z :=
  fun w =>
    (Ok (clock w (ticks w)),
     mkWorld (provider w) (requests w) (clock w) (S (ticks w)) (file w) (write_error w)
       (trace w)).

Definition pad (width : nat) (z : Z) : string :=
  let s := Z_to_string z in zeros (width - String.length s) ++ s.

(** [Date.prototype.toISOString] of a time value in epoch milliseconds. *)
Definition toISOString (ms : Z) : string :=
  let day := ms / 86400000 in
  let t := ms mod 86400000 in
  let z := day + 719468 in
  let era := z / 146097 in
  let doe := z - era * 146097 in
  let yoe := (doe - doe / 1460 + doe / 36524 - doe / 146096) / 365 in
  let doy := doe - (365 * yoe + yoe / 4 - yoe / 100) in
  let mp := (5 * doy + 2) / 153 in
  let d := doy - (153 * mp + 2) / 5 + 1 in
  let m := if mp <? 10 then mp + 3 else mp - 9 in
  let y := yoe + era * 400 + (if m <=? 2 then 1 else 0) in
  let year :=
    if (0 <=? y) && (y <=? 9999) then pad 4 y
    else (if y <? 0 then "-" else "+") ++ pad 6 (Z.abs y) in
  year ++ "-" ++ pad 2 m ++ "-" ++ pad 2 d ++ "T"
    ++ pad 2 (t / 3600000) ++ ":" ++ pad 2 ((t / 60000) mod 60) ++ ":"
    ++ pad 2 ((t / 1000) mod 60) ++ "." ++ pad 3 (t mod 1000) ++ "Z".

(** [new Date().toISOString()]. *)
Definition Date_toISOString : M string := ms <- Date_now ;; ret (toISOString ms).

(** How an error message names [null] and [undefined]. *)
Definition nullish_name (v : value) : string :=
  match v with
  | VNull => "null"
  | _ => "undefined"
  end.

(** [const { property, ... } = source], where [source] evaluates to [v]:
    destructuring throws on [null] and [undefined]. *)
Definition destructure (property source : string) (v : value) : M unit :=
  if is_nullish v
  then throw (TypeError ("Cannot destructure property '" ++ property ++ "' of '" ++ source
                         ++ "' as it is " ++ nullish_name v ++ "."))
  else ret tt.

(** The TypeError of a conversion to a primitive value that fails. *)
Definition not_primitive : exn := TypeError "Cannot convert object to primitive value".

(** A conversion that may throw that TypeError. *)
Definition converted {A} (r : option A) : M A :=
  match r with
  | Some a => ret a
  | None => throw not_primitive
  end.

(** [symbol.toUpperCase()]: only strings have the method. *)
Definition call_toUpperCase (symbol : value) : M string :=
  match symbol with
  | VStr s => ret (toUpperCase s)
  | _ => throw (TypeError "symbol.toUpperCase is not a function")
  end.

(** *** Price lookup (lines 22-54) *)

Definition getStockPriceFromTwelveData (symbol : string) : M number :=
  try_catch
    (data <- axios_get (TWELVE_DATA_BASE_URL ++ "/price") symbol TWELVE_DATA_API_KEY 10000 ;;
     if truthy (js_and data (prop data "price"))
     then converted (parseFloat (prop data "price"))
     else throw (Error "Invalid response format"))
    (fun error =>
       console_error ("TwelveData API error for " ++ symbol ++ ":") (message error) ;;;
       throw error).

Definition getStockPrice (symbol : string) : M number :=
  r <- try_catch
         (price <- getStockPriceFromTwelveData symbol ;; ret (Some price))
         (fun error =>
            console_log ("TwelveData failed for " ++ symbol ++ ", trying Alpha Vantage...") ;;;
            ret None) ;;
  match r with
  | Some price => ret price
  | None => throw (Error ("Unable to fetch price for " ++ symbol))
  end.

(** *** History file (lines 56-74) *)

Definition loadHistory : M value :=
  try_catch
    (data <- readFile ;;
     match parse data with
     | Some v => ret v
     | None => throw (SyntaxError "Unexpected token in JSON")
     end)
    (fun error => ret (VArr [])).

Definition saveHistory (history : value) : M unit :=
  try_catch
    (match stringify history with
     | Some text => writeFile text
     | None => throw (TypeError "The data argument must be of type string. Received undefined")
     end)
    (fun error => console_error "Error saving history:" (message error)).

(** *** POST /api/portfolio (lines 79-153) *)

Record response : Type := mkResponse { status : Z; body : value }.

(** [results.push(r)]. *)
Definition push (results : list value) (r : value) : list value := app results [r].

(** The test of line 96, [!symbol || !quantity || quantity <= 0]: the
    comparison is evaluated only for a truthy symbol and a truthy
    quantity, and throws when the quantity cannot be converted. *)
Definition invalid_test (symbol quantity : value) : M bool :=
  if negb (truthy symbol) then ret true
  else if negb (truthy quantity) then ret true
  else converted (le_zero quantity).

(** One iteration of the loop over [stocks] (lines 94-121), on the
    [results] array and the running [totalPortfolioValue]. *)
Definition process_stock (stock : value) (results : list value) (totalPortfolioValue : number)
  : M (list value * number) :=
  destructure "symbol" "stock" stock ;;;
  let symbol := prop stock "symbol" in
  let quantity := prop stock "quantity" in
  invalid <- invalid_test symbol quantity ;;
  if invalid then
    ret (push results (VObj [("symbol", js_or symbol (VStr "Unknown"));
                             ("error", VStr "Invalid symbol or quantity")]),
         totalPortfolioValue)
  else
    try_catch
      (sym <- call_toUpperCase symbol ;;
       currentPrice <- getStockPrice sym ;;
       q <- converted (to_number quantity) ;;
       let totalValue := Num.parseFloat (toFixed2 (mul currentPrice q)) in
       sym' <- call_toUpperCase symbol ;;
       ret (push results (VObj [("symbol", VStr sym');
                                ("quantity", quantity);
                                ("currentPrice", VStr (toFixed2 currentPrice));
                                ("totalValue", VStr (toFixed2 totalValue))]),
            add totalPortfolioValue totalValue))
      (fun error =>
         sym <- call_toUpperCase symbol ;;
         ret (push results (VObj [("symbol", VStr sym);
                                  ("error", VStr ("Unable to fetch price: " ++ message error))]),
              totalPortfolioValue)).

(** The loop [for (const stock of stocks)] (lines 93-122). *)
Fixpoint process_stocks (stocks : list value) (results : list value) (totalPortfolioValue : number)
  : M (list value * number) :=
  match stocks with
  | [] => ret (results, totalPortfolioValue)
  | stock :: rest =>
      st <- process_stock stock results totalPortfolioValue ;;
      process_stocks rest (fst st) (snd st)
  end.

(** Lines 89-128: the response object. *)
Definition calculate (stocks : list value) : M value :=
  st <- process_stocks stocks [] zero ;;
  timestamp <- Date_toISOString ;;
  ret (VObj [("stocks", VArr (fst st));
             ("totalPortfolioValue", VStr (toFixed2 (snd st)));
             ("timestamp", VStr timestamp)]).

(** [{ ...response, id: id }], for the response object of the handler;
    nothing but the id is taken from a value that is not an object. *)
Definition spread_with_id (response : value) (id : Z) : value :=
  match response with
  | VObj fs => VObj (obj_set "id" (VNum (of_Z id)) fs)
  | _ => VObj [("id", VNum (of_Z id))]
  end.

(** [history.unshift(entry)] followed by
    [if (history.length > 50) history.splice(50)]. *)
Definition unshift_capped (history : value) (entry : value) : M value :=
  match history with
  | VArr l =>
      let l' := entry :: l in
      ret (VArr (if (50 <? List.length l')%nat then firstn 50 l' else l'))
  | VUndefined | VNull =>
      throw (TypeError ("Cannot read properties of " ++ nullish_name history
                        ++ " (reading 'unshift')"))
  | _ => throw (TypeError "history.unshift is not a function")
  end.

(** Lines 130-143: the history entry of a response is put in front of
    the stored history and the whole is written back. *)
Definition append_history (response : value) : M unit :=
  history <- loadHistory ;;
  id <- Date_now ;;
  let historyEntry := spread_with_id response id in
  history' <- unshift_capped history historyEntry ;;
  saveHistory history'.

Definition elements (v : value) : list value :=
  match v with
  | VArr l => l
  | _ => []
  end.

Definition post_portfolio (req_body : value) : M response :=
  try_catch
    (destructure "stocks" "req.body" req_body ;;;
     let stocks := prop req_body "stocks" in
     if negb (truthy stocks) || negb (isArray stocks) || (List.length (elements stocks) =? 0)%nat
     then ret (mkResponse 400
                 (VObj [("error", VStr "Invalid input. Please provide an array of stocks.")]))
     else
       response <- calculate (elements stocks) ;;
       append_history response ;;;
       ret (mkResponse 200 response))
    (fun error =>
       console_error "Portfolio calculation error:" (message error) ;;;
       ret (mkResponse 500
              (VObj [("error", VStr "Internal server error. Please try again later.")]))).

(** *** GET /api/history (lines 156-166) *)

Definition get_history : M response :=
  try_catch
    (history <- loadHistory ;; ret (mkResponse 200 history))
    (fun error =>
       console_error "History retrieval error:" (message error) ;;;
       ret (mkResponse 500 (VObj [("error", VStr "Unable to retrieve history")]))).

(** *** GET /api/stock/:symbol (lines 169-193) *)

Definition get_stock (symbol : string) : M response :=
  try_catch
    (if negb (truthy (VStr symbol))
     then ret (mkResponse 400 (VObj [("error", VStr "Stock symbol is required")]))
     else
       price <- getStockPrice (toUpperCase symbol) ;;
       timestamp <- Date_toISOString ;;
       ret (mkResponse 200
              (VObj [("symbol", VStr (toUpperCase symbol));
                     ("price", VStr (toFixed2 price));
                     ("timestamp", VStr timestamp)])))
    (fun error =>
       console_error ("Stock price error for " ++ symbol ++ ":") (message error) ;;;
       ret (mkResponse 404
              (VObj [("error",
                      VStr ("Unable to fetch price for " ++ symbol ++ ": " ++ message error))]))).

(** *** GET /api/health (lines 196-202) *)

Definition get_health : M response :=
  timestamp <- Date_toISOString ;;
  ret (mkResponse 200
         (VObj [("status", VStr "OK");
                ("timestamp", VStr timestamp);
                ("version", VStr "1.0.0")])).

(** *** The error-handling middleware (lines 210-215) and the handler of
    the requests no route matched (lines 218-222) *)

Definition error_middleware (error : exn) : M response :=
  console_error "Unhandled error:" (message error) ;;;
  ret (mkResponse 500 (VObj [("error", VStr "Internal server error")])).

Definition not_found : M response :=
  ret (mkResponse 404 (VObj [("error", VStr "Endpoint not found")])).

(* ----------------------------------------------------------------- *)
(** *** Observations on runs *)

Definition is_request (e : event) : bool :=
  match e with
  | HttpGet _ _ _ _ => true
  | _ => false
  end.

(** The value [loadHistory] hands to its caller in world [w]. *)
Definition stored_history (w : World) : value :=
  match file w with
  | None => VArr []
  | Some text =>
      match parse text with
      | Some v => v
      | None => VArr []
      end
  end.

(** The history file is missing, unreadable or not JSON. *)
Definition history_unusable (w : World) : bool :=
  match file w with
  | None => true
  | Some text =>
      match parse text with
      | Some _ => false
      | None => true
      end
  end.

(** The history file holds the sequence [l]: its text is the JSON text
    of the array [l]; or the file is missing, unreadable or not JSON and
    [l] is empty, which is what [loadHistory] makes of such a file
    (lines 59-64). *)
Definition history_in_file (w : World) (l : list value) : Prop :=
  (exists text : string, file w = Some text /\ parse text = Some (VArr l)) \/
  (history_unusable w = true /\ l = []).

(** The test of line 96; [None] when it throws. *)
Definition invalid_item (stock : value) : option bool :=
  if negb (truthy (prop stock "symbol")) || negb (truthy (prop stock "quantity"))
  then Some true
  else le_zero (prop stock "quantity").

Definition is_string (v : value) : bool :=
  match v with
  | VStr _ => true
  | _ => false
  end.

(** An item on which the loop of lines 93-122 throws outside its own
    try block or inside its catch block: [null] and [undefined] cannot be
    destructured (line 94); the comparison of line 96 throws on a
    quantity that cannot be converted to a primitive value; and an item
    that passes the test of line 96 with a symbol that is not a string
    has no [toUpperCase], neither at line 105 nor at line 118. *)
Definition aborts (stock : value) : bool :=
  is_nullish stock
  || match invalid_item stock with
     | None => true
     | Some true => false
     | Some false => negb (is_string (prop stock "symbol"))
     end.

(** A StockResult that reports an error. *)
Definition is_error_result (r : value) : bool :=
  match prop r "error" with
  | VStr _ => true
  | _ => false
  end.

(** What the single call to the provider yields. *)
Definition fetch_outcome (symbol : string) (w : World) : result number :=
  match provider w (requests w) symbol with
  | Rejected m => Throw (Error m)
  | Resolved data =>
      if truthy (js_and data (prop data "price"))
      then match parseFloat (prop data "price") with
           | Some price => Ok price
           | None => Throw not_primitive
           end
      else Throw (Error "Invalid response format")
  end.

Definition the_request (symbol : string) : event :=
  HttpGet (TWELVE_DATA_BASE_URL ++ "/price") symbol TWELVE_DATA_API_KEY 10000.

Definition after_request (symbol : string) (w : World) : World :=
  mkWorld (provider w) (S (requests w)) (clock w) (ticks w) (file w) (write_error w)
    (the_request symbol :: trace w).

(** [parseFloat(x.toFixed(2))]: the idiom of line 106 for rounding to
    two decimal places. *)
Definition round2 (x : number) : number := Num.parseFloat (toFixed2 x).

(** What one iteration of the loop does with an item in world [w]: the
    StockResult it pushes, the [totalValue] it adds to the running total,
    if any, and the world it leaves. *)
Inductive item_outcome (stock : value) (w : World) : value -> option number -> World -> Prop :=
| outcome_invalid :
    invalid_item stock = Some true ->
    item_outcome stock w
      (VObj [("symbol", js_or (prop stock "symbol") (VStr "Unknown"));
             ("error", VStr "Invalid symbol or quantity")])
      None w
| outcome_priced (s : string) (q currentPrice : number) (w' : World) :
    invalid_item stock = Some false ->
    prop stock "symbol" = VStr s ->
    to_number (prop stock "quantity") = Some q ->
    getStockPrice (toUpperCase s) w = (Ok currentPrice, w') ->
    item_outcome stock w
      (VObj [("symbol", VStr (toUpperCase s));
             ("quantity", prop stock "quantity");
             ("currentPrice", VStr (toFixed2 currentPrice));
             ("totalValue", VStr (toFixed2 (round2 (mul currentPrice q))))])
      (Some (round2 (mul currentPrice q)))
      w'
| outcome_failed (s : string) (error : exn) (w' : World) :
    invalid_item stock = Some false ->
    prop stock "symbol" = VStr s ->
    getStockPrice (toUpperCase s) w = (Throw error, w') ->
    item_outcome stock w
      (VObj [("symbol", VStr (toUpperCase s));
             ("error", VStr ("Unable to fetch price: " ++ message error))])
      None w'.

(** The outcomes of the items of a list, in order, each item met in the
    world its predecessor left. *)
Inductive loop_outcomes : list value -> World -> list (value * option number) -> World -> Prop :=
| outcomes_nil (w : World) : loop_outcomes [] w [] w
| outcomes_cons (stock : value) (stocks : list value) (w w1 w2 : World)
    (r : value) (o : option number) (outs : list (value * option number)) :
    item_outcome stock w r o w1 ->
    loop_outcomes stocks w1 outs w2 ->
    loop_outcomes (stock :: stocks) w ((r, o) :: outs) w2.

(** [total += totalValue] for a priced item, nothing otherwise. *)
Definition add_value (total : number) (v : option number) : number :=
  match v with
  | Some totalValue => add total totalValue
  | None => total
  end.

(** The sum, from zero and in order, of the values of the priced items. *)
Definition sum_values (vs : list (option number)) : number := fold_left add_value vs zero.

Fixpoint all_digits (s : string) : bool :=
  match s with
  | String c r => is_digit c && all_digits r
  | EmptyString => true
  end.

(** A point and two digits. *)
Definition point_2 (s : string) : bool :=
  match s with
  | String p (String a (String b EmptyString)) => Ascii.eqb p "." && is_digit a && is_digit b
  | _ => false
  end.

(** One or more digits, a point, two digits. *)
Fixpoint digits_point_2 (s : string) : bool :=
  match s with
  | String c r => is_digit c && (point_2 r || digits_point_2 r)
  | EmptyString => false
  end.

(** A decimal numeral with exactly two decimal places. *)
Definition two_decimals (s : string) : bool :=
  match s with
  | String "-" r => digits_point_2 r
  | _ => digits_point_2 s
  end.

(** [|x| < 10^21], for a finite [x]. *)
Definition below_1e21 (x : number) : bool :=
  match x with
  | S754_zero _ => true
  | S754_finite _ m e => negb (ge_1e21 m e)
  | _ => false
  end.

(** What a computation leaves alone: everything but the trace and the
    count of requests. *)
Definition same_store (w w' : World) : Prop :=
  provider w' = provider w /\ clock w' = clock w /\ ticks w' = ticks w /\
  file w' = file w /\ write_error w' = write_error w.

(** The same world, with another fate for writes to the history file. *)
Definition set_write_error (e : option string) (w : World) : World :=
  mkWorld (provider w) (requests w) (clock w) (ticks w) (file w) e (trace w).

(** [history.splice(50)] when [history.length > 50]. *)
Definition capped (history : list value) : list value :=
  if (50 <? List.length history)%nat then firstn 50 history else history.

(** The catch block of the handler of POST /api/portfolio. *)
Definition portfolio_failure (error : exn) : M response :=
  console_error "Portfolio calculation error:" (message error) ;;;
  ret (mkResponse 500
         (VObj [("error", VStr "Internal server error. Please try again later.")])).

(** The world in which [saveHistory] runs during an append. *)
Definition before_save (w : World) : World :=
  mkWorld (provider w) (requests w) (clock w) (S (ticks w)) (file w) (write_error w)
    (FileRead :: trace w).

(** A computation that neither reads nor changes the fate of writes. *)
Definition oblivious {A} (m : M A) : Prop :=
  forall (e : option string) (w : World),
    m (set_write_error e w) = (fst (m w), set_write_error e (snd (m w))).

(** A computation whose result does not depend on the fate of writes. *)
Definition blind {A} (m : M A) : Prop :=
  forall (e : option string) (w : World), fst (m (set_write_error e w)) = fst (m w).

(** The value a computation returned, [undefined] if it threw. *)
Definition fst_ok (r : result value * World) : value :=
  match fst r with
  | Ok v => v
  | Throw _ => VUndefined
  end.

End Server.

(* ================================================================= *)
(** ** Sample worlds and requests *)

Module Scenarios.

Import Num Js Json Server.

(** Midnight UTC on 27 October 2024, advancing one millisecond per reading. *)
Definition sample_clock (n : nat) : Z := 1729987200000 + Z.of_nat n.

(** A provider that gives the same answer to every request. *)
Definition world (answer : http_outcome) (history : option string) (write_error : option string)
  : World :=
  mkWorld (fun _ _ => answer) 0 sample_clock 0 history write_error [].

(** The body the quote endpoint sends: [{ "price": p }]. *)
Definition quote_body (p : value) : http_outcome := Resolved (VObj [("price", p)]).

Definition item (symbol : string) (quantity : number) : value :=
  VObj [("symbol", VStr symbol); ("quantity", VNum quantity)].

Definition request (items : list value) : value := VObj [("stocks", VArr items)].

(** Two items: one to be priced, one with a zero quantity. *)
Definition sample_items : list value := [item "aapl" (of_Z 2); item "BAD" zero].

(** The provider quotes 150.00 for every symbol; there is no history yet. *)
Definition quoting_150 : World := world (quote_body (VStr "150.00")) None None.

(** The provider is unreachable and the history file cannot be written. *)
Definition offline_readonly : World :=
  world (Rejected "offline") None (Some "EACCES: permission denied").

(** The number written [1e21] in a request body. *)
Definition sextillion : number := of_decimal false 1 21.

(** A request whose item has the quantity written [1e999] in its body,
    which [JSON.parse] reads as [Infinity]. *)
Definition infinite_request : value := request [item "AAPL" Infinity].

(** The response to [infinite_request] when the price is 150.00. *)
Definition infinite_response : value :=
  VObj [("stocks",
         VArr [VObj [("symbol", VStr "AAPL");
                     ("quantity", VNum Infinity);
                     ("currentPrice", VStr "150.00");
                     ("totalValue", VStr "Infinity")]]);
        ("totalPortfolioValue", VStr "Infinity");
        ("timestamp", VStr "2024-10-27T00:00:00.000Z")].

(** The history entry read back after that request. *)
Definition infinite_entry_read : value :=
  VObj [("stocks",
         VArr [VObj [("symbol", VStr "AAPL");
                     ("quantity", VNull);
                     ("currentPrice", VStr "150.00");
                     ("totalValue", VStr "Infinity")]]);
        ("totalPortfolioValue", VStr "Infinity");
        ("timestamp", VStr "2024-10-27T00:00:00.000Z");
        ("id", VNum (of_Z 1729987200001))].



(** The text [JSON.stringify(v, null, 2)] writes. *)
Definition text_of (v : value) : string :=
  match stringify v with
  | Some text => text
  | None => ""
  end.

(** A full history file: fifty entries with the ids 50 down to 1. *)
Definition old_entry (n : nat) : value := VObj [("id", VNum (of_Z (Z.of_nat n)))].

Definition full_history : list value := map old_entry (rev (seq 1 50)).

Definition full_history_world : World :=
  world (quote_body (VStr "150.00")) (Some (text_of (VArr full_history))) None.

(** A history file edited by hand, with entries that are not history
    entries: [Infinity], [-0] and an array. *)
Definition odd_history : list value := [VNum Infinity; VNum (S754_zero true); VArr [VNum (of_Z 1)]].

Definition odd_history_world : World :=
  world (quote_body (VStr "150.00")) (Some "[1e999,-0,[1]]") None.

End Scenarios.

(* ================================================================= *)
(** ** Notions used to describe the handlers *)

Module Behaviour.

Import Num Js Json Server Scenarios.

(** The reply of lines 84-86. *)
Definition invalid_input : response :=
  mkResponse 400 (VObj [("error", VStr "Invalid input. Please provide an array of stocks.")]).

(** The reply of lines 149-151. *)
Definition internal_error : response :=
  mkResponse 500 (VObj [("error", VStr "Internal server error. Please try again later.")]).

(** An array with at least one element: what the test of line 81 lets
    through. *)
Definition has_items (v : value) : bool :=
  match v with
  | VArr (_ :: _) => true
  | _ => false
  end.

(** The world after one reading of the clock. *)
Definition tick (w : World) : World :=
  mkWorld (provider w) (requests w) (clock w) (S (ticks w)) (file w) (write_error w)
    (trace w).

(** The response object of lines 124-128. *)
Definition response_of (results : list value) (total : number) (ms : Z) : value :=
  VObj [("stocks", VArr results);
        ("totalPortfolioValue", VStr (toFixed2 total));
        ("timestamp", VStr (toISOString ms))].

(** The symbol a request for the price of an item names. *)
Definition symbol_of (stock : value) : string :=
  match prop stock "symbol" with
  | VStr s => toUpperCase s
  | _ => ""
  end.

(** Is the last effect performed a [console.error] with this text? *)
Definition last_logged (text : string) (w : World) : bool :=
  match trace w with
  | ConsoleError t _ :: _ => String.eqb t text
  | _ => false
  end.

Definition is_file_event (e : event) : bool :=
  match e with
  | FileRead | FileWrite _ => true
  | _ => false
  end.

(** The requests sent to the provider, newest first. *)
Definition requests_sent (w : World) : list event := filter is_request (trace w).

(** The accesses to the history file, newest first. *)
Definition file_accesses (w : World) : list event := filter is_file_event (trace w).

(** Does the item pass the test of line 96? *)
Definition passes (stock : value) : bool :=
  match invalid_item stock with
  | Some false => true
  | _ => false
  end.

(** The items that pass the test of line 96. *)
Definition accepted (stocks : list value) : list value := filter passes stocks.

(** The outcomes, among those of the items of a list, of the items that
    pass the test of line 96. *)
Definition accepted_outcomes (stocks : list value) (outs : list (value * option number))
  : list (value * option number) :=
  map snd (filter (fun p => passes (fst p)) (combine stocks outs)).

(** An item as a client writes it, with any value for the quantity. *)
Definition item_of (symbol : string) (quantity : value) : value :=
  VObj [("symbol", VStr symbol); ("quantity", quantity)].

(** What the result of an item echoes of the item is a value that JSON
    text holds exactly: the symbol of an item that fails the test of
    line 96 (line 98), the quantity of one that passes it (line 110). *)
Definition echo_exact (stock : value) : bool :=
  if passes stock
  then exact (prop stock "quantity")
  else exact (js_or (prop stock "symbol") (VStr "Unknown")).

(** The StockResult of a priced item (lines 108-113). *)
Definition priced_result (symbol : string) (quantity : value) (q currentPrice : number)
  : value :=
  VObj [("symbol", VStr (toUpperCase symbol));
        ("quantity", quantity);
        ("currentPrice", VStr (toFixed2 currentPrice));
        ("totalValue", VStr (toFixed2 (round2 (mul currentPrice q))))].

(** The StockResult of an item whose price lookup failed (lines 117-120). *)
Definition failed_result (symbol : string) : value :=
  VObj [("symbol", VStr (toUpperCase symbol));
        ("error",
         VStr ("Unable to fetch price: Unable to fetch price for " ++ toUpperCase symbol))].

(** The world a failed price lookup leaves (lines 28-53): the request,
    then the two log lines. *)
Definition after_failed_request (symbol : string) (cause : exn) (w : World) : World :=
  emit_in (ConsoleLog ("TwelveData failed for " ++ symbol ++ ", trying Alpha Vantage..."))
    (emit_in (ConsoleError ("TwelveData API error for " ++ symbol ++ ":") (message cause))
       (after_request symbol w)).

End Behaviour.

(* ================================================================= *)
(** ** Properties *)

Module JsonFacts.

Import Num Js Json.

(** *** Strings *)

Lemma append_assoc (a b c : string) : (a ++ b) ++ c = a ++ (b ++ c).
Proof. induction a as [|x a IH]; cbn; [reflexivity | now rewrite IH]. Qed.

Lemma append_nil_r (a : string) : a ++ "" = a.
Proof. induction a as [|x a IH]; cbn; [reflexivity | now rewrite IH]. Qed.

Lemma length_append (a b : string) :
  String.length (a ++ b) = (String.length a + String.length b)%nat.
Proof. induction a as [|x a IH]; cbn; [reflexivity | now rewrite IH]. Qed.

(** *** String literals *)

Lemma parse_chars_escape_char (c : ascii) (s t : string) :
  parse_chars (escape (String c s) ++ t)
  = cons_str (String c "") (parse_chars (escape s ++ t)).
Proof. destruct c as [[] [] [] [] [] [] [] []]; reflexivity. Qed.

Lemma parse_chars_escape (s rest : string) :
  parse_chars (escape s ++ String dquote rest) = Some (s, rest).
Proof.
  induction s as [|c s IH].
  - reflexivity.
  - rewrite parse_chars_escape_char, IH. reflexivity.
Qed.

Lemma parse_chars_quote (s rest : string) :
  exists t : string, quote s ++ rest = String dquote t /\ parse_chars t = Some (s, rest).
Proof.
  exists (escape s ++ String dquote rest). split.
  - unfold quote. cbn. now rewrite append_assoc.
  - apply parse_chars_escape.
Qed.

(** *** Number tokens *)

Lemma scan_digits_app (s rest : string) :
  number_stop rest = true ->
  forall acc cnt : Z,
    scan_digits (s ++ rest) acc cnt
    = let '(v, c, r) := scan_digits s acc cnt in (v, c, r ++ rest).
Proof.
  intros Hstop. induction s as [|c s IH]; intros acc cnt; cbn.
  - destruct rest as [|c r]; [reflexivity|]. cbn in Hstop |- *.
    destruct (is_digit c); [discriminate | reflexivity].
  - destruct (is_digit c); [apply IH | reflexivity].
Qed.

Lemma int_part_app (r rest : string) (ip : Z) (r2 : string) :
  number_stop rest = true ->
  int_part r = Some (ip, r2) ->
  int_part (r ++ rest) = Some (ip, r2 ++ rest).
Proof.
  intros Hstop. destruct r as [|c r1]; [discriminate|].
  change (String c r1 ++ rest) with (String c (r1 ++ rest)).
  unfold int_part.
  destruct (is_digit c) eqn:Hc; [|discriminate].
  destruct (Ascii.eqb c "0").
  - now intros [= <- <-].
  - change (String c (r1 ++ rest)) with (String c r1 ++ rest).
    rewrite (scan_digits_app _ _ Hstop).
    destruct (scan_digits (String c r1) 0 0) as [[v n] r']. now intros [= <- <-].
Qed.

Lemma frac_part_app (ip : Z) (r rest : string) (m nf : Z) (r4 : string) :
  number_stop rest = true ->
  frac_part ip r = Some (m, nf, r4) ->
  frac_part ip (r ++ rest) = Some (m, nf, r4 ++ rest).
Proof.
  intros Hstop. destruct r as [|c r3].
  - cbn. intros [= <- <- <-]. destruct rest as [|c r]; [reflexivity|].
    cbn in Hstop |- *. destruct (Ascii.eqb c "."); [|reflexivity].
    rewrite orb_true_r in Hstop. discriminate.
  - change (String c r3 ++ rest) with (String c (r3 ++ rest)). unfold frac_part.
    destruct (Ascii.eqb c ".").
    + rewrite (scan_digits_app _ _ Hstop).
      destruct (scan_digits r3 ip 0) as [[m' nf'] r'].
      destruct (nf' =? 0); [discriminate|]. now intros [= <- <- <-].
    + now intros [= <- <- <-].
Qed.

Lemma split_sign_app (c : ascii) (r rest : string) :
  split_sign (String c r ++ rest)
  = (fst (split_sign (String c r)), snd (split_sign (String c r)) ++ rest).
Proof. destruct c as [[] [] [] [] [] [] [] []]; reflexivity. Qed.

Lemma exp_part_app (r rest : string) (ex : Z) (r7 : string) :
  number_stop rest = true ->
  exp_part r = Some (ex, r7) ->
  exp_part (r ++ rest) = Some (ex, r7 ++ rest).
Proof.
  intros Hstop. destruct r as [|e r5].
  - cbn. intros [= <- <-]. destruct rest as [|c r]; [reflexivity|].
    cbn in Hstop |- *.
    destruct (Ascii.eqb c "e"); [now rewrite !orb_true_r in Hstop|].
    destruct (Ascii.eqb c "E"); [now rewrite !orb_true_r in Hstop|].
    reflexivity.
  - change (String e r5 ++ rest) with (String e (r5 ++ rest)). unfold exp_part.
    destruct (Ascii.eqb e "e" || Ascii.eqb e "E")%bool; [|now intros [= <- <-]].
    destruct r5 as [|c r6].
    + cbn. discriminate.
    + rewrite split_sign_app.
      destruct (split_sign (String c r6)) as [eneg r']. cbn [fst snd].
      rewrite (scan_digits_app _ _ Hstop).
      destruct (scan_digits r' 0 0) as [[v cnt] r''].
      destruct (cnt =? 0); [discriminate|]. now intros [= <- <-].
Qed.

Lemma number_sign_app (c : ascii) (r rest : string) :
  number_sign (String c r ++ rest)
  = (fst (number_sign (String c r)), snd (number_sign (String c r)) ++ rest).
Proof. destruct c as [[] [] [] [] [] [] [] []]; reflexivity. Qed.

(** A number token is read the same way when more text follows it,
    provided that text cannot continue the number. *)
Lemma parse_number_app (s rest : string) (x : number) (r : string) :
  number_stop rest = true ->
  parse_number s = Some (x, r) ->
  parse_number (s ++ rest) = Some (x, r ++ rest).
Proof.
  intros Hstop. destruct s as [|c s]; [discriminate|].
  unfold parse_number. rewrite number_sign_app.
  destruct (number_sign (String c s)) as [neg r0]. cbn [fst snd].
  destruct (int_part r0) as [[ip r2]|] eqn:Hint; [|discriminate].
  rewrite (int_part_app _ _ _ _ Hstop Hint).
  destruct (frac_part ip r2) as [[[m nf] r4]|] eqn:Hfrac; [|discriminate].
  rewrite (frac_part_app _ _ _ _ _ _ Hstop Hfrac).
  destruct (exp_part r4) as [[ex r7]|] eqn:Hexp; [|discriminate].
  rewrite (exp_part_app _ _ _ _ Hstop Hexp).
  now intros [= <- <-].
Qed.

Lemma spec_float_eqb_eq (x y : number) : spec_float_eqb x y = true -> x = y.
Proof.
  destruct x as [a|a| |a m e], y as [b|b| |b m' e']; cbn; try discriminate.
  - intros H. now apply eqb_prop in H as ->.
  - intros H. now apply eqb_prop in H as ->.
  - reflexivity.
  - intros H. apply andb_prop in H as [H He]. apply andb_prop in H as [Hs Hm].
    apply eqb_prop in Hs as ->. apply Pos.eqb_eq in Hm as ->. apply Z.eqb_eq in He as ->.
    reflexivity.
Qed.

(** *** White space *)

Lemma skip_ws_app (pre s : string) : all_ws pre = true -> skip_ws (pre ++ s) = skip_ws s.
Proof.
  induction pre as [|c pre IH]; cbn; [reflexivity|].
  intros H. apply andb_prop in H as [Hc Hp]. rewrite Hc. auto.
Qed.

Lemma blank_all_ws (s : string) : blank s = true -> all_ws s = true.
Proof.
  induction s as [|c s IH]; cbn; [reflexivity|].
  intros H. apply andb_prop in H as [Hc Hs]. apply Ascii.eqb_eq in Hc as ->. cbn. auto.
Qed.

Lemma blank_deeper (indent : string) : blank indent = true -> blank (indent ++ "  ") = true.
Proof.
  induction indent as [|c s IH]; cbn; [reflexivity|].
  intros H. apply andb_prop in H as [Hc Hs]. rewrite Hc. auto.
Qed.

Lemma skip_ws_nl_indent (indent s : string) :
  blank indent = true -> skip_ws (nl ++ indent ++ s) = skip_ws s.
Proof. intros H. cbn. apply skip_ws_app, blank_all_ws, H. Qed.

Lemma all_ws_nl_indent (indent : string) : blank indent = true -> all_ws (nl ++ indent) = true.
Proof. intros H. cbn. apply blank_all_ws, H. Qed.

Lemma skip_ws_opens (s : string) : opens_value s = true -> skip_ws s = s.
Proof.
  destruct s as [|c s]; [discriminate|]. cbn.
  destruct (is_ws c); [discriminate | reflexivity].
Qed.

Lemma starts_with_opens (s : string) :
  opens_value s = true -> starts_with "]" s = None /\ starts_with "}" s = None.
Proof.
  destruct s as [|c s]; [discriminate|]. unfold opens_value, starts_with.
  rewrite (Ascii.eqb_sym "]" c), (Ascii.eqb_sym "}" c).
  destruct (is_ws c), (Ascii.eqb c "]"), (Ascii.eqb c "}"); try discriminate. auto.
Qed.

Lemma parse_value_skip (fuel : nat) (pre s : string) :
  all_ws pre = true -> parse_value fuel (pre ++ s) = parse_value fuel s.
Proof.
  intros H. destruct fuel as [|fuel]; [reflexivity|].
  cbn [parse_value]. unfold value_step. now rewrite skip_ws_app.
Qed.

(** *** The first character decides *)

Section Dispatch.

Variable elements : list value -> string -> option (list value * string).
Variable members : list (string * value) -> string -> option (list (string * value) * string).

Lemma value_step_null (rest : string) :
  value_step elements members ("null" ++ rest) = Some (VNull, rest).
Proof. reflexivity. Qed.

Lemma value_step_true (rest : string) :
  value_step elements members ("true" ++ rest) = Some (VBool true, rest).
Proof. reflexivity. Qed.

Lemma value_step_false (rest : string) :
  value_step elements members ("false" ++ rest) = Some (VBool false, rest).
Proof. reflexivity. Qed.

Lemma value_step_string (t : string) :
  value_step elements members (String dquote t)
  = match parse_chars t with
    | Some (str, rest) => Some (VStr str, rest)
    | None => None
    end.
Proof. reflexivity. Qed.

Lemma value_step_array (r : string) :
  value_step elements members (String "[" r)
  = match starts_with "]" (skip_ws r) with
    | Some rest => Some (VArr [], rest)
    | None =>
        match elements [] (skip_ws r) with
        | Some (l, rest) => Some (VArr l, rest)
        | None => None
        end
    end.
Proof. reflexivity. Qed.

Lemma value_step_object (r : string) :
  value_step elements members (String "{" r)
  = match starts_with "}" (skip_ws r) with
    | Some rest => Some (VObj [], rest)
    | None =>
        match members [] (skip_ws r) with
        | Some (fs, rest) => Some (VObj fs, rest)
        | None => None
        end
    end.
Proof. reflexivity. Qed.

Lemma value_step_minus (t : string) :
  value_step elements members (String "-" t)
  = match parse_number (String "-" t) with
    | Some (x, rest) => Some (VNum x, rest)
    | None => None
    end.
Proof. reflexivity. Qed.

Lemma digit_is_not (c d : ascii) : is_digit c = true -> is_digit d = false -> Ascii.eqb c d = false.
Proof.
  intros Hc Hd. destruct (Ascii.eqb_spec c d) as [->|]; [congruence | reflexivity].
Qed.

Lemma value_step_digit (c : ascii) (t : string) :
  is_digit c = true ->
  value_step elements members (String c t)
  = match parse_number (String c t) with
    | Some (x, rest) => Some (VNum x, rest)
    | None => None
    end.
Proof.
  intros Hc. unfold value_step. cbn [skip_ws].
  assert (Hws : is_ws c = false).
  { destruct (is_ws c) eqn:E; [|reflexivity].
    unfold is_ws in E.
    repeat (apply orb_prop in E as [E|E]); apply Nat.eqb_eq in E;
      unfold is_digit in Hc; rewrite E in Hc; discriminate. }
  rewrite Hws.
  rewrite (digit_is_not c "n" Hc eq_refl), (digit_is_not c "t" Hc eq_refl),
    (digit_is_not c "f" Hc eq_refl), (digit_is_not c dquote Hc eq_refl),
    (digit_is_not c "[" Hc eq_refl), (digit_is_not c "{" Hc eq_refl).
  reflexivity.
Qed.

End Dispatch.

Lemma number_sign_other (c : ascii) (t : string) :
  c <> "-"%char -> number_sign (String c t) = (false, String c t).
Proof.
  intros Hc. destruct c as [[] [] [] [] [] [] [] []]; try reflexivity.
  exfalso. apply Hc. reflexivity.
Qed.

Lemma parse_number_head (s : string) (p : number * string) :
  parse_number s = Some p ->
  exists (c : ascii) (t : string), s = String c t /\ (c = "-"%char \/ is_digit c = true).
Proof.
  destruct s as [|c t]; [discriminate|]. intros H. exists c, t. split; [reflexivity|].
  destruct (Ascii.eqb_spec c "-") as [->|Hc]; [now left | right].
  unfold parse_number in H. rewrite (number_sign_other c t Hc) in H.
  unfold int_part in H. destruct (is_digit c); [reflexivity | discriminate].
Qed.

(** *** Induction on values *)

Lemma value_ind_nested (P : value -> Prop) :
  P VUndefined -> P VNull -> (forall b, P (VBool b)) -> (forall x, P (VNum x)) ->
  (forall s, P (VStr s)) ->
  (forall l, Forall P l -> P (VArr l)) ->
  (forall fs, Forall (fun kv => P (snd kv)) fs -> P (VObj fs)) ->
  forall v, P v.
Proof.
  intros Hu Hn Hb Hx Hs Ha Ho. fix IH 1.
  intros [| |b|x|s|l|fs];
    [exact Hu | exact Hn | apply Hb | apply Hx | apply Hs | | ].
  - apply Ha. revert l. fix IHl 1. intros [|v l]; constructor; [apply IH | apply IHl].
  - apply Ho. revert fs. fix IHfs 1. intros [|kv fs]; constructor; [apply IH | apply IHfs].
Qed.

(** *** The shape of the text *)

Lemma serialize_arr (indent : string) (l : list value) :
  serialize indent (VArr l)
  = Some (bracket "[" "]" indent (map (element_text (indent ++ "  ")) l)).
Proof. reflexivity. Qed.

Lemma serialize_defined (indent : string) (v : value) :
  v <> VUndefined -> exists text : string, serialize indent v = Some text.
Proof. destruct v; try (eexists; reflexivity). congruence. Qed.

Lemma exact_arr (l : list value) : exact (VArr l) = forallb exact l.
Proof. reflexivity. Qed.

Lemma exact_obj (fs : list (string * value)) :
  exact (VObj fs)
  = property_order [] (map fst fs) && forallb (fun kv => exact (snd kv)) fs.
Proof. reflexivity. Qed.

Lemma defined_not_undefined (v : value) : defined v = true -> v <> VUndefined.
Proof. intros H ->. discriminate. Qed.

Lemma legible_defined (v : value) : legible v = true -> defined v = true.
Proof.
  induction v as [| |b|x|s|l IH|fs IH] using value_ind_nested; intros H;
    try reflexivity; try discriminate.
  - cbn [legible defined] in *. rewrite forallb_forall in H |- *.
    rewrite Forall_forall in IH. intros v Hv. apply IH; auto.
  - cbn [legible defined] in *. rewrite forallb_forall in H |- *.
    rewrite Forall_forall in IH. intros kv Hkv. apply IH; auto.
Qed.

Lemma serialize_obj (indent : string) (fs : list (string * value)) :
  forallb (fun kv => defined (snd kv)) fs = true ->
  serialize indent (VObj fs)
  = Some (bracket "{" "}" indent (map (member_text (indent ++ "  ")) fs)).
Proof.
  intros Hex. cbn [serialize]. do 2 f_equal.
  induction fs as [|[k v] fs IH]; [reflexivity|].
  cbn [forallb snd] in Hex. apply andb_prop in Hex as [Hv Hfs].
  destruct (serialize_defined (indent ++ "  ") v (defined_not_undefined v Hv)) as (text & Htext).
  cbn [map flat_map]. unfold member_text at 1, element_text. cbn [fst snd].
  rewrite Htext, <- (IH Hfs). reflexivity.
Qed.

Lemma cost_arr (l : list value) : cost (VArr l) = S (need l).
Proof. reflexivity. Qed.

Lemma cost_obj (fs : list (string * value)) : cost (VObj fs) = S (need (map snd fs)).
Proof. cbn [cost]. unfold need. now rewrite map_map. Qed.

Lemma bracket_cons (opening closing_ indent t : string) (ts : list string) (rest : string) :
  bracket opening closing_ indent (t :: ts) ++ rest
  = opening ++ nl ++ (indent ++ "  ")
      ++ join ("," ++ nl ++ indent ++ "  ") (t :: ts) ++ closing indent closing_ rest.
Proof. unfold bracket, closing. now rewrite !append_assoc. Qed.

Lemma join_cons2 (sep t t2 : string) (ts : list string) (rest : string) :
  join sep (t :: t2 :: ts) ++ rest = t ++ sep ++ join sep (t2 :: ts) ++ rest.
Proof. cbn [join]. now rewrite !append_assoc. Qed.

Lemma number_stop_closing (indent bracket rest : string) :
  number_stop (closing indent bracket rest) = true.
Proof. reflexivity. Qed.

Lemma skip_ws_closing (indent bracket rest : string) :
  blank indent = true -> skip_ws (closing indent bracket rest) = skip_ws (bracket ++ rest).
Proof. intros H. unfold closing. now apply skip_ws_nl_indent. Qed.

(** The text of a legible value opens a value. *)
Lemma serialize_opens (indent : string) (v : value) (text rest : string) :
  legible v = true -> serialize indent v = Some text -> opens_value (text ++ rest) = true.
Proof.
  intros Hex Htext. destruct v as [| |b|x|s|l|fs]; try discriminate.
  - injection Htext as <-. reflexivity.
  - injection Htext as <-. destruct b; reflexivity.
  - cbn in Hex, Htext. destruct (is_finite x); injection Htext as <-; [|reflexivity].
    cbn [negb orb] in Hex. unfold readable_numeral in Hex.
    destruct (parse_number (to_string x)) as [p|] eqn:Hp; [|discriminate].
    destruct (parse_number_head _ _ Hp) as (c & t & -> & [-> | Hc]); [reflexivity|].
    cbn [append opens_value].
    destruct (Ascii.eqb_spec c "]") as [->|_]; [discriminate|].
    destruct (Ascii.eqb_spec c "}") as [->|_]; [discriminate|].
    destruct (is_ws c) eqn:E; [|reflexivity].
    unfold is_ws in E.
    repeat (apply orb_prop in E as [E|E]); apply Nat.eqb_eq in E;
      unfold is_digit in Hc; rewrite E in Hc; discriminate.
  - injection Htext as <-. reflexivity.
  - rewrite serialize_arr in Htext. injection Htext as <-.
    unfold bracket. destruct (map _ l); reflexivity.
  - cbn [serialize] in Htext. injection Htext as <-.
    unfold bracket. match goal with |- context [match ?x with _ => _ end] => destruct x end;
      reflexivity.
Qed.

(** *** Arrays *)

Lemma need_cons (v : value) (l : list value) : need (v :: l) = S (cost v + need l).
Proof. reflexivity. Qed.

Lemma elements_step_last (one : string -> option (value * string))
    (elements : list value -> string -> option (list value * string))
    (acc : list value) (s indent rest : string) (v : value) :
  blank indent = true ->
  one s = Some (v, closing indent "]" rest) ->
  elements_step one elements acc s = Some (rev (v :: acc), rest).
Proof.
  intros Hind Hone. unfold elements_step. rewrite Hone.
  rewrite (skip_ws_closing _ _ _ Hind). reflexivity.
Qed.

Lemma elements_step_next (one : string -> option (value * string))
    (elements : list value -> string -> option (list value * string))
    (acc : list value) (s tail : string) (v : value) :
  one s = Some (v, "," ++ tail) ->
  elements_step one elements acc s = elements (v :: acc) tail.
Proof. intros Hone. unfold elements_step. rewrite Hone. reflexivity. Qed.

Lemma elements_read_back (l : list value) :
  Forall reads_back l ->
  l <> [] ->
  forallb legible l = true ->
  forall (inner indent pre rest : string) (acc : list value) (fuel : nat),
    blank inner = true -> blank indent = true -> all_ws pre = true ->
    (need l <= fuel)%nat ->
    parse_elements fuel acc
      (pre ++ join ("," ++ nl ++ inner) (map (element_text inner) l)
           ++ closing indent "]" rest)
    = Some ((rev acc ++ map reread l)%list, rest).
Proof.
  induction 1 as [|v l Hv Hl IH]; [congruence|].
  intros _ Hex inner indent pre rest acc fuel Hinner Hind Hpre Hfuel.
  cbn [forallb] in Hex. apply andb_prop in Hex as [Hexv Hexl].
  rewrite need_cons in Hfuel.
  destruct fuel as [|fuel]; [lia|].
  destruct (serialize_defined inner v (defined_not_undefined v (legible_defined v Hexv)))
    as (text & Htext).
  assert (Het : element_text inner v = text) by (unfold element_text; now rewrite Htext).
  cbn [parse_elements map]. rewrite Het.
  destruct l as [|v2 l].
  - cbn [map join].
    rewrite (elements_step_last _ _ acc _ indent rest (reread v) Hind).
    + reflexivity.
    + apply (Hv inner text pre _ fuel Hexv Hinner Hpre Htext (number_stop_closing _ _ _)).
      lia.
  - cbn [map]. rewrite join_cons2.
    rewrite (elements_step_next _ _ acc _
               (nl ++ inner ++ join ("," ++ nl ++ inner)
                                  (element_text inner v2 :: map (element_text inner) l)
                   ++ closing indent "]" rest) (reread v)).
    + specialize (IH ltac:(discriminate) Hexl inner indent (nl ++ inner) rest
                    (reread v :: acc) fuel
                    Hinner Hind (all_ws_nl_indent inner Hinner) ltac:(lia)).
      cbn [map] in IH. rewrite append_assoc in IH. rewrite IH.
      cbn [rev]. now rewrite <- app_assoc.
    + replace (text ++ ("," ++ nl ++ inner)
                 ++ join ("," ++ nl ++ inner)
                      (element_text inner v2 :: map (element_text inner) l)
                 ++ closing indent "]" rest)
        with (text ++ "," ++ nl ++ inner
                ++ join ("," ++ nl ++ inner)
                     (element_text inner v2 :: map (element_text inner) l)
                ++ closing indent "]" rest)
        by (now rewrite !append_assoc).
      apply (Hv inner text pre _ fuel Hexv Hinner Hpre Htext); [reflexivity | lia].
Qed.

(** *** Objects *)

Lemma obj_set_last (k : string) (v : value) (acc : list (string * value)) :
  existsb (String.eqb k) (map fst acc) = false ->
  forallb (fun k' => negb (comes_before k k')) (map fst acc) = true ->
  obj_set k v acc = (acc ++ [(k, v)])%list.
Proof.
  induction acc as [|[k' v'] acc IH]; cbn [obj_set map fst existsb forallb app];
    [reflexivity|].
  intros Hn Hb. apply orb_false_elim in Hn as [Hk Hn].
  apply andb_prop in Hb as [Hc Hb]. apply negb_true_iff in Hc.
  rewrite Hk, Hc. now rewrite (IH Hn Hb).
Qed.

(** Members in property order are read into the object in that order. *)
Lemma set_all_ordered (fs acc : list (string * value)) :
  property_order (map fst acc) (map fst fs) = true ->
  set_all fs acc = (acc ++ fs)%list.
Proof.
  revert acc. induction fs as [|[k v] fs IH]; intros acc H.
  - cbn. now rewrite app_nil_r.
  - cbn [map fst property_order] in H.
    apply andb_prop in H as [H Hrest]. apply andb_prop in H as [Hnew Hlast].
    apply negb_true_iff in Hnew.
    unfold set_all. cbn [fold_left fst snd]. fold (set_all fs (obj_set k v acc)).
    rewrite (obj_set_last k v acc Hnew Hlast).
    rewrite IH.
    + now rewrite <- app_assoc.
    + rewrite map_app. exact Hrest.
Qed.

Lemma member_text_app (inner k : string) (v : value) (tail : string) :
  member_text inner (k, v) ++ tail
  = String dquote (escape k ++ String dquote (String ":" (String " "
      (element_text inner v ++ tail)))).
Proof.
  unfold member_text, quote. cbn [fst snd append]. rewrite !append_assoc. reflexivity.
Qed.

Lemma members_step_member (one : string -> option (value * string))
    (members : list (string * value) -> string -> option (list (string * value) * string))
    (acc : list (string * value)) (pre k t : string) :
  all_ws pre = true ->
  members_step one members acc
    (pre ++ String dquote (escape k ++ String dquote (String ":" (String " " t))))
  = match one (String " " t) with
    | Some (v, r3) =>
        match skip_ws r3 with
        | String c r4 =>
            if Ascii.eqb c "," then members (obj_set k v acc) r4
            else if Ascii.eqb c "}" then Some (obj_set k v acc, r4)
            else None
        | EmptyString => None
        end
    | None => None
    end.
Proof.
  intros Hpre. unfold members_step. rewrite (skip_ws_app _ _ Hpre).
  cbn [skip_ws]. change (is_ws dquote) with false. cbv iota.
  rewrite Ascii.eqb_refl, parse_chars_escape. reflexivity.
Qed.

Lemma members_read_back (fs : list (string * value)) :
  Forall (fun kv => reads_back (snd kv)) fs ->
  fs <> [] ->
  forallb (fun kv => legible (snd kv)) fs = true ->
  forall (inner indent pre rest : string) (acc : list (string * value)) (fuel : nat),
    blank inner = true -> blank indent = true -> all_ws pre = true ->
    (need (map snd fs) <= fuel)%nat ->
    parse_members fuel acc
      (pre ++ join ("," ++ nl ++ inner) (map (member_text inner) fs)
           ++ closing indent "}" rest)
    = Some (set_all (map (fun kv => (fst kv, reread (snd kv))) fs) acc, rest).
Proof.
  induction 1 as [|[k v] fs Hv Hfs IH]; [congruence|].
  intros _ Hex inner indent pre rest acc fuel Hinner Hind Hpre Hfuel.
  cbn [forallb snd] in Hex. apply andb_prop in Hex as [Hexv Hexfs].
  cbn [map snd] in Hfuel. rewrite need_cons in Hfuel.
  destruct fuel as [|fuel]; [lia|].
  cbn [snd] in Hv.
  destruct (serialize_defined inner v (defined_not_undefined v (legible_defined v Hexv)))
    as (text & Htext).
  assert (Het : element_text inner v = text) by (unfold element_text; now rewrite Htext).
  cbn [parse_members map fst snd]. unfold set_all. cbn [fold_left fst snd].
  fold (set_all (map (fun kv => (fst kv, reread (snd kv))) fs) (obj_set k (reread v) acc)).
  destruct fs as [|kv2 fs].
  - cbn [map join]. rewrite member_text_app, Het.
    rewrite (members_step_member _ _ acc pre k _ Hpre).
    change (String " " (text ++ closing indent "}" rest))
      with (" " ++ text ++ closing indent "}" rest).
    rewrite (Hv inner text " " _ fuel Hexv Hinner eq_refl Htext
               (number_stop_closing _ _ _) ltac:(lia)).
    rewrite (skip_ws_closing _ _ _ Hind). cbn. reflexivity.
  - cbn [map]. rewrite join_cons2, member_text_app, Het.
    rewrite (members_step_member _ _ acc pre k _ Hpre).
    replace (text ++ ("," ++ nl ++ inner)
               ++ join ("," ++ nl ++ inner) (member_text inner kv2 :: map (member_text inner) fs)
               ++ closing indent "}" rest)
      with (text ++ "," ++ (nl ++ inner)
              ++ join ("," ++ nl ++ inner) (member_text inner kv2 :: map (member_text inner) fs)
              ++ closing indent "}" rest)
      by (now rewrite !append_assoc).
    change (String " " (text ++ "," ++ ?x)) with (" " ++ text ++ "," ++ x).
    match goal with
    | |- context [parse_value fuel (" " ++ text ++ ?tl)] =>
        rewrite (Hv inner text " " tl fuel Hexv Hinner eq_refl Htext eq_refl ltac:(lia))
    end.
    cbn [append skip_ws]. cbn - [set_all reread obj_set parse_members].
    specialize (IH ltac:(discriminate) Hexfs inner indent (nl ++ inner) rest
                  (obj_set k (reread v) acc) fuel
                  Hinner Hind (all_ws_nl_indent inner Hinner) ltac:(lia)).
    cbn [map] in IH. exact IH.
Qed.

(** *** Every legible value is read *)

Lemma join_opens (sep t : string) (ts : list string) (tail : string) :
  (forall rest, opens_value (t ++ rest) = true) ->
  opens_value (join sep (t :: ts) ++ tail) = true.
Proof.
  intros H. destruct ts as [|t2 ts].
  - cbn [join]. apply H.
  - rewrite join_cons2. apply H.
Qed.

Lemma parse_value_reads_back (v : value) : reads_back v.
Proof.
  induction v as [| |b|x|s|l IH|fs IH] using value_ind_nested;
    intros indent text pre rest fuel Hex Hind Hpre Htext Hstop Hfuel;
    try discriminate;
    rewrite (parse_value_skip _ _ _ Hpre).
  - injection Htext as <-. destruct fuel as [|fuel]; [cbn in Hfuel; lia|].
    cbn [parse_value]. apply value_step_null.
  - injection Htext as <-. destruct fuel as [|fuel]; [cbn in Hfuel; lia|].
    cbn [parse_value]. destruct b; [apply value_step_true | apply value_step_false].
  - cbn [legible] in Hex. cbn [serialize] in Htext. cbn [reread]. unfold reread_number.
    destruct fuel as [|fuel]; [cbn in Hfuel; lia|]. cbn [parse_value].
    destruct (is_finite x); injection Htext as <-; [|apply value_step_null].
    cbn [negb orb] in Hex. unfold readable_numeral in Hex.
    destruct (parse_number (to_string x)) as [[y r]|] eqn:Hp; [|discriminate].
    destruct r; [|discriminate].
    pose proof (parse_number_app _ _ _ _ Hstop Hp) as Happ.
    destruct (parse_number_head _ _ Hp) as (c & t & Heq & Hc).
    rewrite Heq in Happ |- *.
    change (String c t ++ rest) with (String c (t ++ rest)) in Happ |- *.
    destruct Hc as [-> | Hc].
    + rewrite value_step_minus, Happ. reflexivity.
    + rewrite (value_step_digit _ _ c _ Hc), Happ. reflexivity.
  - injection Htext as <-. destruct fuel as [|fuel]; [cbn in Hfuel; lia|].
    destruct (parse_chars_quote s rest) as (t & -> & Hpc).
    cbn [parse_value]. rewrite value_step_string, Hpc. reflexivity.
  - rewrite serialize_arr in Htext. injection Htext as <-.
    rewrite cost_arr in Hfuel. destruct fuel as [|fuel]; [lia|].
    cbn [legible] in Hex. cbn [parse_value reread].
    destruct l as [|v l].
    + reflexivity.
    + cbn [map]. rewrite bracket_cons. cbn [append]. rewrite value_step_array.
      pose proof (blank_deeper indent Hind) as Hinner.
      assert (Hopens : opens_value
                         (join ("," ++ nl ++ indent ++ "  ")
                            (element_text (indent ++ "  ") v
                               :: map (element_text (indent ++ "  ")) l)
                          ++ closing indent "]" rest) = true).
      { apply join_opens. intros tail.
        cbn [forallb] in Hex. apply andb_prop in Hex as [Hexv _].
        destruct (serialize_defined (indent ++ "  ") v
                    (defined_not_undefined v (legible_defined v Hexv))) as (tv & Htv).
        unfold element_text. rewrite Htv. now apply (serialize_opens (indent ++ "  ") v). }
      cbn [append] in Hopens.
      rewrite (skip_ws_nl_indent _ _ Hinner), (skip_ws_opens _ Hopens).
      rewrite (proj1 (starts_with_opens _ Hopens)).
      pose proof (elements_read_back (v :: l) IH ltac:(discriminate) Hex
                    (indent ++ "  ") indent "" rest [] fuel Hinner Hind eq_refl ltac:(lia))
        as Hel.
      cbn [map append rev app] in Hel. rewrite Hel. reflexivity.
  - cbn [legible] in Hex.
    assert (Hdef : forallb (fun kv => defined (snd kv)) fs = true).
    { rewrite forallb_forall in Hex |- *. intros kv Hkv. apply legible_defined, Hex, Hkv. }
    rewrite (serialize_obj _ _ Hdef) in Htext. injection Htext as <-.
    rewrite cost_obj in Hfuel. destruct fuel as [|fuel]; [lia|].
    cbn [parse_value reread].
    destruct fs as [|[k v] fs].
    + reflexivity.
    + cbn [map]. rewrite bracket_cons. cbn [append]. rewrite value_step_object.
      pose proof (blank_deeper indent Hind) as Hinner.
      assert (Hopens : opens_value
                         (join ("," ++ nl ++ indent ++ "  ")
                            (member_text (indent ++ "  ") (k, v)
                               :: map (member_text (indent ++ "  ")) fs)
                          ++ closing indent "}" rest) = true).
      { apply join_opens. intros tail. rewrite member_text_app. reflexivity. }
      cbn [append] in Hopens.
      rewrite (skip_ws_nl_indent _ _ Hinner), (skip_ws_opens _ Hopens).
      rewrite (proj2 (starts_with_opens _ Hopens)).
      pose proof (members_read_back ((k, v) :: fs) IH ltac:(discriminate) Hex
                    (indent ++ "  ") indent "" rest [] fuel Hinner Hind eq_refl
                    ltac:(lia))
        as Hmem.
      cbn [map append app] in Hmem. rewrite Hmem. reflexivity.
Qed.

(** *** Enough fuel *)

Lemma text_weight_cons (t : string) (ts : list string) :
  text_weight (t :: ts) = (2 * String.length t + 2 + text_weight ts)%nat.
Proof. reflexivity. Qed.

Lemma join_weight (sep : string) (ts : list string) :
  (1 <= String.length sep)%nat -> ts <> [] ->
  (text_weight ts <= 2 * String.length (join sep ts) + 2)%nat.
Proof.
  intros Hsep. induction ts as [|t ts IH]; [congruence|]. intros _.
  destruct ts as [|t2 ts].
  - unfold text_weight. cbn. lia.
  - rewrite text_weight_cons.
    specialize (IH ltac:(discriminate)).
    change (join sep (t :: t2 :: ts)) with (t ++ sep ++ join sep (t2 :: ts)).
    rewrite !length_append. lia.
Qed.

Lemma bracket_length (opening closing_ indent t : string) (ts : list string) :
  (String.length (join ("," ++ nl ++ indent ++ "  ") (t :: ts)) + 2
   <= String.length (bracket opening closing_ indent (t :: ts)))%nat.
Proof.
  unfold bracket. rewrite !length_append.
  change (String.length nl) with 1%nat. lia.
Qed.

Lemma need_weight (inner : string) (l : list value) :
  Forall fuel_covered l -> forallb defined l = true ->
  (need l <= text_weight (map (element_text inner) l))%nat.
Proof.
  induction 1 as [|v l Hv _ IH]; [reflexivity|]. intros Hex.
  cbn [forallb] in Hex. apply andb_prop in Hex as [Hexv Hexl].
  cbn [map]. rewrite need_cons, text_weight_cons. specialize (IH Hexl).
  destruct (serialize_defined inner v (defined_not_undefined v Hexv)) as (text & Htext).
  specialize (Hv inner text Hexv Htext).
  unfold element_text at 1. rewrite Htext. lia.
Qed.

Lemma need_member_weight (inner : string) (fs : list (string * value)) :
  Forall (fun kv => fuel_covered (snd kv)) fs ->
  forallb (fun kv => defined (snd kv)) fs = true ->
  (need (map snd fs) <= text_weight (map (member_text inner) fs))%nat.
Proof.
  induction 1 as [|[k v] fs Hv _ IH]; [reflexivity|]. intros Hex.
  cbn [forallb snd] in Hex. apply andb_prop in Hex as [Hexv Hexfs].
  cbn [map snd]. rewrite need_cons, text_weight_cons. specialize (IH Hexfs).
  destruct (serialize_defined inner v (defined_not_undefined v Hexv)) as (text & Htext).
  cbn [snd] in Hv. specialize (Hv inner text Hexv Htext).
  unfold member_text at 1. unfold element_text at 1. cbn [fst snd].
  rewrite Htext, !length_append. lia.
Qed.

Lemma cost_covered (v : value) : fuel_covered v.
Proof.
  induction v as [| |b|x|s|l IH|fs IH] using value_ind_nested;
    intros indent text Hex Htext; try (cbn [cost]; lia).
  - rewrite serialize_arr in Htext. injection Htext as <-.
    rewrite cost_arr. cbn [defined] in Hex.
    destruct l as [|v l]; [cbn; lia|].
    pose proof (need_weight (indent ++ "  ") (v :: l) IH Hex) as Hneed.
    cbn [map] in Hneed |- *.
    pose proof (join_weight ("," ++ nl ++ indent ++ "  ")
                  (element_text (indent ++ "  ") v :: map (element_text (indent ++ "  ")) l)
                  ltac:(cbn; lia) ltac:(discriminate)) as Hjoin.
    pose proof (bracket_length "[" "]" indent (element_text (indent ++ "  ") v)
                  (map (element_text (indent ++ "  ")) l)) as Hlen.
    lia.
  - cbn [defined] in Hex.
    rewrite (serialize_obj _ _ Hex) in Htext. injection Htext as <-.
    rewrite cost_obj.
    destruct fs as [|kv fs]; [cbn; lia|].
    pose proof (need_member_weight (indent ++ "  ") (kv :: fs) IH Hex) as Hneed.
    cbn [map] in Hneed |- *.
    pose proof (join_weight ("," ++ nl ++ indent ++ "  ")
                  (member_text (indent ++ "  ") kv :: map (member_text (indent ++ "  ")) fs)
                  ltac:(cbn; lia) ltac:(discriminate)) as Hjoin.
    pose proof (bracket_length "{" "}" indent (member_text (indent ++ "  ") kv)
                  (map (member_text (indent ++ "  ")) fs)) as Hlen.
    lia.
Qed.

(** [JSON.parse(JSON.stringify(v, null, 2))] is [reread v] for every
    legible value. *)
Theorem parse_stringify_reread (v : value) (text : string) :
  legible v = true -> stringify v = Some text -> parse text = Some (reread v).
Proof.
  intros Hex Htext. unfold parse.
  pose proof (parse_value_reads_back v "" text "" "" (2 * String.length text + 2)%nat
                Hex eq_refl eq_refl Htext eq_refl) as Hread.
  cbn [append] in Hread. rewrite append_nil_r in Hread.
  rewrite Hread; [reflexivity|].
  pose proof (cost_covered v "" text (legible_defined v Hex) Htext). lia.
Qed.

(** *** Exact values *)

Lemma exact_legible (v : value) : exact v = true -> legible v = true.
Proof.
  induction v as [| |b|x|s|l IH|fs IH] using value_ind_nested; intros H;
    try reflexivity; try discriminate.
  - cbn [exact legible] in *. unfold exact_number in H. unfold readable_numeral.
    apply andb_prop in H as [Hfin H]. rewrite Hfin. cbn [negb orb].
    destruct (parse_number (to_string x)) as [[y r]|]; [|discriminate].
    destruct r; [reflexivity | discriminate].
  - cbn [exact legible] in *. rewrite forallb_forall in H |- *.
    rewrite Forall_forall in IH. intros v Hv. apply IH; auto.
  - rewrite exact_obj in H. apply andb_prop in H as [_ H].
    cbn [legible]. rewrite forallb_forall in H |- *.
    rewrite Forall_forall in IH. intros kv Hkv. apply IH; auto.
Qed.

Lemma exact_defined (v : value) : exact v = true -> v <> VUndefined.
Proof. intros H ->. discriminate. Qed.

(** An exact value is read as itself. *)
Lemma exact_reread (v : value) : exact v = true -> reread v = v.
Proof.
  induction v as [| |b|x|s|l IH|fs IH] using value_ind_nested; intros H;
    try reflexivity; try discriminate.
  - cbn [exact reread] in *. unfold exact_number in H. unfold reread_number.
    apply andb_prop in H as [Hfin H]. rewrite Hfin.
    destruct (parse_number (to_string x)) as [[y r]|]; [|discriminate].
    destruct r; [|discriminate]. now apply spec_float_eqb_eq in H as ->.
  - cbn [exact reread] in *. f_equal.
    induction IH as [|v l Hv _ IHl]; [reflexivity|].
    cbn [forallb] in H. apply andb_prop in H as [H1 H2].
    cbn [map]. now rewrite (Hv H1), (IHl H2).
  - rewrite exact_obj in H. apply andb_prop in H as [Hord H].
    cbn [reread]. f_equal.
    assert (Hmap : map (fun kv => (fst kv, reread (snd kv))) fs = fs).
    { clear Hord. induction IH as [|[k v] fs Hv _ IHfs]; [reflexivity|].
      cbn [forallb snd] in H. apply andb_prop in H as [H1 H2].
      cbn [map fst snd]. cbn [snd] in Hv. now rewrite (Hv H1), (IHfs H2). }
    rewrite Hmap. now rewrite (set_all_ordered fs [] Hord).
Qed.

(** [JSON.parse(JSON.stringify(v, null, 2))] is [v] for every exact
    value. *)
Theorem parse_stringify (v : value) (text : string) :
  exact v = true -> stringify v = Some text -> parse text = Some v.
Proof.
  intros Hex Htext.
  rewrite (parse_stringify_reread v text (exact_legible v Hex) Htext).
  now rewrite (exact_reread v Hex).
Qed.

(** *** What [JSON.parse] builds *)

Lemma obj_set_defined (k : string) (v : value) (acc : list (string * value)) :
  defined v = true ->
  forallb (fun kv => defined (snd kv)) acc = true ->
  forallb (fun kv => defined (snd kv)) (obj_set k v acc) = true.
Proof.
  intros Hv. induction acc as [|[k' v'] acc IH]; cbn [obj_set forallb snd].
  - intros _. now rewrite Hv.
  - intros H. apply andb_prop in H as [H1 H2].
    destruct (String.eqb k k'); cbn [forallb snd]; [now rewrite Hv, H2|].
    destruct (comes_before k k'); cbn [forallb snd]; [now rewrite Hv, H1, H2|].
    now rewrite H1, (IH H2).
Qed.

Lemma forallb_rev {A} (f : A -> bool) (l : list A) :
  forallb f l = true -> forallb f (rev l) = true.
Proof.
  rewrite !forallb_forall. intros H x Hx. apply H. now apply in_rev.
Qed.

(** No [undefined] comes out of the parser. *)
Lemma parse_defined_fuel (fuel : nat) :
  (forall s v r, parse_value fuel s = Some (v, r) -> defined v = true) /\
  (forall acc s l r,
     parse_elements fuel acc s = Some (l, r) ->
     forallb defined acc = true -> forallb defined l = true) /\
  (forall acc s fs r,
     parse_members fuel acc s = Some (fs, r) ->
     forallb (fun kv => defined (snd kv)) acc = true ->
     forallb (fun kv => defined (snd kv)) fs = true).
Proof.
  induction fuel as [|fuel (IHv & IHe & IHm)];
    [repeat split; intros; discriminate|].
  repeat split.
  - intros s v r. cbn [parse_value]. unfold value_step.
    destruct (skip_ws s) as [|c t]; [discriminate|].
    destruct (Ascii.eqb c "n");
      [unfold literal; destruct (starts_with _ _); [intros [= <- _]; reflexivity | discriminate]|].
    destruct (Ascii.eqb c "t");
      [unfold literal; destruct (starts_with _ _); [intros [= <- _]; reflexivity | discriminate]|].
    destruct (Ascii.eqb c "f");
      [unfold literal; destruct (starts_with _ _); [intros [= <- _]; reflexivity | discriminate]|].
    destruct (Ascii.eqb c dquote);
      [destruct (parse_chars t) as [[str rest]|]; [intros [= <- _]; reflexivity | discriminate]|].
    destruct (Ascii.eqb c "[").
    { destruct (starts_with "]" (skip_ws t)); [intros [= <- _]; reflexivity|].
      destruct (parse_elements fuel [] (skip_ws t)) as [[l rest]|] eqn:He; [|discriminate].
      intros [= <- _]. cbn [defined]. exact (IHe _ _ _ _ He eq_refl). }
    destruct (Ascii.eqb c "{").
    { destruct (starts_with "}" (skip_ws t)); [intros [= <- _]; reflexivity|].
      destruct (parse_members fuel [] (skip_ws t)) as [[fs rest]|] eqn:Hm; [|discriminate].
      intros [= <- _]. cbn [defined]. exact (IHm _ _ _ _ Hm eq_refl). }
    destruct (parse_number (String c t)) as [[x rest]|]; [|discriminate].
    intros [= <- _]. reflexivity.
  - intros acc s l r. cbn [parse_elements]. unfold elements_step.
    destruct (parse_value fuel s) as [[v r1]|] eqn:Hv; [|discriminate].
    pose proof (IHv _ _ _ Hv) as Hdv.
    destruct (skip_ws r1) as [|c r2]; [discriminate|].
    destruct (Ascii.eqb c ",").
    { intros He Hacc. apply (IHe _ _ _ _ He). cbn [forallb]. now rewrite Hdv. }
    destruct (Ascii.eqb c "]"); [|discriminate].
    intros [= <- _] Hacc. apply (forallb_rev defined (v :: acc)). cbn [forallb]. now rewrite Hdv.
  - intros acc s fs r. cbn [parse_members]. unfold members_step.
    destruct (skip_ws s) as [|q t]; [discriminate|].
    destruct (Ascii.eqb q dquote); [|discriminate].
    destruct (parse_chars t) as [[k r1]|]; [|discriminate].
    destruct (starts_with ":" (skip_ws r1)) as [r2|]; [|discriminate].
    destruct (parse_value fuel r2) as [[v r3]|] eqn:Hv; [|discriminate].
    pose proof (IHv _ _ _ Hv) as Hdv.
    destruct (skip_ws r3) as [|c r4]; [discriminate|].
    destruct (Ascii.eqb c ",").
    { intros Hm Hacc. apply (IHm _ _ _ _ Hm). now apply obj_set_defined. }
    destruct (Ascii.eqb c "}"); [|discriminate].
    intros [= <- _] Hacc. now apply obj_set_defined.
Qed.

Lemma parse_defined (text : string) (v : value) : parse text = Some v -> defined v = true.
Proof.
  unfold parse.
  destruct (parse_value (2 * String.length text + 2) text) as [[v' rest]|] eqn:Hp;
    [|discriminate].
  destruct (skip_ws rest); [|discriminate]. intros [= <-].
  exact (proj1 (parse_defined_fuel _) _ _ _ Hp).
Qed.

End JsonFacts.

(* ================================================================= *)
(** ** The numeral of a Number is a JSON number *)

Module NumeralFacts.

Import Num Js Json Server JsonFacts.

(** *** Decimal numerals of integers *)

Lemma uint_all_digits (d : Decimal.uint) : all_digits (NilEmpty.string_of_uint d) = true.
Proof. induction d; cbn; auto. Qed.

Lemma Z_to_string_digits (z : Z) :
  all_digits (Z_to_string z) = true /\ Z_to_string z <> "".
Proof.
  unfold Z_to_string, NilZero.string_of_uint.
  destruct (N.to_uint (Z.to_N z)) as [|d|d|d|d|d|d|d|d|d|d] eqn:E;
    (split; [try reflexivity; cbn; apply uint_all_digits | cbn; discriminate]).
Qed.

Lemma uint_length (d : Decimal.uint) :
  String.length (NilEmpty.string_of_uint d) = Decimal.nb_digits d.
Proof. induction d; cbn; auto. Qed.

(** Horner's rule keeps the digits read so far in front. *)
Lemma of_uint_acc_bounds (d : Decimal.uint) (acc : positive) :
  Zpos acc * 10 ^ Z.of_nat (Decimal.nb_digits d) <= Zpos (Pos.of_uint_acc d acc)
  /\ Zpos (Pos.of_uint_acc d acc) < (Zpos acc + 1) * 10 ^ Z.of_nat (Decimal.nb_digits d).
Proof.
  revert acc. induction d as [|d IH|d IH|d IH|d IH|d IH|d IH|d IH|d IH|d IH|d IH];
    intros acc; cbn [Pos.of_uint_acc Decimal.nb_digits];
    [cbn; lia | ..];
    rewrite Nat2Z.inj_succ, Z.pow_succ_r by lia;
    match goal with
    | |- context [Pos.of_uint_acc ?u ?a] =>
        specialize (IH a);
        assert (0 < 10 ^ Z.of_nat (Decimal.nb_digits u)) by (apply Z.pow_pos_nonneg; lia)
    end;
    nia.
Qed.

(** The numeral of a positive integer: its first digit is not zero, and
    its length is the number of decimal digits of the integer. *)
Lemma Z_to_string_pos (z : Z) :
  0 < z ->
  exists (c : ascii) (r : string),
    Z_to_string z = String c r /\
    is_digit c = true /\ Ascii.eqb c "0" = false /\ all_digits r = true /\
    10 ^ Z.of_nat (String.length r) <= z < 10 ^ Z.of_nat (S (String.length r)).
Proof.
  intros Hz. destruct z as [|p|p]; try lia. clear Hz.
  unfold Z_to_string. cbn [Z.to_N N.to_uint].
  pose proof (DecimalPos.Unsigned.of_to p) as Hof.
  pose proof (DecimalPos.Unsigned.to_of (Pos.to_uint p)) as Hto.
  rewrite Hof in Hto. cbn [N.to_uint] in Hto.
  pose proof (DecimalPos.Unsigned.to_uint_nonzero p) as Hnz.
  destruct (Pos.to_uint p) as [|d|d|d|d|d|d|d|d|d|d] eqn:E.
  1:{ cbn in Hof. discriminate. }
  1:{ exfalso. rewrite DecimalFacts.unorm_D0 in Hto.
      destruct d as [|d|d|d|d|d|d|d|d|d|d]; [now apply Hnz | ..];
        match goal with
        | H : Decimal.D0 ?u = Decimal.unorm ?u |- _ =>
            pose proof (DecimalFacts.nb_digits_unorm u ltac:(discriminate)) as Hn;
            rewrite <- H in Hn; cbn [Decimal.nb_digits] in Hn; lia
        end. }
  all: cbn [NilZero.string_of_uint NilEmpty.string_of_uint];
    eexists _, _; (split; [reflexivity|]);
    (split; [reflexivity|]); (split; [reflexivity|]); (split; [apply uint_all_digits|]);
    rewrite uint_length; cbn [Pos.of_uint] in Hof; injection Hof as Hof;
    match goal with
    | H : Pos.of_uint_acc ?u ?a = _ |- _ =>
        pose proof (of_uint_acc_bounds u a) as Hb; rewrite H in Hb;
        assert (0 < 10 ^ Z.of_nat (Decimal.nb_digits u)) by (apply Z.pow_pos_nonneg; lia)
    end;
    rewrite Nat2Z.inj_succ, Z.pow_succ_r by lia;
    lia.
Qed.

Lemma ndigits_spec (z : Z) :
  0 < z -> 1 <= ndigits z /\ 10 ^ (ndigits z - 1) <= z < 10 ^ ndigits z.
Proof.
  intros Hz. destruct (Z_to_string_pos z Hz) as (c & r & Hs & _ & _ & _ & Hb).
  unfold ndigits. rewrite Hs. cbn [String.length].
  rewrite Nat2Z.inj_succ in *. split; [lia|].
  replace (Z.succ (Z.of_nat (String.length r)) - 1) with (Z.of_nat (String.length r)) by lia.
  exact Hb.
Qed.

(** *** The decimal exponent *)

Lemma pow10_pos (a : Z) : 0 <= a -> 0 < 10 ^ a.
Proof. intros. apply Z.pow_pos_nonneg; lia. Qed.

Lemma pow10_split (a b : Z) : 0 <= a -> 0 <= b -> 10 ^ (a + b) = 10 ^ a * 10 ^ b.
Proof. intros. apply Z.pow_add_r; lia. Qed.

Lemma pow10_succ (a : Z) : 0 <= a -> 10 ^ (a + 1) = 10 * 10 ^ a.
Proof. intros. rewrite Z.add_1_r. apply Z.pow_succ_r. lia. Qed.

Lemma dec_exponent_spec (p q : Z) : 0 < p -> 0 < q -> in_decade p q (dec_exponent p q).
Proof.
  intros Hp Hq.
  destruct (ndigits_spec p Hp) as (Ha & Hpl & Hpu).
  destruct (ndigits_spec q Hq) as (Hb & Hql & Hqu).
  unfold dec_exponent. cbv zeta.
  set (a := ndigits p) in *. set (b := ndigits q) in *.
  destruct (0 <=? a - b) eqn:Hd; [apply Z.leb_le in Hd | apply Z.leb_gt in Hd].
  - (* b <= a *)
    assert (E1 : 10 ^ (a - 1) = 10 ^ (b - 1) * 10 ^ (a - b)).
    { rewrite <- pow10_split by lia. f_equal. lia. }
    assert (E2 : 10 ^ a = 10 * 10 ^ (a - 1)).
    { rewrite <- pow10_succ by lia. f_equal. lia. }
    assert (E3 : 10 ^ b = 10 * 10 ^ (b - 1)).
    { rewrite <- pow10_succ by lia. f_equal. lia. }
    pose proof (pow10_pos (a - b) ltac:(lia)) as HD.
    pose proof (pow10_pos (b - 1) ltac:(lia)) as HB.
    destruct (q * 10 ^ (a - b) <=? p) eqn:Hge;
      [apply Z.leb_le in Hge | apply Z.leb_gt in Hge]; unfold in_decade.
    + replace (a - b + 1 - 1) with (a - b) by lia.
      rewrite (pow10_succ (a - b)) by lia.
      repeat split; intros; try lia. nia.
    + repeat split; intros; try lia.
      * assert (E4 : 10 ^ (a - b) = 10 * 10 ^ (a - b - 1)).
        { rewrite <- pow10_succ by lia. f_equal. lia. }
        pose proof (pow10_pos (a - b - 1) ltac:(lia)). nia.
      * replace (1 - (a - b)) with 1 by lia.
        replace (a - b) with 0 in * by lia.
        change (10 ^ 1) with 10. change (10 ^ 0) with 1 in *. nia.
  - (* a < b *)
    assert (E1 : 10 ^ (b - 1) = 10 ^ (a - 1) * 10 ^ (- (a - b))).
    { rewrite <- pow10_split by lia. f_equal. lia. }
    assert (E2 : 10 ^ a = 10 * 10 ^ (a - 1)).
    { rewrite <- pow10_succ by lia. f_equal. lia. }
    assert (E3 : 10 ^ b = 10 * 10 ^ (b - 1)).
    { rewrite <- pow10_succ by lia. f_equal. lia. }
    pose proof (pow10_pos (- (a - b)) ltac:(lia)) as HE.
    pose proof (pow10_pos (a - 1) ltac:(lia)) as HA.
    destruct (q <=? p * 10 ^ (- (a - b))) eqn:Hge;
      [apply Z.leb_le in Hge | apply Z.leb_gt in Hge]; unfold in_decade.
    + repeat split; intros; try lia.
      * replace (1 - (a - b + 1)) with (- (a - b)) by lia. exact Hge.
      * replace (a - b + 1) with 0 by lia.
        replace (- (a - b)) with 1 in * by lia.
        change (10 ^ 1) with 10 in *. change (10 ^ 0) with 1. nia.
      * assert (E4 : 10 ^ (- (a - b)) = 10 * 10 ^ (- (a - b + 1))).
        { rewrite <- pow10_succ by lia. f_equal. lia. }
        pose proof (pow10_pos (- (a - b + 1)) ltac:(lia)). nia.
    + repeat split; intros; try lia.
      replace (1 - (a - b)) with (- (a - b) + 1) by lia.
      rewrite pow10_succ by lia. nia.
Qed.

(** *** Digit strings of the right length *)

Lemma candidates_range (p q n k : Z) (c : Z * Z) :
  0 < p -> 0 < q -> in_decade p q n -> 1 <= k ->
  In c (candidates p q n k) -> 10 ^ (k - 1) <= fst c < 10 ^ k.
Proof.
  intros Hp Hq (H1 & H2 & H3 & H4) Hk Hin.
  assert (Hk1 : 10 ^ k = 10 * 10 ^ (k - 1)).
  { replace k with (Z.succ (k - 1)) at 1 by lia. apply Z.pow_succ_r. lia. }
  pose proof (pow10_pos (k - 1) ltac:(lia)) as Hpk.
  assert (Hlo : 10 ^ (k - 1)
                <= fst (if 0 <=? k - n then (p * 10 ^ (k - n), q) else (p, q * 10 ^ (n - k)))
                   / snd (if 0 <=? k - n then (p * 10 ^ (k - n), q) else (p, q * 10 ^ (n - k)))
                < 10 ^ k).
  { destruct (0 <=? k - n) eqn:Hkn; [apply Z.leb_le in Hkn | apply Z.leb_gt in Hkn];
      cbn [fst snd].
    - pose proof (pow10_pos (k - n) ltac:(lia)) as Hpkn.
      split.
      + apply Z.div_le_lower_bound; [lia|].
        destruct (Z_le_gt_dec 1 n) as [Hn|Hn].
        * pose proof (pow10_split (n - 1) (k - n) ltac:(lia) ltac:(lia)) as E.
          replace (n - 1 + (k - n)) with (k - 1) in E by lia.
          specialize (H1 Hn). nia.
        * pose proof (pow10_split (1 - n) (k - 1) ltac:(lia) ltac:(lia)) as E.
          replace (1 - n + (k - 1)) with (k - n) in E by lia.
          specialize (H2 ltac:(lia)). nia.
      + apply Z.div_lt_upper_bound; [lia|].
        destruct (Z_le_gt_dec 0 n) as [Hn|Hn].
        * pose proof (pow10_split n (k - n) ltac:(lia) ltac:(lia)) as E.
          replace (n + (k - n)) with k in E by lia.
          specialize (H3 Hn). nia.
        * pose proof (pow10_split (- n) k ltac:(lia) ltac:(lia)) as E.
          replace (- n + k) with (k - n) in E by lia.
          specialize (H4 ltac:(lia)). pose proof (pow10_pos k ltac:(lia)). nia.
    - pose proof (pow10_pos (n - k) ltac:(lia)) as Hpnk.
      pose proof (pow10_split (k - 1) (n - k) ltac:(lia) ltac:(lia)) as E1.
      replace (k - 1 + (n - k)) with (n - 1) in E1 by lia.
      pose proof (pow10_split k (n - k) ltac:(lia) ltac:(lia)) as E2.
      replace (k + (n - k)) with n in E2 by lia.
      specialize (H1 ltac:(lia)). specialize (H3 ltac:(lia)).
      split.
      + apply Z.div_le_lower_bound; [nia|]. nia.
      + apply Z.div_lt_upper_bound; [nia|]. nia. }
  unfold candidates in Hin.
  destruct (if 0 <=? k - n then (p * 10 ^ (k - n), q) else (p, q * 10 ^ (n - k)))
    as [sp sq]. cbn [fst snd] in Hlo. cbv zeta in Hin.
  destruct Hin as [<- | [<- | []]]; cbn [fst]; [exact Hlo|].
  destruct (sp / sq + 1 =? 10 ^ k) eqn:Hhi; cbn [fst]; [lia|].
  apply Z.eqb_neq in Hhi. lia.
Qed.

Lemma pick_in (x : number) (p q n k : Z) (c : Z * Z) :
  pick x p q n k = Some c -> In c (candidates p q n k).
Proof.
  unfold pick.
  set (ok := fun c : Z * Z => spec_float_eqb (of_decimal false (fst c) (snd c - k)) x).
  intros H.
  assert (Hsub : forall c', In c' (filter ok (candidates p q n k)) ->
                            In c' (candidates p q n k)).
  { intros c' Hc'. now apply filter_In in Hc'. }
  destruct (filter ok (candidates p q n k)) as [|c1 [|c2 l]]; [discriminate | |].
  - injection H as <-. apply Hsub. now left.
  - destruct (_ <? _); [injection H as <-; apply Hsub; now left|].
    destruct (_ <? _); [injection H as <-; apply Hsub; right; now left|].
    destruct (Z.even _); injection H as <-; apply Hsub; [now left | right; now left].
Qed.

Lemma shortest_range (x : number) (p q n : Z) (fuel : nat) :
  0 < p -> 0 < q -> in_decade p q n ->
  forall (k d n' k' : Z),
    1 <= k ->
    shortest x p q n k fuel = (d, n', k') ->
    1 <= k' /\ 10 ^ (k' - 1) <= d < 10 ^ k'.
Proof.
  intros Hp Hq Hn. induction fuel as [|fuel IH]; intros k d n' k' Hk H; cbn [shortest] in H.
  - destruct (pick x p q n k) as [[s m]|] eqn:Hpick.
    + injection H as <- <- <-. split; [exact Hk|].
      exact (candidates_range p q n k (s, m) Hp Hq Hn Hk (pick_in _ _ _ _ _ _ Hpick)).
    + injection H as <- <- <-. split; [exact Hk|].
      apply (candidates_range p q n k); try assumption.
      unfold candidates.
      destruct (if 0 <=? k - n then (p * 10 ^ (k - n), q) else (p, q * 10 ^ (n - k)))
        as [sp sq]. cbv zeta. cbn [hd]. destruct (sp / sq); now left.
  - destruct (pick x p q n k) as [[s m]|] eqn:Hpick.
    + injection H as <- <- <-. split; [exact Hk|].
      exact (candidates_range p q n k (s, m) Hp Hq Hn Hk (pick_in _ _ _ _ _ _ Hpick)).
    + apply (IH (k + 1) d n' k'); [lia | exact H].
Qed.

(** *** Reading digits *)

Lemma all_digits_app (a b : string) :
  all_digits (a ++ b) = all_digits a && all_digits b.
Proof.
  induction a as [|c a IH]; cbn [append all_digits]; [reflexivity|].
  now rewrite IH, andb_assoc.
Qed.

Lemma all_digits_zeros (n : nat) : all_digits (zeros n) = true.
Proof. induction n as [|n IH]; cbn; auto. Qed.

Lemma all_digits_take (n : nat) (s : string) : all_digits s = true -> all_digits (take n s) = true.
Proof.
  revert s. induction n as [|n IH]; intros [|c s]; cbn [take all_digits]; auto.
  intros H. apply andb_prop in H as [Hc Hs]. rewrite Hc. cbn [andb]. auto.
Qed.

Lemma all_digits_drop (n : nat) (s : string) : all_digits s = true -> all_digits (drop n s) = true.
Proof.
  revert s. induction n as [|n IH]; intros [|c s]; cbn [drop all_digits]; auto.
  intros H. apply andb_prop in H as [Hc Hs]. auto.
Qed.

Lemma length_drop (n : nat) (s : string) :
  String.length (drop n s) = (String.length s - n)%nat.
Proof. revert s. induction n as [|n IH]; intros [|c s]; cbn; auto. Qed.

(** A run of digits is read to its end. *)
Lemma scan_digits_run (ds rest : string) :
  all_digits ds = true ->
  (forall c r, rest = String c r -> is_digit c = false) ->
  forall acc cnt : Z,
  exists v : Z, scan_digits (ds ++ rest) acc cnt = (v, cnt + Z.of_nat (String.length ds), rest).
Proof.
  intros Hds Hrest. induction ds as [|c ds IH]; intros acc cnt.
  - exists acc. cbn [append String.length]. rewrite Z.add_0_r.
    destruct rest as [|c r]; [reflexivity|].
    cbn [scan_digits]. now rewrite (Hrest c r eq_refl).
  - cbn [all_digits] in Hds. apply andb_prop in Hds as [Hc Hds].
    cbn [append scan_digits String.length]. rewrite Hc.
    destruct (IH Hds (10 * acc + digit_val c) (cnt + 1)) as (v & Hv).
    exists v. rewrite Hv. f_equal. f_equal. lia.
Qed.

(** The parts of a JSON number: the integer part is 0 or starts with
    another digit; the fraction and the exponent, when present, have at
    least one digit. *)
Lemma parse_number_shape (neg : bool) (ip : string) (frac : option string)
    (ex : option (bool * string)) :
  (ip = "0" \/
   exists c r, ip = String c r /\ is_digit c = true /\ Ascii.eqb c "0" = false /\
               all_digits r = true) ->
  (forall f, frac = Some f -> all_digits f = true /\ f <> "") ->
  (forall sg e, ex = Some (sg, e) -> all_digits e = true /\ e <> "") ->
  exists y : number,
    parse_number
      ((if neg then "-" else "") ++ ip
       ++ match frac with Some f => "." ++ f | None => "" end
       ++ match ex with
          | Some (sg, e) => "e" ++ (if sg then "-" else "+") ++ e
          | None => ""
          end)
    = Some (y, "").
Proof.
  intros Hip Hfrac Hex.
  set (xt := match ex with
             | Some (sg, e) => "e" ++ (if sg then "-" else "+") ++ e
             | None => ""
             end).
  set (ft := match frac with Some f => "." ++ f | None => "" end).
  (* the exponent *)
  assert (Hx : exists x, exp_part xt = Some (x, "")).
  { unfold xt. destruct ex as [[sg e]|]; [|now exists 0].
    destruct (Hex sg e eq_refl) as (He & Hne).
    destruct (scan_digits_run e "" He ltac:(discriminate) 0 0) as (v & Hv).
    rewrite append_nil_r in Hv.
    assert (Hcnt : (0 + Z.of_nat (String.length e) =? 0) = false).
    { apply Z.eqb_neq. destruct e; [congruence | cbn [String.length]; lia]. }
    destruct sg; cbn [append exp_part]; cbn [Ascii.eqb Bool.eqb orb split_sign];
      rewrite Hv, Hcnt; eexists; reflexivity. }
  destruct Hx as (x & Hx).
  assert (Hxhead : forall c r, xt = String c r -> is_digit c = false /\ Ascii.eqb c "." = false).
  { unfold xt. destruct ex as [[sg e]|]; [|discriminate].
    intros c r [= <- _]. split; reflexivity. }
  (* the fraction *)
  assert (Hf : forall v, exists m nf, frac_part v (ft ++ xt) = Some (m, nf, xt)).
  { intros v. unfold ft. destruct frac as [f|].
    - destruct (Hfrac f eq_refl) as (Hfd & Hne).
      destruct (scan_digits_run f xt Hfd (fun c r H => proj1 (Hxhead c r H)) v 0) as (m & Hm).
      rewrite append_assoc. cbn [append frac_part]. cbn [Ascii.eqb Bool.eqb].
      rewrite Hm.
      assert (Hcnt : (0 + Z.of_nat (String.length f) =? 0) = false).
      { apply Z.eqb_neq. destruct f; [congruence | cbn [String.length]; lia]. }
      rewrite Hcnt. eexists _, _. reflexivity.
    - cbn [append]. exists v, 0. destruct xt as [|c r] eqn:Ext; [reflexivity|].
      cbn [frac_part]. now rewrite (proj2 (Hxhead c r eq_refl)). }
  assert (Hfhead : forall c r, ft ++ xt = String c r -> is_digit c = false).
  { unfold ft. destruct frac as [f|]; [intros c r [= <- _]; reflexivity|].
    cbn [append]. intros c r H. exact (proj1 (Hxhead c r H)). }
  (* the integer part *)
  assert (Hi : exists v, int_part (ip ++ ft ++ xt) = Some (v, ft ++ xt)).
  { destruct Hip as [-> | (c & r & -> & Hc & Hz & Hr)].
    - exists 0. reflexivity.
    - destruct (scan_digits_run (String c r) (ft ++ xt)
                  ltac:(cbn [all_digits]; now rewrite Hc, Hr) Hfhead 0 0) as (v & Hv).
      exists v. cbn [append] in Hv |- *. unfold int_part. now rewrite Hc, Hz, Hv. }
  destruct Hi as (v & Hi). destruct (Hf v) as (m & nf & Hfv).
  assert (Hsign : number_sign ((if neg then "-" else "") ++ ip ++ ft ++ xt)
                  = (neg, ip ++ ft ++ xt)).
  { destruct neg; [reflexivity|]. cbn [append].
    destruct Hip as [-> | (c & r & -> & Hc & _)]; [reflexivity|].
    cbn [append]. apply number_sign_other. intros ->. discriminate. }
  unfold parse_number. rewrite Hsign, Hi, Hfv, Hx. eexists. reflexivity.
Qed.

(** *** The numeral of a finite Number *)

Lemma format_digits_number (ds : string) (n k : Z) (c : ascii) (r : string) (neg : bool) :
  ds = String c r ->
  is_digit c = true -> Ascii.eqb c "0" = false -> all_digits r = true ->
  Z.of_nat (String.length ds) = k ->
  exists y : number,
    parse_number ((if neg then "-" else "") ++ format_digits ds n k) = Some (y, "").
Proof.
  intros Hds Hc Hz Hr Hlen.
  assert (Hall : all_digits ds = true) by (rewrite Hds; cbn [all_digits]; now rewrite Hc, Hr).
  assert (Hk : 1 <= k) by (rewrite <- Hlen, Hds; cbn [String.length]; lia).
  unfold format_digits.
  destruct ((k <=? n) && (n <=? 21)) eqn:B1.
  { (* an integer *)
    destruct (parse_number_shape neg (ds ++ zeros (Z.to_nat (n - k))) None None) as (y & Hy).
    - right. exists c, (r ++ zeros (Z.to_nat (n - k))). rewrite Hds.
      repeat split; try assumption.
      rewrite all_digits_app, Hr. apply all_digits_zeros.
    - discriminate.
    - discriminate.
    - rewrite !append_nil_r in Hy. eauto. }
  destruct ((0 <? n) && (n <=? 21)) eqn:B2.
  { (* digits on both sides of the point *)
    apply andb_prop in B2 as [Hn0 Hn21]. apply Z.ltb_lt in Hn0.
    assert (Hnk : n < k).
    { destruct (k <=? n) eqn:E; [|now apply Z.leb_gt in E].
      cbn [andb] in B1. rewrite Hn21 in B1. discriminate. }
    destruct (Z.to_nat n) as [|m] eqn:Hm; [lia|].
    assert (Hdrop : all_digits (drop (S m) ds) = true /\ drop (S m) ds <> "").
    { split; [exact (all_digits_drop (S m) ds Hall)|].
      intros Hempty. pose proof (length_drop (S m) ds) as HL.
      rewrite Hempty in HL. cbn [String.length] in HL. lia. }
    destruct (parse_number_shape neg (take (S m) ds) (Some (drop (S m) ds)) None) as (y & Hy).
    - right. exists c, (take m r). rewrite Hds. cbn [take].
      repeat split; try assumption. now apply all_digits_take.
    - intros f [= <-]. exact Hdrop.
    - discriminate.
    - rewrite !append_nil_r in Hy. eauto. }
  destruct ((-6 <? n) && (n <=? 0)) eqn:B3.
  { (* zeros after the point *)
    destruct (parse_number_shape neg "0" (Some (zeros (Z.to_nat (- n)) ++ ds)) None)
      as (y & Hy).
    - now left.
    - intros f [= <-]. split.
      + rewrite all_digits_app, all_digits_zeros. exact Hall.
      + rewrite Hds. destruct (zeros (Z.to_nat (- n))); discriminate.
    - discriminate.
    - rewrite !append_nil_r in Hy. cbn [append] in Hy |- *. eauto. }
  (* exponent notation *)
  cbv zeta.
  destruct (Z_to_string_digits (Z.abs (n - 1))) as (He & Hne).
  destruct (k =? 1) eqn:K1.
  - apply Z.eqb_eq in K1.
    destruct (parse_number_shape neg ds None
                (Some (negb (0 <=? n - 1), Z_to_string (Z.abs (n - 1))))) as (y & Hy).
    + right. exists c, r. repeat split; assumption.
    + discriminate.
    + intros sg e [= <- <-]. split; assumption.
    + cbn [append] in Hy. destruct (0 <=? n - 1); cbn [negb] in Hy; eauto.
  - apply Z.eqb_neq in K1.
    assert (Hdrop : all_digits (drop 1 ds) = true /\ drop 1 ds <> "").
    { split; [exact (all_digits_drop 1 ds Hall)|].
      intros Hempty. pose proof (length_drop 1 ds) as HL.
      rewrite Hempty in HL. cbn [String.length] in HL. lia. }
    destruct (parse_number_shape neg (take 1 ds) (Some (drop 1 ds))
                (Some (negb (0 <=? n - 1), Z_to_string (Z.abs (n - 1))))) as (y & Hy).
    + right. exists c, "". rewrite Hds. repeat split; assumption.
    + intros f [= <-]. exact Hdrop.
    + intros sg e [= <- <-]. split; assumption.
    + cbn [append] in Hy |- *.
      destruct (0 <=? n - 1); cbn [negb] in Hy; eauto.
Qed.

Lemma decade_unique (d a b : Z) :
  0 <= a -> 0 <= b -> 10 ^ a <= d < 10 ^ (a + 1) -> 10 ^ b <= d < 10 ^ (b + 1) -> a = b.
Proof.
  intros Ha Hb H1 H2.
  destruct (Z.lt_trichotomy a b) as [Hlt | [Heq | Hgt]]; [exfalso | exact Heq | exfalso].
  - assert (10 ^ (a + 1) <= 10 ^ b) by (apply Z.pow_le_mono_r; lia). lia.
  - assert (10 ^ (b + 1) <= 10 ^ a) by (apply Z.pow_le_mono_r; lia). lia.
Qed.

(** The numeral that [Number::toString] writes for a finite Number is a
    JSON number. *)
Theorem to_string_readable (x : number) : is_finite x = true -> readable_numeral x = true.
Proof.
  destruct x as [s | s | | s m e]; try discriminate; intros _.
  - reflexivity.
  - unfold readable_numeral, to_string.
    assert (Hpq : 0 < fst (ratio_of m e) /\ 0 < snd (ratio_of m e)).
    { unfold ratio_of. destruct (0 <=? e) eqn:He; cbn [fst snd].
      - apply Z.leb_le in He. split; [|lia].
        assert (0 < 2 ^ e) by (apply Z.pow_pos_nonneg; lia). lia.
      - apply Z.leb_gt in He. split; [lia|]. apply Z.pow_pos_nonneg; lia. }
    destruct (ratio_of m e) as [p q]. cbn [fst snd] in Hpq. destruct Hpq as [Hp Hq].
    destruct (shortest (S754_finite false m e) p q (dec_exponent p q) 1 16)
      as [[d n] k] eqn:Hsh.
    destruct (shortest_range _ p q _ 16 Hp Hq (dec_exponent_spec p q Hp Hq) 1 d n k
                ltac:(lia) Hsh) as (Hk & Hd).
    assert (Hdpos : 0 < d).
    { assert (0 < 10 ^ (k - 1)) by (apply Z.pow_pos_nonneg; lia). lia. }
    destruct (Z_to_string_pos d Hdpos) as (c & r & Hs & Hc & Hz & Hr & Hb).
    assert (Hlen : Z.of_nat (String.length (Z_to_string d)) = k).
    { rewrite Hs. cbn [String.length]. rewrite Nat2Z.inj_succ in Hb |- *.
      assert (Z.of_nat (String.length r) = k - 1); [|lia].
      apply (decade_unique d (Z.of_nat (String.length r)) (k - 1)); try lia.
      now replace (k - 1 + 1) with k by lia. }
    destruct (format_digits_number (Z_to_string d) n k c r s Hs Hc Hz Hr Hlen) as (y & Hy).
    now rewrite Hy.
Qed.

(** *** What [JSON.parse] builds *)

Lemma defined_legible (v : value) : defined v = true -> legible v = true.
Proof.
  induction v as [| |b|x|s|l IH|fs IH] using value_ind_nested; intros H;
    try reflexivity; try discriminate.
  - cbn [legible]. destruct (is_finite x) eqn:Hfin; [|reflexivity].
    cbn [negb orb]. now apply to_string_readable.
  - cbn [legible defined] in *. rewrite forallb_forall in H |- *.
    rewrite Forall_forall in IH. intros v Hv. apply IH; auto.
  - cbn [legible defined] in *. rewrite forallb_forall in H |- *.
    rewrite Forall_forall in IH. intros kv Hkv. apply IH; auto.
Qed.

(** [JSON.parse(JSON.stringify(v, null, 2))] is [reread v] for every
    value without [undefined]: the text is always read, whatever the
    numbers and the keys. *)
Theorem parse_stringify_defined (v : value) (text : string) :
  defined v = true -> stringify v = Some text -> parse text = Some (reread v).
Proof. intros Hd. apply parse_stringify_reread, defined_legible, Hd. Qed.

End NumeralFacts.

Module ServerFacts.

Import Num Js Json Server Scenarios Behaviour JsonFacts NumeralFacts.

(** *** Running computations *)

Lemma bind_ok {A B} (m : M A) (k : A -> M B) (w w' : World) (a : A) :
  m w = (Ok a, w') -> bind m k w = k a w'.
Proof. intros H. unfold bind. rewrite H. reflexivity. Qed.

Lemma bind_throw {A B} (m : M A) (k : A -> M B) (w w' : World) (e : exn) :
  m w = (Throw e, w') -> bind m k w = (Throw e, w').
Proof. intros H. unfold bind. rewrite H. reflexivity. Qed.

(** *** Substrings *)

Lemma starts_with_refl (s : string) : starts_with s s = Some "".
Proof.
  induction s as [|c s IH]; simpl; [reflexivity|].
  now rewrite Ascii.eqb_refl.
Qed.

Lemma starts_with_app (s t : string) : starts_with s (s ++ t) = Some t.
Proof.
  induction s as [|c s IH]; simpl.
  - now destruct t.
  - now rewrite Ascii.eqb_refl.
Qed.

Lemma includes_refl (s : string) : includes s s = true.
Proof.
  destruct s as [|c s]; simpl; [reflexivity|].
  now rewrite Ascii.eqb_refl, starts_with_refl.
Qed.

Lemma includes_app_l (p s sub : string) :
  includes s sub = true -> includes (p ++ s) sub = true.
Proof.
  intros H. induction p as [|c p IH]; simpl; [exact H|].
  change (match starts_with sub (String c (p ++ s)) with
          | Some _ => true
          | None => includes (p ++ s) sub
          end = true).
  destruct (starts_with sub (String c (p ++ s))); [reflexivity | exact IH].
Qed.

(** *** The price lookup *)

Lemma fetch_run (symbol : string) (w : World) :
  getStockPriceFromTwelveData symbol w =
  match fetch_outcome symbol w with
  | Ok p => (Ok p, after_request symbol w)
  | Throw e =>
      (Throw e,
       emit_in (ConsoleError ("TwelveData API error for " ++ symbol ++ ":") (message e))
         (after_request symbol w))
  end.
Proof.
  unfold getStockPriceFromTwelveData, fetch_outcome, try_catch, bind, axios_get.
  destruct (provider w (requests w) symbol) as [m|data]; [reflexivity|].
  destruct (truthy (js_and data (prop data "price"))); [|reflexivity].
  destruct (parseFloat (prop data "price")); reflexivity.
Qed.

Lemma price_run (symbol : string) (w : World) :
  getStockPrice symbol w =
  match fetch_outcome symbol w with
  | Ok p => (Ok p, after_request symbol w)
  | Throw e =>
      (Throw (Error ("Unable to fetch price for " ++ symbol)),
       emit_in (ConsoleLog ("TwelveData failed for " ++ symbol ++ ", trying Alpha Vantage..."))
         (emit_in (ConsoleError ("TwelveData API error for " ++ symbol ++ ":") (message e))
            (after_request symbol w)))
  end.
Proof.
  unfold getStockPrice, bind, try_catch. rewrite fetch_run.
  destruct (fetch_outcome symbol w); reflexivity.
Qed.

(** C5. [getStockPrice] sends exactly one request, the one of
    [getStockPriceFromTwelveData], whatever the symbol and the world.
    When that attempt succeeds its price is returned.  When it fails, the
    notice "TwelveData failed for <symbol>, trying Alpha Vantage..." is
    logged, nothing else is requested, and the call fails with an [Error]
    whose message is "Unable to fetch price for <symbol>", which contains
    the symbol. *)
Theorem getStockPrice_single_attempt (symbol : string) (w : World) :
  let run := getStockPrice symbol w in
  exists logs : list event,
    trace (snd run) = (logs ++ the_request symbol :: trace w)%list /\
    filter is_request logs = [] /\
    requests (snd run) = S (requests w) /\
    match fst (getStockPriceFromTwelveData symbol w) with
    | Ok price => fst run = Ok price
    | Throw _ =>
        fst run = Throw (Error ("Unable to fetch price for " ++ symbol)) /\
        hd_error logs
          = Some (ConsoleLog ("TwelveData failed for " ++ symbol ++ ", trying Alpha Vantage...")) /\
        includes ("Unable to fetch price for " ++ symbol) symbol = true
    end.
Proof.
  cbv zeta. rewrite price_run, fetch_run.
  destruct (fetch_outcome symbol w) as [p|e]; cbn [fst snd].
  - exists []. repeat split.
  - eexists [_; _].
    cbn [emit_in after_request trace requests app filter is_request hd_error].
    repeat split.
    apply includes_app_l, includes_refl.
Qed.

(** C10, as the code has it.  When the provider answers, a falsy [price]
    field (absent, [null], the empty string, the number 0 or NaN,
    [false]) makes [getStockPriceFromTwelveData] fail with "Invalid
    response format"; whenever a price is returned it is [parseFloat] of
    a truthy [price] field, which therefore is not the number 0. *)
Theorem fetch_rejects_falsy_price (symbol : string) (w : World) (data : value) :
  provider w (requests w) symbol = Resolved data ->
  (truthy (prop data "price") = false ->
   fst (getStockPriceFromTwelveData symbol w) = Throw (Error "Invalid response format")) /\
  (forall p : number,
     fst (getStockPriceFromTwelveData symbol w) = Ok p ->
     truthy (prop data "price") = true /\
     parseFloat (prop data "price") = Some p /\
     forall s : bool, prop data "price" <> VNum (S754_zero s)).
Proof.
  intros Hdata. rewrite fetch_run. unfold fetch_outcome. rewrite Hdata.
  unfold js_and. split.
  - intros Hfalsy.
    destruct (truthy data) eqn:Hd.
    + rewrite Hfalsy. reflexivity.
    + rewrite Hd. reflexivity.
  - intros p. destruct (truthy data) eqn:Hd.
    + destruct (truthy (prop data "price")) eqn:Hp; cbn [fst]; [|discriminate].
      destruct (parseFloat (prop data "price")) as [x|]; cbn [fst]; [|discriminate].
      intros [= <-]. repeat split.
      intros s Hs. rewrite Hs in Hp. discriminate.
    + rewrite Hd. cbn [fst]. discriminate.
Qed.

(** Witness of [fetch_rejects_falsy_price]: the provider reports the
    number 0. *)
Lemma fetch_rejects_falsy_price_witness :
  provider (world (quote_body (VNum zero)) None None) 0 "AAPL"
    = Resolved (VObj [("price", VNum zero)]) /\
  fst (getStockPriceFromTwelveData "AAPL" (world (quote_body (VNum zero)) None None))
    = Throw (Error "Invalid response format").
Proof.
  split; [reflexivity|].
  apply (proj1 (fetch_rejects_falsy_price "AAPL" (world (quote_body (VNum zero)) None None)
                  (VObj [("price", VNum zero)]) eq_refl)).
  reflexivity.
Defined.

(** C10, counterexample.  The provider reports a price of 0 the way it
    reports every price, as the string "0": the field is truthy and
    [getStockPriceFromTwelveData] returns 0. *)
Lemma fetch_returns_zero_price :
  provider (world (quote_body (VStr "0")) None None) 0 "AAPL"
    = Resolved (VObj [("price", VStr "0")]) /\
  fst (getStockPriceFromTwelveData "AAPL" (world (quote_body (VStr "0")) None None))
    = Ok (S754_zero false).
Proof. split; reflexivity. Qed.

(** *** The history file *)

Lemma load_run (w : World) : loadHistory w = (Ok (stored_history w), emit_in FileRead w).
Proof.
  unfold loadHistory, stored_history, try_catch, bind, readFile.
  destruct (file w) as [text|]; [|reflexivity].
  destruct (parse text); reflexivity.
Qed.

(** C6. [loadHistory] always returns a value to its caller, and so does
    the history endpoint built on it; when the file is missing,
    unreadable or not valid JSON, that value is the empty array. *)
Theorem loadHistory_never_fails (w : World) :
  (exists v : value,
     fst (loadHistory w) = Ok v /\ fst (get_history w) = Ok (mkResponse 200 v)) /\
  (history_unusable w = true ->
   fst (loadHistory w) = Ok (VArr []) /\
   fst (get_history w) = Ok (mkResponse 200 (VArr []))).
Proof.
  assert (Hget : fst (get_history w) = Ok (mkResponse 200 (stored_history w))).
  { unfold get_history, try_catch, bind. rewrite load_run. reflexivity. }
  split.
  - exists (stored_history w). rewrite load_run. split; [reflexivity | exact Hget].
  - intros Hbad. rewrite Hget, load_run. cbn [fst].
    assert (Hs : stored_history w = VArr []).
    { unfold history_unusable in Hbad. unfold stored_history.
      destruct (file w) as [text|]; [|reflexivity].
      destruct (parse text); [discriminate | reflexivity]. }
    rewrite Hs. split; reflexivity.
Qed.

(** Witness of [loadHistory_never_fails]: a truncated history file. *)
Lemma loadHistory_never_fails_witness :
  history_unusable (world (Rejected "offline") (Some "[{") None) = true /\
  fst (loadHistory (world (Rejected "offline") (Some "[{") None)) = Ok (VArr []).
Proof.
  split; [reflexivity|].
  apply (proj2 (loadHistory_never_fails (world (Rejected "offline") (Some "[{") None))).
  reflexivity.
Defined.

(** C9. [loadHistory] returns whatever the text of the file parses to.
    When that is not an array it is returned all the same, not replaced
    by the empty array, and the append of lines 130-143 then fails on it
    with a TypeError. *)
Theorem loadHistory_returns_any_json (w : World) (text : string) (v : value) :
  file w = Some text ->
  parse text = Some v ->
  fst (loadHistory w) = Ok v /\
  (isArray v = false ->
   v <> VArr [] /\
   forall response : value,
     exists m : string, fst (append_history response w) = Throw (TypeError m)).
Proof.
  intros Hfile Hparse.
  assert (Hs : stored_history w = v).
  { unfold stored_history. now rewrite Hfile, Hparse. }
  rewrite load_run, Hs. split; [reflexivity|].
  intros Hna. split.
  - intros ->. discriminate.
  - intros response. unfold append_history, bind. rewrite load_run, Hs.
    unfold Date_now. destruct v; try discriminate; cbn; eexists; reflexivity.
Qed.

(** Witness of [loadHistory_returns_any_json]: the file holds an empty
    JSON object. *)
Lemma loadHistory_returns_any_json_witness :
  parse "{}" = Some (VObj []) /\
  fst (loadHistory (world (Rejected "offline") (Some "{}") None)) = Ok (VObj []).
Proof.
  split; [reflexivity|].
  apply (proj1 (loadHistory_returns_any_json
                  (world (Rejected "offline") (Some "{}") None) "{}" (VObj [])
                  eq_refl eq_refl)).
Defined.

(** *** One item of the request *)

Lemma invalid_test_run (stock : value) (w : World) :
  invalid_test (prop stock "symbol") (prop stock "quantity") w
  = match invalid_item stock with
    | Some b => (Ok b, w)
    | None => (Throw not_primitive, w)
    end.
Proof.
  unfold invalid_test, invalid_item.
  destruct (truthy (prop stock "symbol")); cbn [negb orb]; [|reflexivity].
  destruct (truthy (prop stock "quantity")); cbn [negb]; [|reflexivity].
  destruct (le_zero (prop stock "quantity")); reflexivity.
Qed.

(** C4. An item whose [symbol] is falsy, or whose [quantity] is falsy, or
    whose [quantity] is [<= 0] gets the result
    [{ symbol: symbol || 'Unknown', error: 'Invalid symbol or quantity' }]
    pushed onto [results]; the world is left as it was (no request is
    sent, nothing is logged) and the running total is unchanged. *)
Theorem invalid_item_recorded (stock : value) (results : list value) (total : number)
    (w : World) :
  is_nullish stock = false ->
  truthy (prop stock "symbol") = false \/
  truthy (prop stock "quantity") = false \/
  le_zero (prop stock "quantity") = Some true ->
  process_stock stock results total w =
  (Ok (push results
         (VObj [("symbol",
                 if truthy (prop stock "symbol") then prop stock "symbol" else VStr "Unknown");
                ("error", VStr "Invalid symbol or quantity")]),
       total),
   w).
Proof.
  intros Hobj Hbad. unfold process_stock, bind, destructure. rewrite Hobj.
  cbn [ret]. rewrite invalid_test_run. unfold js_or.
  assert (Htest : invalid_item stock = Some true).
  { unfold invalid_item.
    destruct Hbad as [H | [H | H]]; try (rewrite H; cbn; rewrite ?orb_true_r; reflexivity).
    destruct (negb (truthy (prop stock "symbol")) || negb (truthy (prop stock "quantity")));
      [reflexivity | exact H]. }
  rewrite Htest. reflexivity.
Qed.

(** Witness of [invalid_item_recorded]: the item
    [{ symbol: "BAD", quantity: 0 }]. *)
Lemma invalid_item_recorded_witness :
  is_nullish (item "BAD" zero) = false /\
  le_zero (prop (item "BAD" zero) "quantity") = Some true /\
  process_stock (item "BAD" zero) [] zero (world (Rejected "offline") None None) =
  (Ok ([VObj [("symbol", VStr "BAD"); ("error", VStr "Invalid symbol or quantity")]], zero),
   world (Rejected "offline") None None).
Proof.
  split; [reflexivity|]. split; [reflexivity|].
  apply (invalid_item_recorded (item "BAD" zero) [] zero
           (world (Rejected "offline") None None) eq_refl).
  right. right. reflexivity.
Defined.

Lemma same_store_refl (w : World) : same_store w w.
Proof. repeat split. Qed.

Lemma same_store_trans (w1 w2 w3 : World) :
  same_store w1 w2 -> same_store w2 w3 -> same_store w1 w3.
Proof.
  unfold same_store. intros (A1 & A2 & A3 & A4 & A5) (B1 & B2 & B3 & B4 & B5).
  repeat split; congruence.
Qed.

(** An item that passes the test of line 96 has a truthy symbol and a
    quantity that converts to a number above zero, or to NaN. *)
Lemma accepted_quantity (stock : value) :
  invalid_item stock = Some false ->
  truthy (prop stock "symbol") = true /\
  truthy (prop stock "quantity") = true /\
  exists q : number, to_number (prop stock "quantity") = Some q /\ leb q zero = false.
Proof.
  unfold invalid_item, le_zero.
  destruct (truthy (prop stock "symbol")); cbn [negb orb]; [|discriminate].
  destruct (truthy (prop stock "quantity")); cbn [negb]; [|discriminate].
  destruct (to_number (prop stock "quantity")) as [q|]; cbn [option_map]; [|discriminate].
  intros [= H]. repeat split. now exists q.
Qed.

(** One iteration of the loop, by the checks it makes in turn. *)
Lemma process_stock_run (stock : value) (results : list value) (total : number) (w : World) :
  process_stock stock results total w =
  if is_nullish stock then
    (Throw (TypeError ("Cannot destructure property 'symbol' of 'stock' as it is "
                         ++ nullish_name stock ++ ".")), w)
  else
    match invalid_item stock with
    | None => (Throw not_primitive, w)
    | Some true =>
        (Ok (push results (VObj [("symbol", js_or (prop stock "symbol") (VStr "Unknown"));
                                 ("error", VStr "Invalid symbol or quantity")]),
             total), w)
    | Some false =>
        match prop stock "symbol" with
        | VStr s =>
            match fetch_outcome (toUpperCase s) w with
            | Ok p =>
                match to_number (prop stock "quantity") with
                | Some q =>
                    (Ok (push results (priced_result s (prop stock "quantity") q p),
                         add total (round2 (mul p q))),
                     after_request (toUpperCase s) w)
                | None =>
                    (Ok (push results (VObj [("symbol", VStr (toUpperCase s));
                                             ("error", VStr ("Unable to fetch price: "
                                                              ++ message not_primitive))]),
                         total),
                     after_request (toUpperCase s) w)
                end
            | Throw e =>
                (Ok (push results (failed_result s), total),
                 after_failed_request (toUpperCase s) e w)
            end
        | _ => (Throw (TypeError "symbol.toUpperCase is not a function"), w)
        end
    end.
Proof.
  unfold process_stock, bind at 1, destructure.
  destruct (is_nullish stock); [reflexivity|].
  change (ret tt w) with (Ok tt, w). cbv beta iota.
  unfold bind at 1. rewrite invalid_test_run.
  destruct (invalid_item stock) as [[|]|]; [reflexivity| |reflexivity].
  destruct (prop stock "symbol") as [| |b|x|s|l|fs]; try reflexivity.
  unfold try_catch, bind. cbn [call_toUpperCase ret].
  pose proof (price_run (toUpperCase s) w) as Hprice.
  destruct (fetch_outcome (toUpperCase s) w) as [p|e]; rewrite Hprice; [|reflexivity].
  destruct (to_number (prop stock "quantity")); reflexivity.
Qed.

(** One iteration either throws, on the items listed by [aborts] and on
    no other, or pushes the outcome of the item. *)
Lemma aborts_or_runs (stock : value) (results : list value) (total : number) (w : World) :
  (aborts stock = true /\
   exists m : string, process_stock stock results total w = (Throw (TypeError m), w))
  \/
  (aborts stock = false /\
   exists (r : value) (o : option number) (w' : World),
     process_stock stock results total w = (Ok (push results r, add_value total o), w') /\
     item_outcome stock w r o w').
Proof.
  rewrite process_stock_run. unfold aborts.
  destruct (is_nullish stock) eqn:Hn; cbn [orb].
  { left. split; [reflexivity | eexists; reflexivity]. }
  destruct (invalid_item stock) as [[|]|] eqn:Hinv.
  - right. split; [reflexivity|]. eexists _, None, w. split; [reflexivity|].
    now apply outcome_invalid.
  - destruct (accepted_quantity stock Hinv) as (_ & _ & q & Hq & _).
    destruct (prop stock "symbol") as [| |b|x|s|l|fs] eqn:Hsym; cbn [is_string negb];
      try (left; split; [reflexivity | eexists; reflexivity]).
    right. split; [reflexivity|].
    pose proof (price_run (toUpperCase s) w) as Hprice.
    destruct (fetch_outcome (toUpperCase s) w) as [p|e].
    + rewrite Hq.
      eexists _, (Some _), _. split; [reflexivity|]. eapply outcome_priced; eauto.
    + eexists _, None, _. split; [reflexivity|].
      exact (outcome_failed stock w s _ _ Hinv Hsym Hprice).
  - left. split; [reflexivity|]. eexists. reflexivity.
Qed.

(** What an outcome is, in terms of the provider's answer. *)
Lemma outcome_cases (stock r : value) (o : option number) (w w' : World) :
  item_outcome stock w r o w' ->
  (invalid_item stock = Some true /\ o = None /\ w' = w /\
   r = VObj [("symbol", js_or (prop stock "symbol") (VStr "Unknown"));
             ("error", VStr "Invalid symbol or quantity")])
  \/
  (invalid_item stock = Some false /\
   exists s : string,
     prop stock "symbol" = VStr s /\
     match fetch_outcome (toUpperCase s) w with
     | Ok p =>
         exists q : number,
           to_number (prop stock "quantity") = Some q /\
           r = priced_result s (prop stock "quantity") q p /\
           o = Some (round2 (mul p q)) /\
           w' = after_request (toUpperCase s) w
     | Throw e =>
         r = failed_result s /\ o = None /\
         w' = after_failed_request (toUpperCase s) e w
     end).
Proof.
  intros H. inversion H as [Hinv | s q p w1 Hinv Hsym Hq Hrun | s e w1 Hinv Hsym Hrun]; subst.
  - left. repeat split; assumption.
  - right. split; [exact Hinv|]. exists s. split; [exact Hsym|].
    rewrite price_run in Hrun.
    destruct (fetch_outcome (toUpperCase s) w) as [p'|e]; [|discriminate].
    injection Hrun as <- <-. exists q. repeat split. exact Hq.
  - right. split; [exact Hinv|]. exists s. split; [exact Hsym|].
    rewrite price_run in Hrun.
    destruct (fetch_outcome (toUpperCase s) w) as [p'|e']; [discriminate|].
    injection Hrun as <- <-. repeat split.
Qed.

Lemma outcome_functional (stock r1 r2 : value) (o1 o2 : option number) (w w1 w2 : World) :
  item_outcome stock w r1 o1 w1 -> item_outcome stock w r2 o2 w2 ->
  r1 = r2 /\ o1 = o2 /\ w1 = w2.
Proof.
  intros H1 H2.
  destruct (outcome_cases _ _ _ _ _ H1) as [(I1 & -> & -> & ->) | (I1 & s1 & S1 & C1)];
  destruct (outcome_cases _ _ _ _ _ H2) as [(I2 & -> & -> & ->) | (I2 & s2 & S2 & C2)];
    try congruence.
  - repeat split.
  - assert (s2 = s1) by congruence. subst s2.
    destruct (fetch_outcome (toUpperCase s1) w).
    + destruct C1 as (q1 & Q1 & -> & -> & ->), C2 as (q2 & Q2 & -> & -> & ->).
      assert (q2 = q1) by congruence. subst q2. repeat split.
    + destruct C1 as (-> & -> & ->), C2 as (-> & -> & ->). repeat split.
Qed.

Lemma outcome_store (stock r : value) (o : option number) (w w' : World) :
  item_outcome stock w r o w' ->
  same_store w w' /\ file_accesses w' = file_accesses w.
Proof.
  intros H.
  destruct (outcome_cases _ _ _ _ _ H) as [(_ & _ & -> & _) | (_ & s & _ & C)].
  - split; [apply same_store_refl | reflexivity].
  - destruct (fetch_outcome (toUpperCase s) w);
      [destruct C as (q & _ & _ & _ & ->) | destruct C as (_ & _ & ->)];
      (split; [repeat split | reflexivity]).
Qed.

Lemma outcome_requests (stock r : value) (o : option number) (w w' : World) :
  item_outcome stock w r o w' ->
  requests_sent w' =
  ((if passes stock then [the_request (symbol_of stock)] else []) ++ requests_sent w)%list.
Proof.
  intros H. unfold passes, symbol_of.
  destruct (outcome_cases _ _ _ _ _ H) as [(-> & _ & -> & _) | (-> & s & -> & C)].
  - reflexivity.
  - destruct (fetch_outcome (toUpperCase s) w);
      [destruct C as (q & _ & _ & _ & ->) | destruct C as (_ & _ & ->)]; reflexivity.
Qed.

Lemma outcome_fields (stock r : value) (o : option number) (w w' : World) :
  item_outcome stock w r o w' ->
  match o with
  | Some totalValue =>
      is_error_result r = false /\
      prop r "totalValue" = VStr (toFixed2 totalValue) /\
      exists price q : number,
        prop r "currentPrice" = VStr (toFixed2 price) /\
        prop r "quantity" = prop stock "quantity" /\
        to_number (prop stock "quantity") = Some q /\
        totalValue = round2 (mul price q)
  | None => is_error_result r = true
  end.
Proof.
  intros [Hinv | s q price w1 Hinv Hsym Hq Hprice | s error w1 Hinv Hsym Hprice].
  - reflexivity.
  - split; [reflexivity|]. split; [reflexivity|].
    exists price, q. repeat split. exact Hq.
  - reflexivity.
Qed.

(** *** The loop over the items *)

Lemma loop_store (stocks : list value) (w w' : World) (outs : list (value * option number)) :
  loop_outcomes stocks w outs w' ->
  same_store w w' /\ file_accesses w' = file_accesses w.
Proof.
  induction 1 as [w | stock stocks w w1 w2 r o outs Hone Hrest IH].
  - split; [apply same_store_refl | reflexivity].
  - destruct (outcome_store _ _ _ _ _ Hone) as (S1 & F1). destruct IH as (S2 & F2).
    split; [eapply same_store_trans; eassumption | congruence].
Qed.

(** The loop either meets an item on which it throws, or gives every item
    an outcome. *)
Lemma loop_aborts_or_runs (stocks : list value) :
  forall (results : list value) (total : number) (w : World),
  (Exists (fun stock => aborts stock = true) stocks /\
   exists (m : string) (w' : World),
     process_stocks stocks results total w = (Throw (TypeError m), w') /\
     same_store w w' /\ file_accesses w' = file_accesses w)
  \/
  (Forall (fun stock => aborts stock = false) stocks /\
   exists (outs : list (value * option number)) (w' : World),
     process_stocks stocks results total w
       = (Ok ((results ++ map fst outs)%list, fold_left add_value (map snd outs) total), w') /\
     loop_outcomes stocks w outs w').
Proof.
  induction stocks as [|stock stocks IH]; intros results total w.
  - right. split; [constructor|]. exists [], w. cbn. rewrite app_nil_r.
    split; [reflexivity | constructor].
  - cbn [process_stocks]. unfold bind.
    destruct (aborts_or_runs stock results total w)
      as [(Hab & m & Hrun) | (Hab & r & o & w1 & Hrun & Hout)]; rewrite Hrun.
    + left. split; [now apply Exists_cons_hd|]. exists m, w.
      split; [reflexivity|]. split; [apply same_store_refl | reflexivity].
    + cbn [fst snd].
      destruct (outcome_store _ _ _ _ _ Hout) as (S1 & F1).
      destruct (IH (push results r) (add_value total o) w1)
        as [(Hex & m & w' & Hrest & S2 & F2) | (Hall & outs & w' & Hrest & Hloop)].
      * left. split; [now apply Exists_cons_tl|]. exists m, w'.
        split; [exact Hrest|]. split; [eapply same_store_trans; eassumption | congruence].
      * right. split; [now constructor|]. exists ((r, o) :: outs), w'.
        rewrite Hrest. unfold push. rewrite <- app_assoc. cbn.
        split; [reflexivity|]. econstructor; eassumption.
Qed.

Lemma no_abort (stocks : list value) :
  Forall (fun stock => aborts stock = false) stocks ->
  Exists (fun stock => aborts stock = true) stocks -> False.
Proof.
  intros Hall Hex. apply Exists_exists in Hex. destruct Hex as (stock & Hin & Hab).
  rewrite Forall_forall in Hall. specialize (Hall stock Hin). congruence.
Qed.

Lemma process_stocks_returns (stocks : list value) :
  forall (results : list value) (total : number) (w w' : World) (st : list value * number),
  process_stocks stocks results total w = (Ok st, w') ->
  (exists outs : list (value * option number),
     st = ((results ++ map fst outs)%list, fold_left add_value (map snd outs) total) /\
     loop_outcomes stocks w outs w') /\
  same_store w w' /\
  Forall (fun stock => aborts stock = false) stocks.
Proof.
  intros results total w w' st Hrun.
  destruct (loop_aborts_or_runs stocks results total w)
    as [(_ & m & w1 & Hthrow & _) | (Hall & outs & w1 & Hok & Hloop)];
    rewrite Hrun in *; [discriminate|].
  injection Hok as -> ->.
  split; [exists outs; split; [reflexivity | exact Hloop]|].
  split; [exact (proj1 (loop_store _ _ _ _ Hloop)) | exact Hall].
Qed.

Lemma loop_outcomes_pointwise (stocks : list value) (w w' : World)
    (outs : list (value * option number)) :
  loop_outcomes stocks w outs w' ->
  Forall2 (fun stock out => exists w0 w1, item_outcome stock w0 (fst out) (snd out) w1)
    stocks outs.
Proof.
  induction 1 as [|stock stocks w w1 w2 r o outs Hone _ IH]; constructor.
  - exists w, w1. exact Hone.
  - exact IH.
Qed.

(** *** Building the response *)

Lemma calculate_run (stocks : list value) (w : World) :
  calculate stocks w =
  match process_stocks stocks [] zero w with
  | (Ok st, w1) => (Ok (response_of (fst st) (snd st) (clock w1 (ticks w1))), tick w1)
  | (Throw e, w1) => (Throw e, w1)
  end.
Proof.
  unfold calculate, bind.
  destruct (process_stocks stocks [] zero w) as [[st|e] w1]; reflexivity.
Qed.

Lemma calculate_returns (stocks : list value) (w w' : World) (response : value) :
  calculate stocks w = (Ok response, w') ->
  exists (outs : list (value * option number)) (w1 : World),
    loop_outcomes stocks w outs w1 /\
    response = response_of (map fst outs) (sum_values (map snd outs)) (clock w (ticks w)) /\
    w' = tick w1 /\ same_store w w1 /\
    Forall (fun stock => aborts stock = false) stocks.
Proof.
  rewrite calculate_run. intros Hrun.
  destruct (process_stocks stocks [] zero w) as [[st|e] w1] eqn:Hloop; [|discriminate].
  destruct (process_stocks_returns _ _ _ _ _ _ Hloop) as ((outs & -> & Hall) & Hst & Hab).
  injection Hrun as <- <-. exists outs, w1. cbn [fst snd app].
  destruct Hst as (_ & Hc & Ht & _).
  split; [exact Hall|]. split; [now rewrite Hc, Ht|].
  split; [reflexivity|]. split; [|exact Hab].
  exact (proj1 (loop_store _ _ _ _ Hall)).
Qed.

(** Without an item on which the loop throws, the response is built. *)
Lemma calculate_ok (stocks : list value) (w : World) :
  Forall (fun stock => aborts stock = false) stocks ->
  exists (outs : list (value * option number)) (w1 : World),
    loop_outcomes stocks w outs w1 /\
    calculate stocks w
      = (Ok (response_of (map fst outs) (sum_values (map snd outs)) (clock w (ticks w))),
         tick w1) /\
    same_store w w1.
Proof.
  intros Hall. rewrite calculate_run.
  destruct (loop_aborts_or_runs stocks [] zero w)
    as [(Hex & _) | (_ & outs & w1 & Hloop & Hout)]; [destruct (no_abort _ Hall Hex)|].
  rewrite Hloop. cbn [fst snd app]. exists outs, w1.
  pose proof (proj1 (loop_store _ _ _ _ Hout)) as Hst.
  split; [exact Hout|]. split; [|exact Hst].
  destruct Hst as (_ & Hc & Ht & _). now rewrite Hc, Ht.
Qed.

(** *** Recording the response *)

Lemma serialize_array (indent : string) (l : list value) :
  exists text : string, serialize indent (VArr l) = Some text.
Proof. cbn. eexists. reflexivity. Qed.

Lemma saveHistory_run (l : list value) (w : World) :
  exists text : string,
    stringify (VArr l) = Some text /\
    saveHistory (VArr l) w =
    match write_error w with
    | None =>
        (Ok tt,
         mkWorld (provider w) (requests w) (clock w) (ticks w) (Some text) None
           (FileWrite text :: trace w))
    | Some m =>
        (Ok tt, emit_in (ConsoleError "Error saving history:" m) (emit_in (FileWrite text) w))
    end.
Proof.
  destruct (serialize_array "" l) as (text & Htext).
  exists text. split; [exact Htext|].
  unfold saveHistory, try_catch, writeFile. unfold stringify. rewrite Htext.
  destruct (write_error w); reflexivity.
Qed.

Lemma append_run (response : value) (w : World) (l : list value) :
  stored_history w = VArr l ->
  append_history response w
    = saveHistory (VArr (capped (spread_with_id response (clock w (ticks w)) :: l)))
        (before_save w).
Proof.
  intros Hs. unfold append_history, bind. rewrite load_run, Hs. reflexivity.
Qed.

Lemma capped_cons (entry : value) (l : list value) :
  capped (entry :: l) = entry :: firstn 49 l.
Proof.
  unfold capped. destruct (50 <? List.length (entry :: l))%nat eqn:H.
  - reflexivity.
  - apply Nat.ltb_ge in H. cbn [List.length] in H.
    rewrite firstn_all2 by lia. reflexivity.
Qed.

Lemma firstn_removelast (l : list value) (n : nat) :
  List.length l = S n -> firstn n l = removelast l.
Proof.
  revert n. induction l as [|a l IH]; intros n H; [discriminate|].
  destruct l as [|b l].
  - cbn in H. injection H as <-. reflexivity.
  - destruct n as [|n]; [discriminate|].
    cbn [firstn]. rewrite (IH n) by (cbn in *; lia). reflexivity.
Qed.

(** *** Decimal numerals *)

Lemma digit_char_is_digit (d : Z) : 0 <= d < 10 -> is_digit (digit_char d) = true.
Proof.
  intros H.
  assert (Hd : d = 0 \/ d = 1 \/ d = 2 \/ d = 3 \/ d = 4 \/ d = 5 \/ d = 6 \/ d = 7
               \/ d = 8 \/ d = 9) by lia.
  repeat (destruct Hd as [-> | Hd]; [reflexivity|]). subst. reflexivity.
Qed.

Lemma digits_point_2_intro (ds : string) (a b : ascii) :
  ds <> "" -> all_digits ds = true -> is_digit a = true -> is_digit b = true ->
  digits_point_2 (ds ++ String "." (String a (String b ""))) = true.
Proof.
  intros Hne Hds Ha Hb. induction ds as [|c ds IH]; [contradiction|].
  cbn [all_digits] in Hds. apply andb_prop in Hds as [Hc Hds].
  cbn [append digits_point_2]. rewrite Hc. cbn [andb].
  destruct ds as [|c' ds].
  - cbn. now rewrite Ha, Hb.
  - rewrite IH by (try discriminate; exact Hds). apply orb_true_r.
Qed.

Lemma two_decimals_unsigned (c : ascii) (s : string) :
  c <> "-"%char -> two_decimals (String c s) = digits_point_2 (String c s).
Proof.
  intros Hc. unfold two_decimals.
  destruct c as [[] [] [] [] [] [] [] []]; try reflexivity.
  exfalso. apply Hc. reflexivity.
Qed.

Lemma fixed2_two_decimals (n : Z) (neg : bool) :
  0 <= n -> two_decimals ((if neg then "-" else "") ++ fixed2 n) = true.
Proof.
  intros Hn. unfold fixed2.
  destruct (Z_to_string_digits (n / 100)) as [Hds Hne].
  assert (H2 : digits_point_2
                 (Z_to_string (n / 100)
                    ++ String "." (String (digit_char ((n / 10) mod 10))
                                     (String (digit_char (n mod 10)) ""))) = true).
  { apply digits_point_2_intro; auto; apply digit_char_is_digit.
    - apply Z.mod_pos_bound. lia.
    - apply Z.mod_pos_bound. lia. }
  destruct neg.
  - exact H2.
  - cbn [append].
    destruct (Z_to_string (n / 100)) as [|c s] eqn:E; [contradiction|].
    cbn [all_digits] in Hds. apply andb_prop in Hds as [Hc _].
    cbn [append] in H2 |- *.
    rewrite two_decimals_unsigned; [exact H2|].
    intros ->. discriminate.
Qed.

Lemma round_cents_nonneg (m : positive) (e : Z) : 0 <= round_cents m e.
Proof.
  unfold round_cents. destruct (0 <=? e) eqn:E.
  - apply Z.leb_le in E. apply Z.mul_nonneg_nonneg; [lia|]. apply Z.pow_nonneg. lia.
  - apply Z.leb_gt in E. apply Z.div_pos.
    + assert (0 <= 2 ^ (- e)) by (apply Z.pow_nonneg; lia). lia.
    + apply Z.pow_pos_nonneg; lia.
Qed.

(** [toFixed(2)] writes a finite number below 10^21 with exactly two
    decimal places. *)
Lemma toFixed2_two_decimals (x : number) :
  is_finite x = true -> below_1e21 x = true -> two_decimals (toFixed2 x) = true.
Proof.
  destruct x as [s|s| |s m e]; cbn [is_finite below_1e21 toFixed2]; try discriminate.
  - reflexivity.
  - intros _ H. apply negb_true_iff in H. rewrite H.
    apply fixed2_two_decimals, round_cents_nonneg.
Qed.

(** *** Computations that do not look at the fate of writes *)

Create HintDb oblivious.

Lemma oblivious_ret {A} (a : A) : oblivious (ret a).
Proof. intros e w. reflexivity. Qed.

Lemma oblivious_throw {A} (x : exn) : oblivious (@throw A x).
Proof. intros e w. reflexivity. Qed.

Lemma oblivious_emit (ev : event) : oblivious (emit ev).
Proof. intros e w. reflexivity. Qed.

Lemma oblivious_console_error (text detail : string) : oblivious (console_error text detail).
Proof. apply oblivious_emit. Qed.

Lemma oblivious_console_log (text : string) : oblivious (console_log text).
Proof. apply oblivious_emit. Qed.

Lemma oblivious_bind {A B} (m : M A) (k : A -> M B) :
  oblivious m -> (forall a, oblivious (k a)) -> oblivious (bind m k).
Proof.
  intros Hm Hk e w. unfold bind. rewrite Hm.
  destruct (m w) as [[a|x] w']; cbn [fst snd]; [apply Hk | reflexivity].
Qed.

Lemma oblivious_try {A} (m : M A) (h : exn -> M A) :
  oblivious m -> (forall x, oblivious (h x)) -> oblivious (try_catch m h).
Proof.
  intros Hm Hh e w. unfold try_catch. rewrite Hm.
  destruct (m w) as [[a|x] w']; cbn [fst snd]; [reflexivity | apply Hh].
Qed.

Lemma oblivious_axios_get (url symbol apikey : string) (timeout : Z) :
  oblivious (axios_get url symbol apikey timeout).
Proof.
  intros e w. unfold axios_get. cbn.
  destruct (provider w (requests w) symbol); reflexivity.
Qed.

Lemma oblivious_readFile : oblivious readFile.
Proof. intros e w. unfold readFile. cbn. destruct (file w); reflexivity. Qed.

Lemma oblivious_Date_now : oblivious Date_now.
Proof. intros e w. reflexivity. Qed.

Lemma oblivious_converted {A} (r : option A) : oblivious (converted r).
Proof. intros e w. destruct r; reflexivity. Qed.

Lemma oblivious_invalid_test (symbol quantity : value) :
  oblivious (invalid_test symbol quantity).
Proof.
  intros e w. unfold invalid_test.
  destruct (negb (truthy symbol)); [reflexivity|].
  destruct (negb (truthy quantity)); [reflexivity|].
  apply oblivious_converted.
Qed.

Lemma oblivious_destructure (property source : string) (v : value) :
  oblivious (destructure property source v).
Proof. intros e w. unfold destructure. destruct (is_nullish v); reflexivity. Qed.

#[local] Hint Resolve oblivious_ret oblivious_throw oblivious_emit oblivious_console_error
  oblivious_console_log oblivious_axios_get oblivious_readFile oblivious_Date_now
  oblivious_converted oblivious_invalid_test oblivious_destructure : oblivious.

Ltac oblivious_step :=
  match goal with
  | |- oblivious (bind _ _) => apply oblivious_bind
  | |- oblivious (try_catch _ _) => apply oblivious_try
  | |- forall _, _ => intro
  | |- oblivious (if ?b then _ else _) => destruct b
  | |- oblivious (match ?x with _ => _ end) => destruct x
  | |- _ => solve [auto with oblivious]
  end.

Ltac oblivious := repeat oblivious_step.

Lemma oblivious_getStockPrice (symbol : string) : oblivious (getStockPrice symbol).
Proof. unfold getStockPrice, getStockPriceFromTwelveData. oblivious. Qed.

Lemma oblivious_loadHistory : oblivious loadHistory.
Proof. unfold loadHistory. oblivious. Qed.

Lemma oblivious_process_stock (stock : value) (results : list value) (total : number) :
  oblivious (process_stock stock results total).
Proof.
  pose proof oblivious_getStockPrice.
  unfold process_stock, call_toUpperCase. oblivious.
Qed.

Lemma oblivious_process_stocks (stocks : list value) :
  forall (results : list value) (total : number),
    oblivious (process_stocks stocks results total).
Proof.
  induction stocks as [|stock stocks IH]; intros results total; cbn [process_stocks].
  - apply oblivious_ret.
  - apply oblivious_bind; [apply oblivious_process_stock | intros st; apply IH].
Qed.

Lemma oblivious_calculate (stocks : list value) : oblivious (calculate stocks).
Proof.
  pose proof (oblivious_process_stocks stocks).
  unfold calculate, Date_toISOString. oblivious.
Qed.

Lemma oblivious_unshift_capped (history entry : value) :
  oblivious (unshift_capped history entry).
Proof. unfold unshift_capped. oblivious. Qed.

Lemma blind_of_oblivious {A} (m : M A) : oblivious m -> blind m.
Proof. intros H e w. rewrite H. reflexivity. Qed.

Lemma blind_bind {A B} (m : M A) (k : A -> M B) :
  oblivious m -> (forall a, blind (k a)) -> blind (bind m k).
Proof.
  intros Hm Hk e w. unfold bind. rewrite Hm.
  destruct (m w) as [[a|x] w']; cbn [fst snd]; [apply Hk | reflexivity].
Qed.

Lemma blind_try {A} (m : M A) (h : exn -> M A) :
  blind m -> (forall x w w', fst (h x w) = fst (h x w')) -> blind (try_catch m h).
Proof.
  intros Hm Hh e w. unfold try_catch. specialize (Hm e w).
  destruct (m (set_write_error e w)) as [[a|x] w1], (m w) as [[a'|x'] w1'];
    cbn [fst] in Hm; try discriminate.
  - exact Hm.
  - injection Hm as ->. apply Hh.
Qed.

Lemma saveHistory_ok (history : value) (w : World) : fst (saveHistory history w) = Ok tt.
Proof.
  unfold saveHistory, try_catch, writeFile, throw, console_error, emit.
  destruct (stringify history); [destruct (write_error w)|]; reflexivity.
Qed.

Lemma append_history_split (response : value) (w : World) :
  append_history response w
  = bind (history <- loadHistory ;;
          id <- Date_now ;;
          unshift_capped history (spread_with_id response id))
      saveHistory w.
Proof.
  unfold append_history, bind.
  destruct (loadHistory w) as [[history|x] w0]; [|reflexivity].
  destruct (Date_now w0) as [[id|x] w1]; [|reflexivity].
  destruct (unshift_capped history (spread_with_id response id) w1) as [[h|x] w2];
    reflexivity.
Qed.

Lemma blind_append_then {A} (response : value) (a : A) :
  blind (append_history response ;;; ret a).
Proof.
  assert (Hpre : oblivious (history <- loadHistory ;;
                            id <- Date_now ;;
                            unshift_capped history (spread_with_id response id))).
  { pose proof oblivious_loadHistory. pose proof oblivious_unshift_capped. oblivious. }
  intros e w. unfold bind at 1 2. rewrite !append_history_split.
  unfold bind at 1 4. rewrite Hpre.
  destruct (bind loadHistory _ w) as [[h|x] w1]; cbn [fst snd]; [|reflexivity].
  pose proof (saveHistory_ok h w1) as H1.
  pose proof (saveHistory_ok h (set_write_error e w1)) as H2.
  destruct (saveHistory h w1) as [r1 w2], (saveHistory h (set_write_error e w1)) as [r2 w2'].
  cbn [fst] in H1, H2. subst. reflexivity.
Qed.

Lemma blind_post_portfolio (req_body : value) : blind (post_portfolio req_body).
Proof.
  unfold post_portfolio. apply blind_try; [|reflexivity].
  apply blind_bind; [unfold destructure; oblivious|]. intros _.
  destruct (_ || _ || _)%bool; [apply blind_of_oblivious, oblivious_ret|].
  apply blind_bind; [apply oblivious_calculate|]. intros response.
  apply blind_append_then.
Qed.

(** *** The handler of POST /api/portfolio *)

Lemma post_portfolio_run (req_body : value) (stocks : list value) (w : World) :
  prop req_body "stocks" = VArr stocks ->
  stocks <> [] ->
  post_portfolio req_body w
  = try_catch (response <- calculate stocks ;;
               append_history response ;;;
               ret (mkResponse 200 response))
      portfolio_failure w.
Proof.
  intros Hstocks Hne.
  destruct req_body; try discriminate.
  unfold post_portfolio, try_catch, bind at 1, destructure. cbn [is_nullish ret].
  rewrite Hstocks. cbn [truthy isArray elements negb orb].
  destruct stocks as [|stock stocks]; [contradiction|]. reflexivity.
Qed.

Lemma stored_history_same_file (w w' : World) :
  file w' = file w -> stored_history w' = stored_history w.
Proof. unfold stored_history. now intros ->. Qed.

Lemma append_history_array (response : value) (w : World) (l : list value) :
  stored_history w = VArr l ->
  exists text : string,
    stringify (VArr (capped (spread_with_id response (clock w (ticks w)) :: l))) = Some text /\
    append_history response w =
    match write_error w with
    | None =>
        (Ok tt,
         mkWorld (provider w) (requests w) (clock w) (S (ticks w)) (Some text) None
           (FileWrite text :: FileRead :: trace w))
    | Some m =>
        (Ok tt,
         emit_in (ConsoleError "Error saving history:" m)
           (emit_in (FileWrite text) (before_save w)))
    end.
Proof.
  intros Hs. rewrite (append_run response w l Hs).
  destruct (saveHistory_run (capped (spread_with_id response (clock w (ticks w)) :: l))
              (before_save w)) as (text & Htext & Hrun).
  exists text. split; [exact Htext|]. rewrite Hrun. reflexivity.
Qed.

Lemma append_not_array (response : value) (w : World) :
  isArray (stored_history w) = false ->
  exists m : string, append_history response w = (Throw (TypeError m), before_save w).
Proof.
  intros Hna. unfold append_history, bind. rewrite load_run.
  cbn [Date_now emit_in clock ticks].
  destruct (stored_history w); try discriminate; eexists; reflexivity.
Qed.

Lemma post_loop_throws (req_body : value) (stocks : list value) (w w1 : World) (e : exn) :
  prop req_body "stocks" = VArr stocks ->
  stocks <> [] ->
  process_stocks stocks [] zero w = (Throw e, w1) ->
  post_portfolio req_body w
  = (Ok internal_error, emit_in (ConsoleError "Portfolio calculation error:" (message e)) w1).
Proof.
  intros Hs Hne Hloop. rewrite (post_portfolio_run _ _ _ Hs Hne).
  unfold try_catch, bind at 1. rewrite calculate_run, Hloop. reflexivity.
Qed.

Lemma post_loop_returns (req_body : value) (stocks : list value) (w w1 : World)
    (st : list value * number) :
  prop req_body "stocks" = VArr stocks ->
  stocks <> [] ->
  process_stocks stocks [] zero w = (Ok st, w1) ->
  post_portfolio req_body w
  = match append_history (response_of (fst st) (snd st) (clock w1 (ticks w1))) (tick w1) with
    | (Ok _, w2) => (Ok (mkResponse 200 (response_of (fst st) (snd st) (clock w1 (ticks w1)))), w2)
    | (Throw e, w2) =>
        (Ok internal_error, emit_in (ConsoleError "Portfolio calculation error:" (message e)) w2)
    end.
Proof.
  intros Hs Hne Hloop. rewrite (post_portfolio_run _ _ _ Hs Hne).
  unfold try_catch, bind at 1. rewrite calculate_run, Hloop. unfold bind.
  destruct (append_history _ (tick w1)) as [[u|e] w2]; reflexivity.
Qed.

(** The handler after a computed response, on a history that is a
    sequence: the reply, and the world it leaves. *)
Lemma post_after_response (req_body : value) (stocks : list value) (response : value)
    (w w1 : World) (l : list value) :
  prop req_body "stocks" = VArr stocks ->
  stocks <> [] ->
  calculate stocks w = (Ok response, w1) ->
  stored_history w = VArr l ->
  exists text : string,
    stringify (VArr (spread_with_id response (clock w1 (ticks w1)) :: firstn 49 l))
      = Some text /\
    post_portfolio req_body w
      = (Ok (mkResponse 200 response),
         match write_error w with
         | None =>
             mkWorld (provider w1) (requests w1) (clock w1) (S (ticks w1)) (Some text) None
               (FileWrite text :: FileRead :: trace w1)
         | Some m =>
             emit_in (ConsoleError "Error saving history:" m)
               (emit_in (FileWrite text) (before_save w1))
         end).
Proof.
  intros Hstocks Hne Hrun Hs.
  destruct (calculate_returns stocks w w1 response Hrun)
    as (outs & w0 & _ & _ & -> & (_ & _ & _ & Hfile & Herr) & _).
  assert (Hs1 : stored_history (tick w0) = VArr l)
    by (rewrite (stored_history_same_file w (tick w0) Hfile); exact Hs).
  destruct (append_history_array response (tick w0) l Hs1) as (text & Htext & Happ).
  rewrite capped_cons in Htext. exists text. split; [exact Htext|].
  rewrite (post_portfolio_run req_body stocks w Hstocks Hne).
  unfold try_catch. rewrite (bind_ok _ _ _ _ _ Hrun). unfold bind. rewrite Happ.
  change (write_error (tick w0)) with (write_error w0). rewrite Herr.
  destruct (write_error w); reflexivity.
Qed.

Lemma history_in_file_stored (w : World) (l : list value) :
  history_in_file w l -> stored_history w = VArr l.
Proof.
  unfold history_in_file, history_unusable, stored_history.
  intros [(text & -> & ->) | (Hbad & ->)]; [reflexivity|].
  destruct (file w) as [text|]; [|reflexivity].
  destruct (parse text); [discriminate | reflexivity].
Qed.

Lemma forallb_firstn {A} (f : A -> bool) (n : nat) (l : list A) :
  forallb f l = true -> forallb f (firstn n l) = true.
Proof.
  revert n. induction l as [|a l IH]; intros [|n] H; try reflexivity.
  cbn [firstn forallb] in *. apply andb_prop in H as [H1 H2].
  now rewrite H1, (IH n H2).
Qed.

Lemma spread_with_id_defined (response : value) (id : Z) :
  defined response = true -> defined (spread_with_id response id) = true.
Proof.
  destruct response; try reflexivity. cbn [spread_with_id defined]. intros H.
  now apply obj_set_defined.
Qed.

Lemma history_in_file_defined (w : World) (l : list value) :
  history_in_file w l -> defined (VArr l) = true.
Proof.
  intros [(text & _ & Hparse) | (_ & ->)]; [|reflexivity].
  exact (parse_defined _ _ Hparse).
Qed.




(** C2, as the code has it.  The loop and the construction of the
    response succeed on every list without an item on which the loop
    throws, and whenever they do: the response holds one outcome per
    item; an item that produced an error adds nothing to the total; a
    priced item adds its [totalValue], which is
    [parseFloat((price * quantity).toFixed(2))] for the price that
    [getStockPrice] returned and the number the quantity converts to,
    and is written in the result with [toFixed(2)];
    [totalPortfolioValue] is [toFixed(2)] of the sum of these values,
    added from zero in the order of the items; and that string has
    exactly two decimal places when the sum is finite and below 10^21 in
    absolute value. *)
Theorem total_is_sum_of_item_values (stocks : list value) (w : World) :
  (Forall (fun stock => aborts stock = false) stocks ->
   exists (response : value) (w' : World), calculate stocks w = (Ok response, w')) /\
  (forall (response : value) (w' : World),
     calculate stocks w = (Ok response, w') ->
     exists (outs : list (value * option number)) (timestamp : string) (w1 : World),
       response = VObj [("stocks", VArr (map fst outs));
                        ("totalPortfolioValue", VStr (toFixed2 (sum_values (map snd outs))));
                        ("timestamp", VStr timestamp)] /\
       loop_outcomes stocks w outs w1 /\
       Forall2
         (fun stock out =>
            match snd out with
            | Some totalValue =>
                is_error_result (fst out) = false /\
                prop (fst out) "totalValue" = VStr (toFixed2 totalValue) /\
                exists price q : number,
                  prop (fst out) "currentPrice" = VStr (toFixed2 price) /\
                  prop (fst out) "quantity" = prop stock "quantity" /\
                  to_number (prop stock "quantity") = Some q /\
                  totalValue = round2 (mul price q)
            | None => is_error_result (fst out) = true
            end)
         stocks outs /\
       (is_finite (sum_values (map snd outs)) = true ->
        below_1e21 (sum_values (map snd outs)) = true ->
        two_decimals (toFixed2 (sum_values (map snd outs))) = true)).
Proof.
  split.
  - intros Hok. destruct (calculate_ok stocks w Hok) as (outs & w1 & _ & Hrun & _).
    eexists. exists (tick w1). exact Hrun.
  - intros response w' Hrun.
    destruct (calculate_returns stocks w w' response Hrun)
      as (outs & w1 & Hall & -> & _).
    exists outs. eexists. exists w1. split; [reflexivity|]. split; [exact Hall|]. split.
    + generalize (loop_outcomes_pointwise _ _ _ _ Hall). apply Forall2_impl.
      intros stock out (w0 & w0' & H1). exact (outcome_fields _ _ _ _ _ H1).
    + apply toFixed2_two_decimals.
Qed.

(** Witness of [total_is_sum_of_item_values]: two shares at 150.00 and a
    rejected item. *)
Lemma total_is_sum_of_item_values_witness :
  Forall (fun stock => aborts stock = false) sample_items /\
  (exists (response : value) (w' : World),
     calculate sample_items quoting_150 = (Ok response, w')) /\
  exists (outs : list (value * option number)) (w1 : World),
    toFixed2 (sum_values (map snd outs)) = "300.00" /\
    loop_outcomes sample_items quoting_150 outs w1.
Proof.
  assert (Hok : Forall (fun stock => aborts stock = false) sample_items)
    by (repeat constructor).
  split; [exact Hok|]. split.
  - exact (proj1 (total_is_sum_of_item_values sample_items quoting_150) Hok).
  - destruct (proj2 (total_is_sum_of_item_values sample_items quoting_150)
                (fst_ok (calculate sample_items quoting_150))
                (snd (calculate sample_items quoting_150)) eq_refl)
      as (outs & timestamp & w1 & Hresp & Hall & _).
    exists outs, w1. split; [|exact Hall].
    assert (Hc : fst_ok (calculate sample_items quoting_150)
                 = VObj [("stocks",
                          VArr [VObj [("symbol", VStr "AAPL");
                                      ("quantity", VNum (of_Z 2));
                                      ("currentPrice", VStr "150.00");
                                      ("totalValue", VStr "300.00")];
                                VObj [("symbol", VStr "BAD");
                                      ("error", VStr "Invalid symbol or quantity")]]);
                         ("totalPortfolioValue", VStr "300.00");
                         ("timestamp", VStr "2024-10-27T00:00:00.000Z")])
      by (vm_compute; reflexivity).
    rewrite Hc in Hresp. now injection Hresp as _ <- _.
Defined.

(** C2, counterexample.  One share-like item of quantity 1e21 priced at
    "1": the item's value and the total are 10^21, which [toFixed(2)]
    writes "1e+21", not a numeral with two decimal places. *)
Lemma total_in_exponent_notation :
  fst (calculate [item "AAPL" sextillion] (world (quote_body (VStr "1")) None None))
  = Ok (VObj [("stocks",
               VArr [VObj [("symbol", VStr "AAPL");
                           ("quantity", VNum sextillion);
                           ("currentPrice", VStr "1.00");
                           ("totalValue", VStr "1e+21")]]);
              ("totalPortfolioValue", VStr "1e+21");
              ("timestamp", VStr "2024-10-27T00:00:00.000Z")]) /\
  two_decimals "1e+21" = false.
Proof. split; vm_compute; reflexivity. Qed.

(** C3. Whatever sequence [l] the history file holds (the array its text
    parses to, or no entry when the file is missing or unusable) and
    whatever the response, the append of lines 130-143 reads the file,
    hands to [saveHistory] the new entry followed by the first 49
    elements of [l], and writes the text of that sequence, which is the
    content of the file afterwards when the write succeeds.  The new
    entry is at index 0; the sequence has [min 50 (length l + 1)]
    elements, so at most 50; when [l] holds 50 entries its last (oldest)
    one is dropped.  For a response without [undefined], the array read
    back from the text written has the same length and starts with the
    entry as read back, so the bound holds again in the file. *)
Theorem append_keeps_newest_first_and_fifty (response : value) (w : World) (l : list value) :
  history_in_file w l ->
  let entry := spread_with_id response (clock w (ticks w)) in
  let w' := snd (append_history response w) in
  exists (l' : list value) (text : string),
    stringify (VArr l') = Some text /\
    fst (append_history response w) = Ok tt /\
    file_accesses w' = FileWrite text :: FileRead :: file_accesses w /\
    file w' = match write_error w with None => Some text | Some _ => file w end /\
    nth_error l' 0 = Some entry /\
    (List.length l' <= 50)%nat /\
    List.length l' = Nat.min 50 (S (List.length l)) /\
    l' = entry :: firstn 49 l /\
    (List.length l = 50%nat -> l' = entry :: removelast l) /\
    (defined response = true ->
     parse text = Some (VArr (map reread l')) /\
     (write_error w = None -> history_in_file w' (map reread l'))).
Proof.
  intros Hfile entry w'. pose proof (history_in_file_stored w l Hfile) as Hs.
  destruct (append_history_array response w l Hs) as (text & Htext & Hrun).
  fold entry in Htext.
  exists (capped (entry :: l)), text.
  split; [exact Htext|]. unfold w'. rewrite Hrun.
  split; [destruct (write_error w); reflexivity|].
  split; [destruct (write_error w); reflexivity|].
  split; [destruct (write_error w); reflexivity|].
  rewrite capped_cons in *.
  split; [reflexivity|]. split; [cbn [List.length]; rewrite length_firstn; lia|].
  split; [cbn [List.length]; rewrite length_firstn; lia|].
  split; [reflexivity|].
  split; [intros Hlen; f_equal; now apply firstn_removelast|].
  intros Hdef.
  assert (Hparse : parse text = Some (VArr (map reread (entry :: firstn 49 l)))).
  { apply (parse_stringify_defined (VArr (entry :: firstn 49 l)) text); [|exact Htext].
    pose proof (history_in_file_defined w l Hfile) as Hl.
    cbn [defined] in Hl |- *. apply andb_true_intro. split.
    - unfold entry. apply spread_with_id_defined, Hdef.
    - apply forallb_firstn, Hl. }
  split; [exact Hparse|].
  intros ->. left. exists text. split; [reflexivity | exact Hparse].
Qed.

(** Witness of [append_keeps_newest_first_and_fifty]: an append to a
    file that holds fifty entries; the oldest one, with the id 1, is
    dropped. *)
Lemma append_keeps_newest_first_and_fifty_witness :
  history_in_file full_history_world full_history /\
  List.length full_history = 50%nat /\
  last full_history VNull = old_entry 1 /\
  exists (l' : list value) (text : string),
    file (snd (append_history (VObj []) full_history_world)) = Some text /\
    stringify (VArr l') = Some text /\
    l' = VObj [("id", VNum (of_Z 1729987200000))] :: removelast full_history /\
    List.length l' = 50%nat.
Proof.
  assert (Hfile : history_in_file full_history_world full_history).
  { left. exists (text_of (VArr full_history)). split; [reflexivity|].
    vm_compute. reflexivity. }
  split; [exact Hfile|]. split; [reflexivity|]. split; [reflexivity|].
  destruct (append_keeps_newest_first_and_fifty (VObj []) full_history_world full_history Hfile)
    as (l' & text & Htext & _ & _ & Hwritten & _ & _ & Hlen & _ & Hdrop & _).
  exists l', text. split; [exact Hwritten|]. split; [exact Htext|].
  split; [exact (Hdrop eq_refl) | exact Hlen].
Defined.

(** C7. [saveHistory] never throws, and a refused write is logged as
    "Error saving history:".  The reply of the handler is the same
    whatever the fate of the write.  Once the response of a request with
    a non-empty [stocks] array is computed, whatever its contents, and
    the history file holds a sequence [l] (or is missing or unusable,
    [l] being empty), the handler reads the file, writes the text of the
    new entry (the response with the id read from the clock) followed by
    the first 49 entries of [l], and replies 200 with the response: when
    the write succeeds that text is the content of the file; when it is
    refused the file is as it was and the refusal is the last thing
    logged. *)
Theorem history_write_failure_is_swallowed (req_body : value) (w : World) :
  (forall history : value, fst (saveHistory history w) = Ok tt) /\
  (forall (l : list value) (m : string),
     write_error w = Some m ->
     exists text : string,
       stringify (VArr l) = Some text /\
       snd (saveHistory (VArr l) w)
         = emit_in (ConsoleError "Error saving history:" m) (emit_in (FileWrite text) w)) /\
  (forall e : option string,
     fst (post_portfolio req_body (set_write_error e w)) = fst (post_portfolio req_body w)) /\
  (forall (stocks : list value) (response : value) (w1 : World) (l : list value),
     prop req_body "stocks" = VArr stocks ->
     stocks <> [] ->
     calculate stocks w = (Ok response, w1) ->
     history_in_file w l ->
     exists (text : string) (w' : World),
       stringify (VArr (spread_with_id response (clock w1 (ticks w1)) :: firstn 49 l))
         = Some text /\
       post_portfolio req_body w = (Ok (mkResponse 200 response), w') /\
       file w' = match write_error w with None => Some text | Some _ => file w end /\
       trace w'
         = (match write_error w with
            | None => []
            | Some m => [ConsoleError "Error saving history:" m]
            end ++ FileWrite text :: FileRead :: trace w1)%list).
Proof.
  split; [intros history; apply saveHistory_ok|].
  split.
  { intros l m Hm. destruct (saveHistory_run l w) as (text & Htext & Hrun).
    exists text. split; [exact Htext|]. rewrite Hrun, Hm. reflexivity. }
  split; [intros e; apply blind_post_portfolio|].
  intros stocks response w1 l Hstocks Hne Hrun Hfile.
  destruct (post_after_response req_body stocks response w w1 l Hstocks Hne Hrun
              (history_in_file_stored w l Hfile)) as (text & Htext & Hpost).
  exists text. eexists. split; [exact Htext|]. split; [exact Hpost|].
  destruct (calculate_returns stocks w w1 response Hrun)
    as (outs & w0 & _ & _ & -> & (_ & _ & _ & Hf & _) & _).
  destruct (write_error w); cbn; [rewrite Hf|]; split; reflexivity.
Qed.

(** Witness of [history_write_failure_is_swallowed]: every item fails,
    the total is zero and the file cannot be written; the reply is 200,
    the write of the one-entry history was attempted and its refusal
    logged. *)
Lemma history_write_failure_is_swallowed_witness :
  write_error offline_readonly = Some "EACCES: permission denied" /\
  prop (request [item "BAD" zero]) "stocks" = VArr [item "BAD" zero] /\
  history_in_file offline_readonly [] /\
  exists (text : string) (w' : World),
    post_portfolio (request [item "BAD" zero]) offline_readonly
      = (Ok (mkResponse 200 (fst_ok (calculate [item "BAD" zero] offline_readonly))), w') /\
    fst_ok (calculate [item "BAD" zero] offline_readonly)
      = VObj [("stocks",
               VArr [VObj [("symbol", VStr "BAD");
                           ("error", VStr "Invalid symbol or quantity")]]);
              ("totalPortfolioValue", VStr "0.00");
              ("timestamp", VStr "2024-10-27T00:00:00.000Z")] /\
    stringify
      (VArr [VObj [("stocks",
                    VArr [VObj [("symbol", VStr "BAD");
                                ("error", VStr "Invalid symbol or quantity")]]);
                   ("totalPortfolioValue", VStr "0.00");
                   ("timestamp", VStr "2024-10-27T00:00:00.000Z");
                   ("id", VNum (of_Z 1729987200001))]])
      = Some text /\
    file w' = None /\
    trace w'
      = [ConsoleError "Error saving history:" "EACCES: permission denied";
         FileWrite text; FileRead].
Proof.
  split; [reflexivity|]. split; [reflexivity|].
  assert (Hfile : history_in_file offline_readonly []) by (right; split; reflexivity).
  split; [exact Hfile|].
  assert (Hne : [item "BAD" zero] <> []) by discriminate.
  destruct (proj2 (proj2 (proj2
              (history_write_failure_is_swallowed (request [item "BAD" zero]) offline_readonly)))
              [item "BAD" zero]
              (fst_ok (calculate [item "BAD" zero] offline_readonly))
              (snd (calculate [item "BAD" zero] offline_readonly)) []
              eq_refl Hne eq_refl Hfile) as (text & w' & Htext & Hpost & Hf & Htrace).
  exists text, w'. split; [exact Hpost|]. split; [vm_compute; reflexivity|].
  split; [exact Htext|]. split; [exact Hf | exact Htrace].
Defined.

(** *** Reading an appended entry back *)

Lemma history_in_file_same_file (w w' : World) (l : list value) :
  file w' = file w -> history_in_file w l -> history_in_file w' l.
Proof. unfold history_in_file, history_unusable. now intros ->. Qed.

(** An append whose write succeeds, for an entry that JSON text holds
    exactly: what the file holds afterwards. *)
Lemma append_entry_stored (response : value) (w : World) (l : list value) :
  history_in_file w l ->
  write_error w = None ->
  exact (spread_with_id response (clock w (ticks w))) = true ->
  exists text : string,
    append_history response w
    = (Ok tt,
       mkWorld (provider w) (requests w) (clock w) (S (ticks w)) (Some text) None
         (FileWrite text :: FileRead :: trace w)) /\
    parse text
    = Some (VArr (spread_with_id response (clock w (ticks w)) :: map reread (firstn 49 l))).
Proof.
  intros Hfile Hwrite Hex. pose proof (history_in_file_stored w l Hfile) as Hs.
  destruct (append_history_array response w l Hs) as (text & Htext & Hrun).
  rewrite capped_cons in Htext. rewrite Hwrite in Hrun.
  exists text. split; [exact Hrun|].
  rewrite (parse_stringify_defined
             (VArr (spread_with_id response (clock w (ticks w)) :: firstn 49 l)) text);
    [| |exact Htext].
  - cbn [reread map]. now rewrite (exact_reread _ Hex).
  - pose proof (history_in_file_defined w l Hfile) as Hl.
    cbn [defined] in Hl |- *. apply andb_true_intro. split.
    + apply legible_defined, exact_legible, Hex.
    + apply forallb_firstn, Hl.
Qed.

(** C8, as the code has it.  When the history file holds a sequence [l]
    (or is missing or unusable, [l] being empty), the write succeeds,
    and the new entry is a value that JSON text represents exactly (no
    [undefined], no [NaN], [Infinity] or [-0], numbers that [JSON.parse]
    reads back from their numeral, objects whose keys are distinct and in
    the order in which JavaScript enumerates them), then after the append
    [loadHistory] and the history endpoint return the entry, identical in
    every field, at index 0, followed by the first 49 entries of [l] as
    [JSON.parse] reads them back.  Nothing is asked of the older
    entries. *)
Theorem appended_entry_reads_back (response : value) (w : World) (l : list value) :
  history_in_file w l ->
  write_error w = None ->
  exact (spread_with_id response (clock w (ticks w))) = true ->
  let entry := spread_with_id response (clock w (ticks w)) in
  let w' := snd (append_history response w) in
  fst (loadHistory w') = Ok (VArr (entry :: map reread (firstn 49 l))) /\
  fst (get_history w') = Ok (mkResponse 200 (VArr (entry :: map reread (firstn 49 l)))).
Proof.
  intros Hfile Hwrite Hex entry w'.
  destruct (append_entry_stored response w l Hfile Hwrite Hex) as (text & Hrun & Hparse).
  fold entry in Hparse.
  assert (Hstored : stored_history w' = VArr (entry :: map reread (firstn 49 l))).
  { unfold w'. rewrite Hrun. unfold stored_history. cbn [snd file]. now rewrite Hparse. }
  split.
  - rewrite load_run, Hstored. reflexivity.
  - unfold get_history, try_catch, bind. rewrite load_run, Hstored. reflexivity.
Qed.

(** Witness of [appended_entry_reads_back]: the entry of the response to
    two items, appended to a file whose entries do not read back as they
    are. *)
Lemma appended_entry_reads_back_witness :
  history_in_file odd_history_world odd_history /\
  write_error odd_history_world = None /\
  fst (get_history
         (snd (append_history (fst_ok (calculate sample_items odd_history_world))
                 odd_history_world)))
  = Ok (mkResponse 200
          (VArr [spread_with_id (fst_ok (calculate sample_items odd_history_world))
                   (clock odd_history_world (ticks odd_history_world));
                 VNull; VNum zero; VArr [VNum (of_Z 1)]])).
Proof.
  assert (Hfile : history_in_file odd_history_world odd_history).
  { left. exists "[1e999,-0,[1]]". split; [reflexivity | vm_compute; reflexivity]. }
  split; [exact Hfile|]. split; [reflexivity|].
  apply (appended_entry_reads_back (fst_ok (calculate sample_items odd_history_world))
           odd_history_world odd_history Hfile eq_refl).
  vm_compute. reflexivity.
Defined.

(** C8, counterexample.  A request body may write a quantity [1e999],
    which is [Infinity]; the entry appended for it holds that quantity,
    [JSON.stringify] writes it [null], and the entry read back holds
    [null] where the appended one holds [Infinity]. *)
Lemma infinite_quantity_reads_back_null :
  parse "1e999" = Some (VNum Infinity) /\
  fst (post_portfolio infinite_request quoting_150) = Ok (mkResponse 200 infinite_response) /\
  fst (get_history (snd (post_portfolio infinite_request quoting_150)))
    = Ok (mkResponse 200 (VArr [infinite_entry_read])) /\
  infinite_entry_read <> spread_with_id infinite_response 1729987200001.
Proof.
  split; [vm_compute; reflexivity|].
  split; [vm_compute; reflexivity|].
  split; [vm_compute; reflexivity|].
  vm_compute. discriminate.
Qed.

End ServerFacts.

(* ================================================================= *)
(** ** Further properties of the handlers *)

Module BehaviourFacts.

Import Num Js Json Server Scenarios Behaviour JsonFacts NumeralFacts ServerFacts.


(** *** The handler of POST /api/portfolio, case by case *)

Lemma has_items_inv (v : value) :
  has_items v = true -> exists stock stocks, v = VArr (stock :: stocks).
Proof.
  destruct v as [| | | | |[|stock stocks]|]; try discriminate. intros _. now exists stock, stocks.
Qed.

Lemma no_items_run (req_body : value) (w : World) :
  is_nullish req_body = false ->
  has_items (prop req_body "stocks") = false ->
  post_portfolio req_body w = (Ok invalid_input, w).
Proof.
  intros Hn Hi. unfold post_portfolio, try_catch, bind, destructure. rewrite Hn. cbn [ret].
  destruct (prop req_body "stocks") as [| |b|x|s|[|stock stocks]|fs]; try reflexivity;
    try discriminate.
  - destruct b; reflexivity.
  - destruct (truthy (VNum x)); reflexivity.
  - destruct (truthy (VStr s)); reflexivity.
Qed.

(** X1. POST /api/portfolio (lines 81-87): a body whose [stocks] is
    missing, falsy, not an array or an empty array is answered 400 with
    the message of line 85, and nothing else happens: no request to the
    provider, no clock reading, no access to the history file, no log. *)
Theorem request_without_items_is_refused (req_body : value) (w : World) :
  is_nullish req_body = false ->
  has_items (prop req_body "stocks") = false ->
  post_portfolio req_body w = (Ok invalid_input, w).
Proof. exact (no_items_run req_body w). Qed.

Lemma request_without_items_is_refused_witness :
  post_portfolio (VObj [("stocks", VArr [])]) quoting_150 = (Ok invalid_input, quoting_150)
  /\ post_portfolio (VObj [("stocks", VStr "AAPL")]) quoting_150 = (Ok invalid_input, quoting_150)
  /\ post_portfolio (VObj []) quoting_150 = (Ok invalid_input, quoting_150).
Proof.
  split; [|split].
  - apply (request_without_items_is_refused (VObj [("stocks", VArr [])])); reflexivity.
  - apply (request_without_items_is_refused (VObj [("stocks", VStr "AAPL")])); reflexivity.
  - apply (request_without_items_is_refused (VObj [])); reflexivity.
Defined.

Lemma post_reply_cases (req_body : value) (w : World) :
  exists (r : response) (w' : World),
    post_portfolio req_body w = (Ok r, w') /\
    ((r = invalid_input /\ w' = w)
     \/ (status r = 200 /\ has_items (prop req_body "stocks") = true)
     \/ (r = internal_error /\ last_logged "Portfolio calculation error:" w' = true)).
Proof.
  destruct (is_nullish req_body) eqn:Hn.
  { unfold post_portfolio, try_catch, bind, destructure. rewrite Hn.
    eexists _, _. split; [reflexivity|]. right. right. split; reflexivity. }
  destruct (has_items (prop req_body "stocks")) eqn:Hi.
  2:{ exists invalid_input, w. split; [now apply no_items_run|].
      left. split; reflexivity. }
  destruct (has_items_inv _ Hi) as (stock & stocks & Hs).
  assert (Hne : stock :: stocks <> []) by discriminate.
  destruct (process_stocks (stock :: stocks) [] zero w) as [[st|e] w1] eqn:Hloop.
  - rewrite (post_loop_returns _ _ _ _ _ Hs Hne Hloop).
    destruct (append_history _ (tick w1)) as [[u|e] w2]; eexists _, _;
      (split; [reflexivity|]); right; [left | right]; split; reflexivity.
  - rewrite (post_loop_throws _ _ _ _ _ Hs Hne Hloop).
    eexists _, _. split; [reflexivity|]. right. right. split; reflexivity.
Qed.

(** X2. POST /api/portfolio (lines 79-153) always replies and never
    lets an exception out.  The reply is the 400 of lines 84-86 with the
    world untouched, or a 200 (only for a non-empty array of stocks), or
    the 500 of lines 149-151, whose body is the fixed message and which
    is the last thing logged with [console.error]. *)
Theorem post_portfolio_always_replies (req_body : value) (w : World) :
  exists (r : response) (w' : World),
    post_portfolio req_body w = (Ok r, w') /\
    ((r = invalid_input /\ w' = w)
     \/ (status r = 200 /\ has_items (prop req_body "stocks") = true)
     \/ (r = internal_error /\ last_logged "Portfolio calculation error:" w' = true)).
Proof. exact (post_reply_cases req_body w). Qed.

(** X3. One item on which the loop throws ([null], [undefined], an item
    whose truthy quantity cannot be converted to a number at line 96, or
    an item that passes the test of line 96 with a symbol that is not a
    string) fails the whole request, wherever it stands in the list: the
    reply is the 500 of lines 149-151, the results of the other items are
    dropped, the history file is neither read nor written and the clock
    is not read. *)
Theorem malformed_item_fails_the_request (req_body : value) (stocks : list value) (w : World) :
  prop req_body "stocks" = VArr stocks ->
  Exists (fun stock => aborts stock = true) stocks ->
  exists w' : World,
    post_portfolio req_body w = (Ok internal_error, w') /\
    last_logged "Portfolio calculation error:" w' = true /\
    file w' = file w /\ file_accesses w' = file_accesses w /\ ticks w' = ticks w.
Proof.
  intros Hs Hex.
  assert (Hne : stocks <> []) by (intros ->; inversion Hex).
  destruct (loop_aborts_or_runs stocks [] zero w)
    as [(_ & m & w1 & Hloop & Hst & Hf) | (Hall & _)].
  - rewrite (post_loop_throws _ _ _ _ _ Hs Hne Hloop). eexists. split; [reflexivity|].
    destruct Hst as (_ & _ & Ht & Hfile & _).
    split; [reflexivity|]. split; [exact Hfile|]. split; [exact Hf | exact Ht].
  - exfalso. apply Exists_exists in Hex. destruct Hex as (stock & Hin & Hab).
    rewrite Forall_forall in Hall. specialize (Hall stock Hin). congruence.
Qed.

Lemma malformed_item_fails_the_request_witness :
  (exists w' : World,
     post_portfolio (request [item "AAPL" (of_Z 2); VNull]) quoting_150
       = (Ok internal_error, w') /\
     last_logged "Portfolio calculation error:" w' = true /\
     file w' = file quoting_150 /\ file_accesses w' = file_accesses quoting_150 /\
     ticks w' = ticks quoting_150) /\
  (exists w' : World,
     post_portfolio
       (request [item_of "aapl" (VObj [("toString", VNum (of_Z 1))])]) quoting_150
       = (Ok internal_error, w') /\
     last_logged "Portfolio calculation error:" w' = true /\
     file w' = file quoting_150 /\ file_accesses w' = file_accesses quoting_150 /\
     ticks w' = ticks quoting_150).
Proof.
  split.
  - apply (malformed_item_fails_the_request _ [item "AAPL" (of_Z 2); VNull]).
    + reflexivity.
    + apply Exists_cons_tl, Exists_cons_hd. reflexivity.
  - apply (malformed_item_fails_the_request _
             [item_of "aapl" (VObj [("toString", VNum (of_Z 1))])]).
    + reflexivity.
    + apply Exists_cons_hd. reflexivity.
Defined.

(** X4. When the history file holds JSON that is not an array,
    [loadHistory] hands it over as it is and [history.unshift] (line 136)
    throws: every request with at least one item is answered 500 and the
    file stays as it was. *)
Theorem history_not_an_array_fails_the_request (req_body : value) (w : World) :
  has_items (prop req_body "stocks") = true ->
  isArray (stored_history w) = false ->
  exists w' : World,
    post_portfolio req_body w = (Ok internal_error, w') /\
    last_logged "Portfolio calculation error:" w' = true /\
    file w' = file w.
Proof.
  intros Hi Hna. destruct (has_items_inv _ Hi) as (stock & stocks & Hs).
  assert (Hne : stock :: stocks <> []) by discriminate.
  destruct (process_stocks (stock :: stocks) [] zero w) as [[st|e] w1] eqn:Hloop.
  - rewrite (post_loop_returns _ _ _ _ _ Hs Hne Hloop).
    destruct (process_stocks_returns _ _ _ _ _ _ Hloop) as (_ & (_ & _ & _ & Hfile & _) & _).
    destruct (append_not_array (response_of (fst st) (snd st) (clock w1 (ticks w1))) (tick w1))
      as (m & Hrun).
    { rewrite (stored_history_same_file w (tick w1)); [exact Hna | exact Hfile]. }
    rewrite Hrun. eexists. split; [reflexivity|]. split; [reflexivity | exact Hfile].
  - rewrite (post_loop_throws _ _ _ _ _ Hs Hne Hloop).
    eexists. split; [reflexivity|]. split; [reflexivity|].
    destruct (loop_aborts_or_runs (stock :: stocks) [] zero w)
      as [(_ & m & w2 & Hloop' & Hst & _) | (_ & outs & w2 & Hloop' & _)];
      rewrite Hloop in Hloop'; [|discriminate].
    injection Hloop' as _ <-. apply Hst.
Qed.

Lemma history_not_an_array_fails_the_request_witness :
  exists w' : World,
    post_portfolio (request sample_items) (world (quote_body (VStr "150.00")) (Some "{}") None)
      = (Ok internal_error, w') /\
    last_logged "Portfolio calculation error:" w' = true /\
    file w' = Some "{}".
Proof.
  apply (history_not_an_array_fails_the_request (request sample_items)
           (world (quote_body (VStr "150.00")) (Some "{}") None)).
  - reflexivity.
  - vm_compute. reflexivity.
Defined.



(** *** GET /api/history and GET /api/stock/:symbol *)

(** X6. GET /api/history (lines 156-166) always answers 200: its catch
    block cannot run, because [loadHistory] turns every failure into an
    empty array.  The body is [[]] when the file is missing or is not
    JSON, and otherwise whatever the file parses to; the file is read
    once and never written. *)
Theorem get_history_always_succeeds (w : World) :
  exists history : value,
    get_history w = (Ok (mkResponse 200 history), emit_in FileRead w) /\
    (history_unusable w = true -> history = VArr []) /\
    (forall (text : string) (v : value),
       file w = Some text -> parse text = Some v -> history = v).
Proof.
  exists (stored_history w). split.
  - unfold get_history, try_catch, bind. rewrite load_run. reflexivity.
  - unfold history_unusable, stored_history. split.
    + destruct (file w) as [text|]; [|reflexivity].
      destruct (parse text); [discriminate | reflexivity].
    + intros text v -> ->. reflexivity.
Qed.

Lemma get_history_always_succeeds_witness :
  exists history : value,
    get_history (world (Rejected "offline") (Some "not json") None)
      = (Ok (mkResponse 200 history),
         emit_in FileRead (world (Rejected "offline") (Some "not json") None)) /\
    history = VArr [].
Proof.
  destruct (get_history_always_succeeds (world (Rejected "offline") (Some "not json") None))
    as (history & Hrun & Hbad & _).
  exists history. split; [exact Hrun|]. apply Hbad. vm_compute. reflexivity.
Defined.

Lemma get_stock_run (symbol : string) (w : World) :
  get_stock symbol w =
  if String.eqb symbol "" then
    (Ok (mkResponse 400 (VObj [("error", VStr "Stock symbol is required")])), w)
  else
    match fetch_outcome (toUpperCase symbol) w with
    | Ok price =>
        (Ok (mkResponse 200
               (VObj [("symbol", VStr (toUpperCase symbol));
                      ("price", VStr (toFixed2 price));
                      ("timestamp", VStr (toISOString (clock w (ticks w))))])),
         tick (after_request (toUpperCase symbol) w))
    | Throw cause =>
        (Ok (mkResponse 404
               (VObj [("error",
                       VStr ("Unable to fetch price for " ++ symbol
                             ++ ": Unable to fetch price for " ++ toUpperCase symbol))])),
         emit_in (ConsoleError ("Stock price error for " ++ symbol ++ ":")
                    ("Unable to fetch price for " ++ toUpperCase symbol))
           (after_failed_request (toUpperCase symbol) cause w))
    end.
Proof.
  unfold get_stock, try_catch. cbn [truthy]. rewrite negb_involutive.
  destruct (String.eqb symbol ""); [reflexivity|].
  unfold bind at 1. rewrite price_run.
  destruct (fetch_outcome (toUpperCase symbol) w) as [price|cause]; reflexivity.
Qed.

(** X7. GET /api/stock/:symbol (lines 169-193) by cases: 400 for an
    empty symbol, without any request; 200 with the upper-cased symbol and
    the price as [toFixed(2)] writes it when the provider gives one; 404
    otherwise, with a message that names the symbol as typed, then the
    upper-cased one, and never the cause.  One request is sent, for the
    upper-cased symbol, and the history file is not touched.  The price
    has exactly two decimals when it is finite and below 10^21 in
    absolute value; [toFixed(2)] writes "NaN", "Infinity" or exponent
    notation otherwise. *)
Theorem get_stock_replies (symbol : string) (w : World) :
  fst (get_stock symbol w)
  = Ok (if String.eqb symbol "" then
          mkResponse 400 (VObj [("error", VStr "Stock symbol is required")])
        else
          match fetch_outcome (toUpperCase symbol) w with
          | Ok price =>
              mkResponse 200
                (VObj [("symbol", VStr (toUpperCase symbol));
                       ("price", VStr (toFixed2 price));
                       ("timestamp", VStr (toISOString (clock w (ticks w))))])
          | Throw cause =>
              mkResponse 404
                (VObj [("error",
                        VStr ("Unable to fetch price for " ++ symbol
                              ++ ": Unable to fetch price for " ++ toUpperCase symbol))])
          end) /\
  requests_sent (snd (get_stock symbol w))
  = ((if String.eqb symbol "" then [] else [the_request (toUpperCase symbol)])
       ++ requests_sent w)%list /\
  file (snd (get_stock symbol w)) = file w /\
  file_accesses (snd (get_stock symbol w)) = file_accesses w /\
  (forall price : number,
     fetch_outcome (toUpperCase symbol) w = Ok price ->
     is_finite price = true -> below_1e21 price = true ->
     two_decimals (toFixed2 price) = true).
Proof.
  rewrite get_stock_run.
  assert (Htwo : forall price : number,
             fetch_outcome (toUpperCase symbol) w = Ok price ->
             is_finite price = true -> below_1e21 price = true ->
             two_decimals (toFixed2 price) = true)
    by (intros price _; apply toFixed2_two_decimals).
  destruct (String.eqb symbol ""); [repeat split; exact Htwo|].
  destruct (fetch_outcome (toUpperCase symbol) w) as [price|cause];
    repeat split; exact Htwo.
Qed.

Lemma get_stock_replies_witness :
  fst (get_stock "aapl" quoting_150)
  = Ok (mkResponse 200
          (VObj [("symbol", VStr "AAPL");
                 ("price", VStr "150.00");
                 ("timestamp", VStr "2024-10-27T00:00:00.000Z")])) /\
  two_decimals (toFixed2 (Num.parseFloat "150.00")) = true.
Proof.
  destruct (get_stock_replies "aapl" quoting_150) as (Hreply & _ & _ & _ & Htwo).
  split.
  - rewrite Hreply. vm_compute. reflexivity.
  - apply (Htwo (Num.parseFloat "150.00")); vm_compute; reflexivity.
Defined.

Lemma upper_char_idempotent (c : ascii) : upper_char (upper_char c) = upper_char c.
Proof. destruct c as [[] [] [] [] [] [] [] []]; reflexivity. Qed.

Lemma toUpperCase_idempotent (s : string) : toUpperCase (toUpperCase s) = toUpperCase s.
Proof.
  induction s as [|c s IH]; [reflexivity|].
  cbn [toUpperCase]. now rewrite upper_char_idempotent, IH.
Qed.

Lemma toUpperCase_empty (s : string) : String.eqb (toUpperCase s) "" = String.eqb s "".
Proof. destruct s; reflexivity. Qed.

(** X8. The loop does not see the case of the letters of a symbol
    (lines 105, 109, 118): an item that passes the test of line 96 and
    the same item with its symbol in upper case have the same effect and
    the same result.  (An item that fails the test is echoed as typed.) *)
Theorem symbol_case_is_ignored (s : string) (q : value) (results : list value)
    (total : number) (w : World) :
  invalid_item (item_of s q) = Some false ->
  process_stock (item_of (toUpperCase s) q) results total w
  = process_stock (item_of s q) results total w.
Proof.
  intros Hinv.
  assert (Hinv' : invalid_item (item_of (toUpperCase s) q) = Some false).
  { revert Hinv. unfold invalid_item.
    change (prop (item_of (toUpperCase s) q) "symbol") with (VStr (toUpperCase s)).
    change (prop (item_of (toUpperCase s) q) "quantity") with q.
    change (prop (item_of s q) "symbol") with (VStr s).
    change (prop (item_of s q) "quantity") with q.
    cbn [truthy]. now rewrite toUpperCase_empty. }
  rewrite !process_stock_run, Hinv, Hinv'.
  change (is_nullish (item_of (toUpperCase s) q)) with false.
  change (is_nullish (item_of s q)) with false. cbv iota.
  change (prop (item_of (toUpperCase s) q) "symbol") with (VStr (toUpperCase s)).
  change (prop (item_of (toUpperCase s) q) "quantity") with q.
  change (prop (item_of s q) "symbol") with (VStr s).
  change (prop (item_of s q) "quantity") with q.
  unfold priced_result, failed_result. rewrite !toUpperCase_idempotent.
  reflexivity.
Qed.

Lemma symbol_case_is_ignored_witness :
  process_stock (item_of (toUpperCase "aapl") (VNum (of_Z 2))) [] zero quoting_150
  = process_stock (item_of "aapl" (VNum (of_Z 2))) [] zero quoting_150.
Proof. apply symbol_case_is_ignored. reflexivity. Defined.

(** *** The loop over the items *)

Lemma passes_accepted (stock : value) : invalid_item stock = Some false -> passes stock = true.
Proof. unfold passes. now intros ->. Qed.

Lemma passes_rejected (stock : value) : invalid_item stock = Some true -> passes stock = false.
Proof. unfold passes. now intros ->. Qed.

Lemma loop_requests (stocks : list value) (w w' : World) (outs : list (value * option number)) :
  loop_outcomes stocks w outs w' ->
  requests_sent w'
  = (rev (map (fun stock => the_request (symbol_of stock)) (accepted stocks))
       ++ requests_sent w)%list.
Proof.
  induction 1 as [w | stock stocks w w1 w2 r o outs Hone Hrest IH]; [reflexivity|].
  rewrite IH, (outcome_requests _ _ _ _ _ Hone). unfold accepted. cbn [filter].
  destruct (passes stock); cbn [map rev]; rewrite <- ?app_assoc; reflexivity.
Qed.

(** X9. A loop that returns has sent exactly one request for each item
    that passes the test of line 96, in the order of the list, each for
    the upper-cased symbol, and none for the other items. *)
Theorem one_request_per_accepted_item (stocks results : list value) (total : number)
    (w w' : World) (st : list value * number) :
  process_stocks stocks results total w = (Ok st, w') ->
  requests_sent w'
  = (rev (map (fun stock => the_request (symbol_of stock)) (accepted stocks))
       ++ requests_sent w)%list.
Proof.
  intros Hrun. destruct (process_stocks_returns _ _ _ _ _ _ Hrun) as ((outs & _ & Hloop) & _).
  exact (loop_requests _ _ _ _ Hloop).
Qed.


Lemma one_request_per_accepted_item_witness :
  exists (st : list value * number) (w' : World),
    process_stocks sample_items [] zero quoting_150 = (Ok st, w') /\
    requests_sent w'
    = (rev (map (fun stock => the_request (symbol_of stock)) (accepted sample_items))
         ++ requests_sent quoting_150)%list.
Proof.
  assert (Hok : exists st, fst (process_stocks sample_items [] zero quoting_150) = Ok st)
    by (vm_compute; eexists; reflexivity).
  destruct Hok as (st & Hst).
  assert (Hrun : process_stocks sample_items [] zero quoting_150
                 = (Ok st, snd (process_stocks sample_items [] zero quoting_150)))
    by (rewrite <- Hst; apply surjective_pairing).
  exists st, (snd (process_stocks sample_items [] zero quoting_150)).
  split; [exact Hrun|].
  exact (one_request_per_accepted_item sample_items [] zero quoting_150 _ st Hrun).
Defined.

Lemma no_abort_no_throw (stock : value) (results : list value) (total : number) (w : World) :
  aborts stock = false ->
  exists (r : value) (o : option number) (w' : World),
    process_stock stock results total w = (Ok (push results r, add_value total o), w') /\
    item_outcome stock w r o w'.
Proof.
  intros Hab. destruct (aborts_or_runs stock results total w) as [(Hab' & _) | (_ & H)];
    [congruence | exact H].
Qed.

Lemma rejected_items_loop (stocks : list value) :
  Forall (fun stock => aborts stock = false) stocks ->
  forall (results results' : list value) (total : number) (w : World),
  exists (outs : list (value * option number)) (w' : World),
    process_stocks stocks results total w
      = (Ok ((results ++ map fst outs)%list, fold_left add_value (map snd outs) total), w') /\
    process_stocks (accepted stocks) results' total w
      = (Ok ((results' ++ map fst (accepted_outcomes stocks outs))%list,
             fold_left add_value (map snd outs) total), w').
Proof.
  induction 1 as [|stock stocks Hab Hall IH]; intros results results' total w.
  - exists [], w. cbn. rewrite !app_nil_r. split; reflexivity.
  - destruct (no_abort_no_throw stock results total w Hab) as (r & o & w1 & Hrun & Hout).
    cbn [process_stocks]. rewrite (bind_ok _ _ _ _ _ Hrun). cbn [fst snd].
    unfold accepted. cbn [filter]. fold (accepted stocks).
    destruct (outcome_cases _ _ _ _ _ Hout) as [(Hinv & -> & -> & _) | (Hinv & _)];
      [apply passes_rejected in Hinv | apply passes_accepted in Hinv]; rewrite Hinv.
    + destruct (IH (push results r) results' total w) as (outs & w' & H1 & H2).
      exists ((r, None) :: outs), w'. cbn [add_value] in *.
      unfold accepted_outcomes. cbn [combine filter map fst snd fold_left add_value].
      rewrite Hinv. fold (accepted_outcomes stocks outs).
      split; [|exact H2]. rewrite H1. unfold push. now rewrite <- app_assoc.
    + destruct (no_abort_no_throw stock results' total w Hab) as (r' & o' & w1' & Hrun' & Hout').
      destruct (outcome_functional _ _ _ _ _ _ _ _ Hout Hout') as (<- & <- & <-).
      cbn [process_stocks]. rewrite (bind_ok _ _ _ _ _ Hrun'). cbn [fst snd].
      destruct (IH (push results r) (push results' r) (add_value total o) w1)
        as (outs & w' & H1 & H2).
      exists ((r, o) :: outs), w'.
      unfold accepted_outcomes. cbn [combine filter map fst snd fold_left].
      rewrite Hinv. cbn [map fst snd]. fold (accepted_outcomes stocks outs).
      rewrite H1, H2. unfold push. rewrite <- !app_assoc. split; reflexivity.
Qed.

(** X10. In a list without an item on which the loop throws, the items
    that fail the test of line 96 change nothing but their own entries:
    without them the loop ends in the same world with the same total, and
    its results are those of the remaining items. *)
Theorem rejected_items_change_nothing (stocks results : list value) (total : number)
    (w : World) :
  Forall (fun stock => aborts stock = false) stocks ->
  exists (outs : list (value * option number)) (w' : World),
    process_stocks stocks results total w
      = (Ok ((results ++ map fst outs)%list, fold_left add_value (map snd outs) total), w') /\
    process_stocks (accepted stocks) results total w
      = (Ok ((results ++ map fst (accepted_outcomes stocks outs))%list,
             fold_left add_value (map snd outs) total), w').
Proof. intros Hall. exact (rejected_items_loop stocks Hall results results total w). Qed.

Lemma rejected_items_change_nothing_witness :
  exists (outs : list (value * option number)) (w' : World),
    process_stocks sample_items [] zero quoting_150
      = (Ok (([] ++ map fst outs)%list, fold_left add_value (map snd outs) zero), w') /\
    process_stocks (accepted sample_items) [] zero quoting_150
      = (Ok (([] ++ map fst (accepted_outcomes sample_items outs))%list,
             fold_left add_value (map snd outs) zero), w').
Proof.
  apply (rejected_items_change_nothing sample_items [] zero quoting_150).
  repeat constructor.
Defined.

(** X11. For an item with a string symbol and a number quantity, the
    test of line 96 rejects exactly an empty symbol or a quantity that is
    not greater than zero; NaN and both zeros are rejected, [Infinity] is
    accepted. *)
Theorem typed_item_is_accepted_iff_positive (s : string) (q : number) :
  invalid_item (item s q) = Some (String.eqb s "" || negb (SFltb zero q)).
Proof.
  unfold invalid_item, le_zero.
  change (prop (item s q) "symbol") with (VStr s).
  change (prop (item s q) "quantity") with (VNum q).
  cbn [truthy to_number option_map]. rewrite negb_involutive.
  destruct (String.eqb s ""); [reflexivity|]. cbn [orb].
  destruct q as [[]| [] | | [] m e]; reflexivity.
Qed.

Lemma object_not_nullish (stock : value) (s : string) :
  prop stock "symbol" = VStr s -> is_nullish stock = false.
Proof. destruct stock; try discriminate; reflexivity. Qed.

Lemma priced_run (stock : value) (s : string) (q p : number) (results : list value)
    (total : number) (w : World) :
  prop stock "symbol" = VStr s ->
  invalid_item stock = Some false ->
  to_number (prop stock "quantity") = Some q ->
  fetch_outcome (toUpperCase s) w = Ok p ->
  process_stock stock results total w
  = (Ok (push results (priced_result s (prop stock "quantity") q p),
         add total (round2 (mul p q))),
     after_request (toUpperCase s) w).
Proof.
  intros Hsym Hinv Hq Hfetch.
  now rewrite process_stock_run, (object_not_nullish stock s Hsym), Hinv, Hsym, Hfetch, Hq.
Qed.

(** X12. An accepted item whose symbol is a string, when the provider
    answers with a truthy [price] that [parseFloat] can convert to a
    string (lines 33-34), is recorded with its upper-cased symbol, its
    quantity as given, and the price and the value as [toFixed(2)] writes
    them (lines 108-113); the value, which is
    [parseFloat((price * quantity).toFixed(2))], is added to the total
    (line 115) and only the request is left in the trace.  What
    [toFixed(2)] writes has exactly two decimals for a finite number below
    10^21 in absolute value; it is "NaN", "Infinity", "-Infinity" or in
    exponent notation otherwise. *)
Theorem priced_item_is_recorded (stock data : value) (s : string) (p : number)
    (results : list value) (total : number) (w : World) :
  prop stock "symbol" = VStr s ->
  invalid_item stock = Some false ->
  provider w (requests w) (toUpperCase s) = Resolved data ->
  truthy (prop data "price") = true ->
  parseFloat (prop data "price") = Some p ->
  exists q : number,
    to_number (prop stock "quantity") = Some q /\
    process_stock stock results total w
    = (Ok (push results (priced_result s (prop stock "quantity") q p),
           add total (round2 (mul p q))),
       after_request (toUpperCase s) w) /\
    (is_finite p = true -> below_1e21 p = true -> two_decimals (toFixed2 p) = true) /\
    (is_finite (round2 (mul p q)) = true -> below_1e21 (round2 (mul p q)) = true ->
     two_decimals (toFixed2 (round2 (mul p q))) = true).
Proof.
  intros Hsym Hinv Hdata Hprice Hp.
  destruct (accepted_quantity stock Hinv) as (_ & _ & q & Hq & _).
  exists q. split; [exact Hq|]. split.
  - apply priced_run; [exact Hsym | exact Hinv | exact Hq |].
    unfold fetch_outcome. rewrite Hdata. unfold js_and.
    destruct data; try discriminate. cbn [truthy]. now rewrite Hprice, Hp.
  - split; apply toFixed2_two_decimals.
Qed.

Lemma priced_item_is_recorded_witness :
  exists q : number,
    to_number (prop (item "aapl" (of_Z 2)) "quantity") = Some q /\
    process_stock (item "aapl" (of_Z 2)) [] zero quoting_150
    = (Ok (push []
             (priced_result "aapl" (prop (item "aapl" (of_Z 2)) "quantity") q
                (Num.parseFloat "150.00")),
           add zero (round2 (mul (Num.parseFloat "150.00") q))),
       after_request (toUpperCase "aapl") quoting_150) /\
    (is_finite (Num.parseFloat "150.00") = true ->
     below_1e21 (Num.parseFloat "150.00") = true ->
     two_decimals (toFixed2 (Num.parseFloat "150.00")) = true) /\
    (is_finite (round2 (mul (Num.parseFloat "150.00") q)) = true ->
     below_1e21 (round2 (mul (Num.parseFloat "150.00") q)) = true ->
     two_decimals (toFixed2 (round2 (mul (Num.parseFloat "150.00") q))) = true).
Proof.
  apply (priced_item_is_recorded (item "aapl" (of_Z 2)) (VObj [("price", VStr "150.00")])
           "aapl" (Num.parseFloat "150.00") [] zero quoting_150); reflexivity.
Defined.

(** X13. An accepted item whose price lookup fails, whatever the cause
    (lines 36, 40, 53), is recorded as an error with the message
    "Unable to fetch price: Unable to fetch price for SYMBOL" (lines
    117-120); the total is unchanged and the cause only shows in the log
    line of line 39. *)
Theorem failed_lookup_is_recorded (stock : value) (s : string) (cause : exn)
    (results : list value) (total : number) (w : World) :
  prop stock "symbol" = VStr s ->
  invalid_item stock = Some false ->
  fetch_outcome (toUpperCase s) w = Throw cause ->
  process_stock stock results total w
  = (Ok (push results (failed_result s), total),
     after_failed_request (toUpperCase s) cause w).
Proof.
  intros Hsym Hinv Hfetch.
  now rewrite process_stock_run, (object_not_nullish stock s Hsym), Hinv, Hsym, Hfetch.
Qed.

Lemma failed_lookup_is_recorded_witness :
  process_stock (item "aapl" (of_Z 2)) [] zero offline_readonly
  = (Ok (push [] (failed_result "aapl"), zero),
     after_failed_request (toUpperCase "aapl") (Error "offline") offline_readonly).
Proof.
  apply (failed_lookup_is_recorded (item "aapl" (of_Z 2)) "aapl" (Error "offline") []
           zero offline_readonly); reflexivity.
Defined.

(** *** Values that are not numbers *)

Lemma add_nan_r (x : number) : add x NaN = NaN.
Proof. destruct x; reflexivity. Qed.

Lemma add_nan_l (x : number) : add NaN x = NaN.
Proof. destruct x; reflexivity. Qed.

Lemma mul_nan_r (x : number) : mul x NaN = NaN.
Proof. destruct x; reflexivity. Qed.

Lemma sum_from_nan (vs : list (option number)) : fold_left add_value vs NaN = NaN.
Proof.
  induction vs as [|[v|] vs IH]; cbn [fold_left add_value]; [reflexivity | | exact IH].
  now rewrite add_nan_l.
Qed.

Lemma sum_with_nan (vs : list (option number)) :
  In (Some NaN) vs -> forall total : number, fold_left add_value vs total = NaN.
Proof.
  induction vs as [|v vs IH]; intros Hin total; [contradiction|].
  cbn [fold_left]. destruct Hin as [-> | Hin].
  - cbn [add_value]. rewrite add_nan_r. apply sum_from_nan.
  - now apply IH.
Qed.

Lemma take_digit (n : nat) (ds : string) (rest : string) :
  all_digits ds = true -> ds <> "" ->
  exists c r, take (S n) ds ++ rest = String c r /\ is_digit c = true.
Proof.
  destruct ds as [|c ds]; [congruence|]. cbn [all_digits take append].
  intros H _. apply andb_prop in H as [Hc _]. eauto.
Qed.

Lemma digits_head (ds rest : string) :
  all_digits ds = true -> ds <> "" ->
  exists c r, ds ++ rest = String c r /\ is_digit c = true.
Proof.
  destruct ds as [|c ds]; [congruence|]. cbn [all_digits append].
  intros H _. apply andb_prop in H as [Hc _]. eauto.
Qed.

Lemma format_digits_head (ds : string) (n k : Z) :
  all_digits ds = true -> ds <> "" ->
  exists c r, format_digits ds n k = String c r /\ is_digit c = true.
Proof.
  intros Hd Hne. unfold format_digits.
  destruct ((k <=? n) && (n <=? 21)); [now apply digits_head|].
  destruct ((0 <? n) && (n <=? 21)) eqn:Hn.
  { apply andb_prop in Hn as [Hn _]. apply Z.ltb_lt in Hn.
    destruct (Z.to_nat n) as [|m] eqn:Hm; [lia|]. now apply take_digit. }
  destruct ((-6 <? n) && (n <=? 0)); [eexists _, _; split; reflexivity|].
  destruct (k =? 1); [now apply digits_head|].
  now apply (take_digit 0).
Qed.

Lemma toFixed2_nan (x : number) : toFixed2 x = "NaN" -> x = NaN.
Proof.
  destruct x as [z | i | | s m e]; [discriminate | destruct i; discriminate | reflexivity |].
  intros H. exfalso.
  destruct (ge_1e21 m e) eqn:Hge.
  - unfold toFixed2 in H. rewrite Hge in H. unfold to_string in H.
    destruct (ratio_of m e) as [p q].
    destruct (shortest (S754_finite false m e) p q (dec_exponent p q) 1 16) as [[d n] k].
    destruct (Z_to_string_digits d) as (Hd & Hne).
    destruct (format_digits_head (Z_to_string d) n k Hd Hne) as (c & r & Hf & Hc).
    rewrite Hf in H. destruct s; [discriminate|].
    cbn [append] in H. injection H as -> _. discriminate.
  - pose proof (toFixed2_two_decimals (S754_finite s m e) eq_refl) as Htwo.
    cbn [below_1e21] in Htwo. rewrite Hge in Htwo. specialize (Htwo eq_refl).
    rewrite H in Htwo. discriminate.
Qed.

Lemma Forall2_In_r {A B} (P : A -> B -> Prop) (l : list A) (l' : list B) (b : B) :
  Forall2 P l l' -> In b l' -> exists a, In a l /\ P a b.
Proof.
  induction 1 as [|a b' l l' Hab Hrest IH]; intros Hin; [contradiction|].
  destruct Hin as [-> | Hin].
  - exists a. split; [now left | exact Hab].
  - destruct (IH Hin) as (a' & Ha' & HP). exists a'. split; [now right | exact HP].
Qed.

Lemma nan_value_loop (stocks : list value) (w w' : World)
    (outs : list (value * option number)) (r : value) :
  loop_outcomes stocks w outs w' ->
  In r (map fst outs) ->
  prop r "totalValue" = VStr "NaN" ->
  In (Some NaN) (map snd outs).
Proof.
  intros Hloop Hin Hnan. apply in_map_iff in Hin as ([r' o] & Hr & Hin). cbn in Hr. subst r'.
  destruct (Forall2_In_r _ _ _ _ (loop_outcomes_pointwise _ _ _ _ Hloop) Hin)
    as (stock & _ & w0 & w1 & Hout).
  cbn [fst snd] in Hout.
  apply in_map_iff. exists (r, o). split; [|exact Hin]. cbn [snd].
  destruct (outcome_cases _ _ _ _ _ Hout) as [(_ & _ & _ & ->) | (_ & s & _ & Hcase)].
  - discriminate.
  - destruct (fetch_outcome (toUpperCase s) w0) as [p|e].
    + destruct Hcase as (q & _ & -> & -> & _). f_equal.
      apply toFixed2_nan. unfold priced_result in Hnan. cbn in Hnan. now injection Hnan.
    + destruct Hcase as (-> & _). discriminate.
Qed.

(** X14. One result whose [totalValue] is "NaN" makes the
    [totalPortfolioValue] of the response "NaN" (lines 106, 115, 126),
    whatever the other items are worth. *)
Theorem nan_value_makes_the_total_nan (stocks : list value) (w w' : World)
    (response r : value) :
  calculate stocks w = (Ok response, w') ->
  In r (elements (prop response "stocks")) ->
  prop r "totalValue" = VStr "NaN" ->
  prop response "totalPortfolioValue" = VStr "NaN".
Proof.
  intros Hrun Hin Hnan.
  destruct (calculate_returns _ _ _ _ Hrun) as (outs & w1 & Hloop & -> & _).
  change (In r (map fst outs)) in Hin.
  change (VStr (toFixed2 (sum_values (map snd outs))) = VStr "NaN").
  unfold sum_values. now rewrite (sum_with_nan _ (nan_value_loop _ _ _ _ _ Hloop Hin Hnan)).
Qed.

Lemma nan_value_makes_the_total_nan_witness :
  exists (response : value) (w' : World),
    calculate [item_of "aapl" (VStr "many"); item "msft" (of_Z 1)] quoting_150
      = (Ok response, w') /\
    prop response "totalPortfolioValue" = VStr "NaN".
Proof.
  pose (r := VObj [("symbol", VStr "AAPL"); ("quantity", VStr "many");
                   ("currentPrice", VStr "150.00"); ("totalValue", VStr "NaN")]).
  pose (r' := VObj [("symbol", VStr "MSFT"); ("quantity", VNum (of_Z 1));
                    ("currentPrice", VStr "150.00"); ("totalValue", VStr "150.00")]).
  pose (response := VObj [("stocks", VArr [r; r']);
                          ("totalPortfolioValue", VStr "NaN");
                          ("timestamp", VStr "2024-10-27T00:00:00.000Z")]).
  assert (Hfst : fst (calculate [item_of "aapl" (VStr "many"); item "msft" (of_Z 1)]
                        quoting_150) = Ok response)
    by (vm_compute; reflexivity).
  assert (Hrun : calculate [item_of "aapl" (VStr "many"); item "msft" (of_Z 1)] quoting_150
                 = (Ok response,
                    snd (calculate [item_of "aapl" (VStr "many"); item "msft" (of_Z 1)]
                           quoting_150)))
    by (rewrite <- Hfst; apply surjective_pairing).
  eexists _, _. split; [exact Hrun|].
  apply (nan_value_makes_the_total_nan _ _ _ response r Hrun).
  - left. reflexivity.
  - reflexivity.
Defined.

(** X15. A quantity that is truthy and converts to NaN (a word, an
    object without a [toString] of its own) passes the test of line 96,
    since [NaN <= 0] is false; the item is priced, its [totalValue] is
    "NaN" and the running total becomes NaN (lines 106-115). *)
Theorem quantity_that_is_no_number_is_priced_as_nan (stock : value) (s : string) (p : number)
    (results : list value) (total : number) (w : World) :
  prop stock "symbol" = VStr s ->
  s <> "" ->
  truthy (prop stock "quantity") = true ->
  to_number (prop stock "quantity") = Some NaN ->
  fetch_outcome (toUpperCase s) w = Ok p ->
  invalid_item stock = Some false /\
  process_stock stock results total w
  = (Ok (push results
           (VObj [("symbol", VStr (toUpperCase s));
                  ("quantity", prop stock "quantity");
                  ("currentPrice", VStr (toFixed2 p));
                  ("totalValue", VStr "NaN")]),
         NaN),
     after_request (toUpperCase s) w).
Proof.
  intros Hsym Hne Htruthy Hq Hfetch.
  assert (Hs : truthy (prop stock "symbol") = true).
  { rewrite Hsym. cbn [truthy]. destruct s as [|c s]; [contradiction | reflexivity]. }
  assert (Hinv : invalid_item stock = Some false).
  { unfold invalid_item, le_zero. rewrite Hs, Htruthy, Hq. reflexivity. }
  split; [exact Hinv|].
  rewrite (priced_run stock s NaN p results total w Hsym Hinv Hq Hfetch).
  unfold priced_result. rewrite mul_nan_r.
  change (round2 NaN) with NaN. rewrite add_nan_r. reflexivity.
Qed.

Lemma quantity_that_is_no_number_is_priced_as_nan_witness :
  invalid_item (item_of "aapl" (VStr "many")) = Some false /\
  process_stock (item_of "aapl" (VStr "many")) [] zero quoting_150
  = (Ok (push []
           (VObj [("symbol", VStr (toUpperCase "aapl"));
                  ("quantity", prop (item_of "aapl" (VStr "many")) "quantity");
                  ("currentPrice", VStr (toFixed2 (of_Z 150)));
                  ("totalValue", VStr "NaN")]),
         NaN),
     after_request (toUpperCase "aapl") quoting_150).
Proof.
  apply (quantity_that_is_no_number_is_priced_as_nan (item_of "aapl" (VStr "many")) "aapl"
           (of_Z 150) [] zero quoting_150);
    [reflexivity | discriminate | reflexivity | vm_compute; reflexivity
    | vm_compute; reflexivity].
Defined.

(** *** The history file *)

Lemma save_then_load (h : value) (w : World) :
  write_error w = None ->
  exact h = true ->
  exists text : string,
    stringify h = Some text /\
    saveHistory h w
    = (Ok tt,
       mkWorld (provider w) (requests w) (clock w) (ticks w) (Some text) None
         (FileWrite text :: trace w)) /\
    parse text = Some h.
Proof.
  intros Hw Hex.
  destruct (serialize_defined "" h (exact_defined h Hex)) as (text & Htext).
  exists text. split; [exact Htext|]. split.
  - unfold saveHistory, try_catch, writeFile. unfold stringify. rewrite Htext, Hw. reflexivity.
  - exact (parse_stringify h text Hex Htext).
Qed.

(** X16. [saveHistory] then [loadHistory] (lines 57-74): when the write
    succeeds, a history that JSON text holds exactly is read back
    unchanged. *)
Theorem saved_history_loads_back (h : value) (w : World) :
  write_error w = None ->
  exact h = true ->
  fst (saveHistory h w) = Ok tt /\
  fst (loadHistory (snd (saveHistory h w))) = Ok h.
Proof.
  intros Hw Hex. destruct (save_then_load h w Hw Hex) as (text & _ & Hrun & Hparse).
  rewrite Hrun. split; [reflexivity|].
  rewrite load_run. unfold stored_history. cbn [snd file]. now rewrite Hparse.
Qed.

Lemma saved_history_loads_back_witness :
  fst (saveHistory (VArr [infinite_entry_read]) quoting_150) = Ok tt /\
  fst (loadHistory (snd (saveHistory (VArr [infinite_entry_read]) quoting_150)))
  = Ok (VArr [infinite_entry_read]).
Proof.
  apply (saved_history_loads_back (VArr [infinite_entry_read]) quoting_150).
  - reflexivity.
  - vm_compute. reflexivity.
Defined.

Lemma append_then_stored (response : value) (w : World) (l : list value) :
  stored_history w = VArr l ->
  write_error w = None ->
  exact (VArr (spread_with_id response (clock w (ticks w)) :: firstn 49 l)) = true ->
  exists w' : World,
    append_history response w = (Ok tt, w') /\
    stored_history w' = VArr (spread_with_id response (clock w (ticks w)) :: firstn 49 l) /\
    write_error w' = None /\ clock w' = clock w /\ ticks w' = S (ticks w).
Proof.
  intros Hs Hw Hex. rewrite (append_run response w l Hs), capped_cons.
  destruct (save_then_load _ (before_save w) Hw Hex) as (text & _ & Hrun & Hparse).
  rewrite Hrun. eexists. split; [reflexivity|].
  unfold stored_history. cbn [file write_error clock ticks before_save]. rewrite Hparse.
  repeat split.
Qed.

Lemma forallb_firstn_le {A} (f : A -> bool) (n m : nat) (l : list A) :
  (m <= n)%nat -> forallb f (firstn n l) = true -> forallb f (firstn m l) = true.
Proof.
  revert n m. induction l as [|a l IH]; intros n m Hle H.
  - now rewrite firstn_nil.
  - destruct m as [|m]; [reflexivity|]. destruct n as [|n]; [lia|].
    cbn [firstn forallb] in *. apply andb_prop in H as [Ha Hl]. rewrite Ha. cbn [andb].
    apply (IH n m); [lia | exact Hl].
Qed.

(** X17. Two appends in a row (lines 131-143) leave the second entry
    first, the first entry second and then the 48 newest of the entries
    that were stored before, when writes succeed and the entries are held
    exactly by JSON text. *)
Theorem two_appends_newest_first (r1 r2 : value) (w : World) (l : list value) :
  fst (loadHistory w) = Ok (VArr l) ->
  write_error w = None ->
  let e1 := spread_with_id r1 (clock w (ticks w)) in
  let e2 := spread_with_id r2 (clock w (S (ticks w))) in
  exact (VArr (e1 :: firstn 49 l)) = true ->
  exact e2 = true ->
  fst (loadHistory (snd (append_history r2 (snd (append_history r1 w)))))
  = Ok (VArr (e2 :: e1 :: firstn 48 l)).
Proof.
  intros Hload Hw e1 e2 Hex1 Hex2. rewrite load_run in Hload. injection Hload as Hs.
  destruct (append_then_stored r1 w l Hs Hw Hex1) as (w1 & Hrun1 & Hs1 & Hw1 & Hc1 & Ht1).
  rewrite Hrun1. cbn [snd].
  assert (Hfirst : firstn 49 (e1 :: firstn 49 l) = e1 :: firstn 48 l).
  { change (firstn 49 (e1 :: firstn 49 l)) with (e1 :: firstn 48 (firstn 49 l)).
    now rewrite firstn_firstn. }
  assert (Hex : exact (VArr (spread_with_id r2 (clock w1 (ticks w1))
                               :: firstn 49 (spread_with_id r1 (clock w (ticks w))
                                               :: firstn 49 l))) = true).
  { rewrite Hc1, Ht1. fold e1 e2. rewrite Hfirst.
    rewrite exact_arr in Hex1 |- *.
    change (exact e2 && (exact e1 && forallb exact (firstn 48 l)) = true).
    change (exact e1 && forallb exact (firstn 49 l) = true) in Hex1.
    apply andb_prop in Hex1 as [Ha Hb]. rewrite Hex2, Ha. cbn [andb].
    apply (forallb_firstn_le exact 49 48 l); [lia | exact Hb]. }
  destruct (append_then_stored r2 w1 _ Hs1 Hw1 Hex) as (w2 & Hrun2 & Hs2 & _).
  rewrite Hrun2. cbn [snd]. rewrite load_run, Hs2, Hc1, Ht1. fold e1 e2.
  now rewrite Hfirst.
Qed.

Lemma two_appends_newest_first_witness :
  fst (loadHistory
         (snd (append_history (VObj [("totalPortfolioValue", VStr "150.00")])
                 (snd (append_history (VObj [("totalPortfolioValue", VStr "300.00")])
                         quoting_150)))))
  = Ok (VArr (spread_with_id (VObj [("totalPortfolioValue", VStr "150.00")])
                (clock quoting_150 (S (ticks quoting_150)))
              :: spread_with_id (VObj [("totalPortfolioValue", VStr "300.00")])
                   (clock quoting_150 (ticks quoting_150))
              :: firstn 48 [])).
Proof.
  apply (two_appends_newest_first (VObj [("totalPortfolioValue", VStr "300.00")])
           (VObj [("totalPortfolioValue", VStr "150.00")]) quoting_150 []).
  - reflexivity.
  - reflexivity.
  - vm_compute. reflexivity.
  - vm_compute. reflexivity.
Defined.

Lemma lookup_obj_set (k k' : string) (v : value) (fs : list (string * value)) :
  lookup k' (obj_set k v fs) = if String.eqb k' k then v else lookup k' fs.
Proof.
  induction fs as [|[k1 v1] fs IH]; [reflexivity|].
  cbn [obj_set]. destruct (String.eqb k k1) eqn:Hk.
  - apply String.eqb_eq in Hk. subst k1. cbn [lookup].
    destruct (String.eqb k' k); reflexivity.
  - destruct (comes_before k k1); [reflexivity|].
    cbn [lookup]. rewrite IH.
    destruct (String.eqb k' k1) eqn:H1; [|reflexivity].
    destruct (String.eqb k' k) eqn:H2; [|reflexivity].
    apply String.eqb_eq in H1, H2. subst. now rewrite String.eqb_refl in Hk.
Qed.

(** X18. The history entry of lines 132-135 has the id under [id] and,
    under every other key, what the response has. *)
Theorem history_entry_is_response_with_id (fs : list (string * value)) (id : Z) (k : string) :
  prop (spread_with_id (VObj fs) id) k
  = if String.eqb k "id" then VNum (of_Z id) else prop (VObj fs) k.
Proof. apply lookup_obj_set. Qed.

(** *** A request, then the history *)

Lemma exact_fields (fs : list (string * value)) :
  property_order [] (map fst fs) = true ->
  forallb (fun kv => exact (snd kv)) fs = true ->
  exact (VObj fs) = true.
Proof. intros Hk Hv. rewrite exact_obj, Hk, Hv. reflexivity. Qed.

Lemma outcome_exact (stock r : value) (o : option number) (w w' : World) :
  item_outcome stock w r o w' -> echo_exact stock = true -> exact r = true.
Proof.
  intros Hout. unfold echo_exact.
  destruct (outcome_cases _ _ _ _ _ Hout) as [(Hinv & _ & _ & ->) | (Hinv & s & _ & Hcase)];
    [rewrite (passes_rejected _ Hinv) | rewrite (passes_accepted _ Hinv)]; intros Hex.
  - apply exact_fields; [reflexivity|]. cbn [forallb snd exact]. now rewrite Hex.
  - destruct (fetch_outcome (toUpperCase s) w).
    + destruct Hcase as (q & _ & -> & _).
      apply exact_fields; [reflexivity|]. cbn [forallb snd exact]. now rewrite Hex.
    + destruct Hcase as (-> & _). reflexivity.
Qed.

Lemma loop_exact (stocks : list value) (w w' : World) (outs : list (value * option number)) :
  loop_outcomes stocks w outs w' ->
  Forall (fun stock => echo_exact stock = true) stocks ->
  forallb exact (map fst outs) = true.
Proof.
  induction 1 as [w | stock stocks w w1 w2 r o outs Hone Hrest IH]; intros Hall;
    [reflexivity|].
  inversion Hall as [|? ? Hst Hsts]; subst. cbn [map fst forallb].
  now rewrite (outcome_exact _ _ _ _ _ Hone Hst), (IH Hsts).
Qed.

Lemma entry_exact (results : list value) (total : number) (ms id : Z) :
  forallb exact results = true ->
  exact_number (of_Z id) = true ->
  exact (spread_with_id (response_of results total ms) id) = true.
Proof.
  intros Hr Hid.
  change (spread_with_id (response_of results total ms) id)
    with (VObj [("stocks", VArr results);
                ("totalPortfolioValue", VStr (toFixed2 total));
                ("timestamp", VStr (toISOString ms));
                ("id", VNum (of_Z id))]).
  apply exact_fields; [reflexivity|]. cbn [forallb snd exact]. now rewrite Hr, Hid.
Qed.

(** X19. POST /api/portfolio followed by GET /api/history: for a
    request without an item on which the loop throws, whose echoed
    symbols and quantities are held exactly by JSON text, a history file
    that holds a sequence [l] (or is missing or unusable, [l] being
    empty), a write that succeeds and an id that prints exactly, the
    reply is 200 and the history then served starts with that response
    plus its id (the second clock reading), followed by the 49 newest
    older entries as [JSON.parse] reads them back; nothing is asked of
    the older entries. *)
Theorem posted_portfolio_heads_the_history (req_body : value) (stocks : list value)
    (w : World) (l : list value) :
  prop req_body "stocks" = VArr stocks ->
  stocks <> [] ->
  Forall (fun stock => aborts stock = false) stocks ->
  Forall (fun stock => echo_exact stock = true) stocks ->
  history_in_file w l ->
  write_error w = None ->
  exact_number (of_Z (clock w (S (ticks w)))) = true ->
  exists (response : value) (w' : World),
    post_portfolio req_body w = (Ok (mkResponse 200 response), w') /\
    fst (get_history w')
    = Ok (mkResponse 200
            (VArr (spread_with_id response (clock w (S (ticks w)))
                   :: map reread (firstn 49 l)))).
Proof.
  intros Hs Hne Hab Hecho Hhist Hw Hid.
  destruct (loop_aborts_or_runs stocks [] zero w)
    as [(Hex & _) | (_ & outs & w1 & Hloop & Hout)]; [destruct (no_abort _ Hab Hex)|].
  rewrite (post_loop_returns _ _ _ _ _ Hs Hne Hloop). cbn [fst snd app].
  destruct (loop_store _ _ _ _ Hout) as ((_ & Hc & Ht & Hfile & Hwe) & _).
  set (response := response_of (map fst outs) (fold_left add_value (map snd outs) zero)
                     (clock w1 (ticks w1))).
  assert (Hex : exact (spread_with_id response (clock (tick w1) (ticks (tick w1)))) = true).
  { apply entry_exact; [exact (loop_exact _ _ _ _ Hout Hecho)|].
    cbn [tick clock ticks]. now rewrite Hc, Ht. }
  destruct (append_entry_stored response (tick w1) l) as (text & Hrun & Hparse);
    [exact (history_in_file_same_file w (tick w1) l Hfile Hhist)
    | cbn [tick write_error]; congruence | exact Hex |].
  rewrite Hrun. exists response. eexists. split; [reflexivity|].
  unfold get_history, try_catch, bind. rewrite load_run.
  unfold stored_history. cbn [file fst]. rewrite Hparse.
  cbn [tick clock ticks]. now rewrite Hc, Ht.
Qed.

Lemma posted_portfolio_heads_the_history_witness :
  history_in_file odd_history_world odd_history /\
  exists (response : value) (w' : World),
    post_portfolio (request sample_items) odd_history_world
      = (Ok (mkResponse 200 response), w') /\
    fst (get_history w')
    = Ok (mkResponse 200
            (VArr (spread_with_id response
                     (clock odd_history_world (S (ticks odd_history_world)))
                   :: map reread (firstn 49 odd_history)))).
Proof.
  assert (Hfile : history_in_file odd_history_world odd_history).
  { left. exists "[1e999,-0,[1]]". split; [reflexivity | vm_compute; reflexivity]. }
  split; [exact Hfile|].
  apply (posted_portfolio_heads_the_history (request sample_items) sample_items
           odd_history_world odd_history).
  - reflexivity.
  - discriminate.
  - repeat constructor.
  - repeat constructor; vm_compute; reflexivity.
  - exact Hfile.
  - reflexivity.
  - vm_compute. reflexivity.
Defined.

(** *** Replies that report a failure *)

(** X20. Whatever a handler answers with a status other than 200 is an
    object with the single key [error] holding a string (lines 84-86,
    149-151, 162-164, 174-176, 189-191, 212-214, 219-221); the health
    check never does. *)
Theorem failure_replies_are_error_objects (r : response) (w w' : World) :
  (exists req_body : value, post_portfolio req_body w = (Ok r, w'))
  \/ (exists symbol : string, get_stock symbol w = (Ok r, w'))
  \/ get_history w = (Ok r, w')
  \/ get_health w = (Ok r, w')
  \/ (exists error : exn, error_middleware error w = (Ok r, w'))
  \/ not_found w = (Ok r, w') ->
  status r <> 200 ->
  exists msg : string, body r = VObj [("error", VStr msg)].
Proof.
  intros [(req_body & Hrun) | [(symbol & Hrun) | [Hrun | Hrest]]] Hst;
    [| | | destruct Hrest as [Hrun | [(error & Hrun) | Hrun]];
           injection Hrun as <- _; [now contradiction Hst | |]; eexists; reflexivity].
  - destruct (post_reply_cases req_body w)
      as (r0 & w0 & Hrun0 & [(Hr & _) | [(H200 & _) | (Hr & _)]]);
      rewrite Hrun in Hrun0; injection Hrun0 as Hr0 _; subst r0.
    + rewrite Hr. eexists. reflexivity.
    + contradiction.
    + rewrite Hr. eexists. reflexivity.
  - rewrite get_stock_run in Hrun.
    destruct (String.eqb symbol "").
    { injection Hrun as <- _. eexists. reflexivity. }
    destruct (fetch_outcome (toUpperCase symbol) w); injection Hrun as <- _.
    + now contradiction Hst.
    + eexists. reflexivity.
  - unfold get_history, try_catch, bind in Hrun. rewrite load_run in Hrun.
    injection Hrun as <- _. now contradiction Hst.
Qed.

Lemma failure_replies_are_error_objects_witness :
  exists msg : string,
    body (mkResponse 404
            (VObj [("error",
                    VStr "Unable to fetch price for aapl: Unable to fetch price for AAPL")]))
    = VObj [("error", VStr msg)].
Proof.
  assert (Hfst : fst (get_stock "aapl" offline_readonly)
                 = Ok (mkResponse 404
                         (VObj [("error",
                                 VStr "Unable to fetch price for aapl: Unable to fetch price for AAPL")])))
    by (vm_compute; reflexivity).
  apply (failure_replies_are_error_objects _ offline_readonly
           (snd (get_stock "aapl" offline_readonly))).
  - right. left. exists "aapl". rewrite <- Hfst. apply surjective_pairing.
  - discriminate.
Defined.

End BehaviourFacts.
